(** * onyx_image: a shallow embedding of the decoder engine

    The development follows the layout of the C++ sources:

    - [types.hpp]            pixel formats, sub-rectangles, decode results/options
    - [surface.hpp/.cpp]     the abstract [surface] interface and [memory_surface]
    - [codecs/byte_io.hpp]   little/big-endian readers
    - [codecs/decode_helpers.hpp]  dimension limits, [write_rows], [extract_pixel]
    - [codecs/c64_common.hpp]      C64 palette, [blend_rgb], [decode_multicolor]
    - [codecs/koala.cpp], [codecs/drazlace.cpp], [codecs/qoi.cpp],
      [codecs/png.cpp], [codecs/ico.cpp], [codec.cpp]

    Conventions of the embedding.

    - A [std::uint8_t] is a [Byte.byte]; [u8] gives its value as a [Z] and
      [to_u8] is the conversion [static_cast<std::uint8_t>] (reduction
      modulo 256).  [int], [unsigned], [std::uint32_t] and [std::size_t]
      values are [Z]; where the C++ arithmetic can wrap, the reduction is
      written out ([wrap32], [wrap64]).
    - A [std::span]/[std::vector] of bytes is a [list byte].  Reads of the
      input buffer are bounds-checked: the computation lives in the
      [checked] monad whose [OutOfBounds] outcome stands for an access
      outside the buffer (undefined behaviour in C++).  Pointer arithmetic
      [p + k] is a [ptr]: the buffer together with an offset into it.
    - Decoders are written against the [surface] interface (a type class),
      exactly as the C++ decoders take a [surface&]; [memory_surface] is the
      in-memory instance and [call_log] an instance that only records the
      calls it receives.
    - Heap allocation is total: a [std::vector] of the requested size always
      exists, so the [std::bad_alloc] handler of [memory_surface::set_size]
      is outside the model. *)

From Stdlib Require Import ZArith Lia Bool ZifyBool.
From Stdlib.Strings Require Import String Byte.
From stdpp Require Import base tactics option list list_numbers.

Local Open Scope Z_scope.

(* ===================================================================== *)
(** ** Machine integers and bytes *)
(* ===================================================================== *)

Definition wrap32 (z : Z) : Z := z mod 2 ^ 32.
Definition wrap64 (z : Z) : Z := z mod 2 ^ 64.
Definition SIZE_MAX : Z := 2 ^ 64 - 1.
Definition INT_MAX : Z := 2 ^ 31 - 1.

(** [static_cast<std::size_t>] of an [int]: a negative value becomes
    2^64 + z. *)
Definition size_t_of_int (z : Z) : Z := if z <? 0 then z + 2 ^ 64 else z.

(** [static_cast<int>] of an unsigned 32-bit value (two's complement). *)
Definition to_int32 (z : Z) : Z :=
  let w := wrap32 z in if w <? 2 ^ 31 then w else w - 2 ^ 32.

Definition u8 (b : byte) : Z := Z.of_N (Byte.to_N b).

Definition to_u8 (z : Z) : byte :=
  match Byte.of_N (Z.to_N (z mod 256)) with
  | Some b => b
  | None => x00
  end.

(* ===================================================================== *)
(** ** Bounds-checked computations *)
(* ===================================================================== *)

(** [OutOfBounds]: an access outside a buffer.  [OutOfFuel]: a [while]
    loop of the model was cut short by its iteration budget (the budgets
    are chosen from the input size and shown never to run out). *)
Inductive checked (A : Type) : Type :=
| Ok (a : A)
| OutOfBounds
| OutOfFuel.
Arguments Ok {A} a.
Arguments OutOfBounds {A}.
Arguments OutOfFuel {A}.

Definition cbind {A B} (c : checked A) (k : A -> checked B) : checked B :=
  match c with
  | Ok a => k a
  | OutOfBounds => OutOfBounds
  | OutOfFuel => OutOfFuel
  end.

Notation "'let!' x ':=' c 'in' k" := (cbind c (fun x => k))
  (at level 10, x pattern, c at level 100, k at level 200).

(** [p[i]] for a buffer [p] whose extent is known. *)
Definition rd (p : list byte) (i : Z) : checked byte :=
  if i <? 0 then OutOfBounds
  else match p !! Z.to_nat i with
       | Some b => Ok b
       | None => OutOfBounds
       end.

(** [v[i] = b] on a vector. *)
Definition wr (v : list byte) (i : Z) (b : byte) : checked (list byte) :=
  if (i <? 0) || (i >=? Z.of_nat (length v)) then OutOfBounds
  else Ok (<[Z.to_nat i := b]> v).

Record ptr := { base : list byte; off : Z }.

Definition ptr_add (p : ptr) (k : Z) : ptr :=
  {| base := base p; off := off p + k |}.

(** [p[k]]. *)
Definition deref (p : ptr) (k : Z) : checked byte := rd (base p) (off p + k).

(** The bytes from [p] to the end of its buffer. *)
Definition ptr_bytes (p : ptr) : list byte := drop (Z.to_nat (off p)) (base p).

Definition len (v : list byte) : Z := Z.of_nat (length v).

(** A [for] loop over the values of [l], threading the state. *)
Fixpoint for_each {A S} (l : list A) (body : A -> S -> checked S) (s : S)
  : checked S :=
  match l with
  | [] => Ok s
  | a :: l' => let! s' := body a s in for_each l' body s'
  end.

(* ===================================================================== *)
(** ** types.hpp *)
(* ===================================================================== *)

Inductive pixel_format := indexed8 | rgb888 | rgba8888.

Definition pixel_format_eqb (a b : pixel_format) : bool :=
  match a, b with
  | indexed8, indexed8 | rgb888, rgb888 | rgba8888, rgba8888 => true
  | _, _ => false
  end.

Definition bytes_per_pixel (fmt : pixel_format) : Z :=
  match fmt with
  | indexed8 => 1
  | rgb888 => 3
  | rgba8888 => 4
  end.

Record image_rect := { rect_x : Z; rect_y : Z; rect_w : Z; rect_h : Z }.

Inductive subrect_kind := sprite | tile | frame.

Record subrect := {
  rect : image_rect;
  kind : subrect_kind;
  user_tag : Z
}.

(** The default-constructed [subrect]. *)
Definition subrect_default : subrect :=
  {| rect := {| rect_x := 0; rect_y := 0; rect_w := 0; rect_h := 0 |};
     kind := sprite; user_tag := 0 |}.

Inductive decode_error :=
| none
| invalid_format
| unsupported_version
| unsupported_encoding
| unsupported_bit_depth
| dimensions_exceeded
| truncated_data
| io_error
| internal_error.

Record decode_result := {
  ok : bool;
  error : decode_error;
  message : string
}.

Definition success : decode_result :=
  {| ok := true; error := none; message := "" |}.

Definition failure (err : decode_error) (msg : string) : decode_result :=
  {| ok := false; error := err; message := msg |}.

Record decode_options := {
  max_width : Z;
  max_height : Z
}.

(** [decode_options{}]: both ceilings default to 16384. *)
Definition default_options : decode_options :=
  {| max_width := 16384; max_height := 16384 |}.

(* ===================================================================== *)
(** ** surface.hpp: the abstract surface *)
(* ===================================================================== *)

(** The virtual interface decoders write to.  A pixel pointer handed to
    [write_pixels] is passed as the bytes stored from that address on;
    an implementation that reads more bytes than are stored there has
    left the caller's buffer, which is [OutOfBounds].  The interface
    documents [count] as the number of bytes to write: an implementation
    reads at most [count] bytes from the pointer
    ([write_pixels_reads_count]). *)
Class surface (S : Type) := {
  set_size : Z -> Z -> pixel_format -> S -> bool * S;
  write_pixels : Z -> Z -> Z -> list byte -> S -> checked S;
  write_pixel : Z -> Z -> byte -> S -> S;
  set_palette_size : Z -> S -> S;
  write_palette : Z -> list byte -> S -> checked S;
  set_subrect : Z -> subrect -> S -> S;
  write_pixels_reads_count :
    forall (x y count : Z) (pixels : list byte) (s : S),
      count <= len pixels -> exists s', write_pixels x y count pixels s = Ok s'
}.

(* ===================================================================== *)
(** ** surface.cpp: memory_surface *)
(* ===================================================================== *)

Module memory_surface.

Record t := mk {
  pixels_ : list byte;
  palette_ : list byte;
  subrects_ : list subrect;
  width_ : Z;
  height_ : Z;
  pitch_ : Z;
  format_ : pixel_format
}.

(** The default-constructed surface. *)
Definition empty : t :=
  {| pixels_ := []; palette_ := []; subrects_ := [];
     width_ := 0; height_ := 0; pitch_ := 0; format_ := rgba8888 |}.

Definition MAX_BUFFER_SIZE : Z := 1024 * 1024 * 1024.

(** [set_size].  [allocated] is the outcome of the heap request made by
    [pixels_.resize(total_size)] when the vector has to grow: [false]
    stands for [std::bad_alloc], which the function catches after it has
    already stored the new width, height, format and pitch. *)
Definition set_size (allocated : bool) (width height : Z)
    (format : pixel_format) (s : t) : bool * t :=
  if (width <=? 0) || (height <=? 0) then (false, s)
  else
    let w := width in
    let h := height in
    let bpp := bytes_per_pixel format in
    if w >? SIZE_MAX / bpp then (false, s)
    else
      let pitch := w * bpp in
      if pitch >? SIZE_MAX / h then (false, s)
      else
        let total_size := pitch * h in
        if total_size >? MAX_BUFFER_SIZE then (false, s)
        else
          let s :=
            {| pixels_ := pixels_ s;
               palette_ := palette_ s;
               subrects_ := subrects_ s;
               width_ := width;
               height_ := height;
               pitch_ := pitch;
               format_ := format |} in
          if (total_size >? Z.of_nat (length (pixels_ s))) && negb allocated
          then (false, s)
          else
            (true,
             {| pixels_ := replicate (Z.to_nat total_size) x00;
                palette_ := [];
                subrects_ := [];
                width_ := width;
                height_ := height;
                pitch_ := pitch;
                format_ := format |}).

(** [std::memcpy(dst + offset, src, n)] on a vector: the [n] bytes at
    [offset] are replaced by the first [n] bytes of [src].  It reads
    [n] bytes of [src] and writes [n] bytes of [dst] whatever their
    extents: fewer than [n] bytes on either side is an access outside
    the buffer. *)
Definition memcpy (dst : list byte) (offset : Z) (src : list byte) (n : Z)
  : checked (list byte) :=
  if (n >? len src) || (offset + n >? len dst) then OutOfBounds
  else Ok (take (Z.to_nat offset) dst ++ take (Z.to_nat n) src
             ++ drop (Z.to_nat (offset + n)) dst).

Definition write_pixels (x y count : Z) (pixels : list byte) (s : t)
  : checked t :=
  if (y <? 0) || (y >=? height_ s) || (x <? 0) || (count <=? 0) then Ok s
  else
    let x_offset := x in
    if x_offset >=? pitch_ s then Ok s
    else
      let offset := y * pitch_ s + x_offset in
      let max_bytes := pitch_ s - x_offset in
      let bytes_to_copy := Z.min count max_bytes in
      if offset + bytes_to_copy <=? Z.of_nat (length (pixels_ s)) then
        let! pixels' := memcpy (pixels_ s) offset pixels bytes_to_copy in
        Ok {| pixels_ := pixels';
              palette_ := palette_ s;
              subrects_ := subrects_ s;
              width_ := width_ s;
              height_ := height_ s;
              pitch_ := pitch_ s;
              format_ := format_ s |}
      else Ok s.

Definition write_pixel (x y : Z) (pixel : byte) (s : t) : t :=
  if (x <? 0) || (x >=? width_ s) || (y <? 0) || (y >=? height_ s) then s
  else if negb (pixel_format_eqb (format_ s) indexed8) then s
  else
    let offset := y * pitch_ s + x in
    if offset <? Z.of_nat (length (pixels_ s)) then
      {| pixels_ := <[Z.to_nat offset := pixel]> (pixels_ s);
         palette_ := palette_ s;
         subrects_ := subrects_ s;
         width_ := width_ s;
         height_ := height_ s;
         pitch_ := pitch_ s;
         format_ := format_ s |}
    else s.

Definition set_palette_size (count : Z) (s : t) : t :=
  if (count <=? 0) || (count >? 256) then s
  else
    {| pixels_ := pixels_ s;
       palette_ := replicate (Z.to_nat (count * 3)) x00;
       subrects_ := subrects_ s;
       width_ := width_ s;
       height_ := height_ s;
       pitch_ := pitch_ s;
       format_ := format_ s |}.

Definition write_palette (start : Z) (colors : list byte) (s : t)
  : checked t :=
  if (start <? 0) || (Nat.eqb (length colors) 0) then Ok s
  else
    let start_offset := start * 3 in
    if start_offset >=? Z.of_nat (length (palette_ s)) then Ok s
    else
      let bytes_to_copy :=
        Z.min (Z.of_nat (length colors))
              (Z.of_nat (length (palette_ s)) - start_offset) in
      let! palette' := memcpy (palette_ s) start_offset colors bytes_to_copy in
      Ok {| pixels_ := pixels_ s;
            palette_ := palette';
            subrects_ := subrects_ s;
            width_ := width_ s;
            height_ := height_ s;
            pitch_ := pitch_ s;
            format_ := format_ s |}.

(** [std::vector::resize] growing with default-constructed elements. *)
Definition resize_subrects (l : list subrect) (n : nat) : list subrect :=
  take n l ++ replicate (n - length l) subrect_default.

Definition set_subrect (index : Z) (sr : subrect) (s : t) : t :=
  if index <? 0 then s
  else
    let subrects1 :=
      if index >=? Z.of_nat (length (subrects_ s))
      then resize_subrects (subrects_ s) (Z.to_nat (index + 1))
      else subrects_ s in
    {| pixels_ := pixels_ s;
       palette_ := palette_ s;
       subrects_ := <[Z.to_nat index := sr]> subrects1;
       width_ := width_ s;
       height_ := height_ s;
       pitch_ := pitch_ s;
       format_ := format_ s |}.

(** The shape of a surface after a successful 320x200 RGB decode. *)
Definition is_c64_surface (s : t) : Prop :=
  width_ s = 320 /\ height_ s = 200 /\ format_ s = rgb888
  /\ Z.of_nat (length (pixels_ s)) = 192000.

(** [write_pixels] copies [min(count, pitch - x)] bytes: never more
    than [count]. *)
Lemma write_pixels_reads_count (x y count : Z) (pixels : list byte) (s : t) :
  count <= len pixels -> exists s', write_pixels x y count pixels s = Ok s'.
Proof.
  intros Hcount. unfold write_pixels, memcpy.
  destruct ((y <? 0) || (y >=? height_ s) || (x <? 0) || (count <=? 0));
    [eauto|].
  destruct (x >=? pitch_ s); [eauto|].
  destruct (y * pitch_ s + x + Z.min count (pitch_ s - x)
            <=? Z.of_nat (length (pixels_ s))) eqn:E; [|eauto].
  destruct ((Z.min count (pitch_ s - x) >? len pixels)
            || (y * pitch_ s + x + Z.min count (pitch_ s - x)
                >? len (pixels_ s))) eqn:E'.
  - unfold len in *. lia.
  - cbn [cbind]. eauto.
Qed.

End memory_surface.

(** The memory surface the decoders are run on.  Its heap grants every
    request that [set_size] lets through (at most 1 GiB); the exit taken
    on [std::bad_alloc] is [memory_surface.set_size false]. *)
#[export] Instance memory_surface_surface : surface memory_surface.t := {
  set_size := memory_surface.set_size true;
  write_pixels := memory_surface.write_pixels;
  write_pixel := memory_surface.write_pixel;
  set_palette_size := memory_surface.set_palette_size;
  write_palette := memory_surface.write_palette;
  set_subrect := memory_surface.set_subrect;
  write_pixels_reads_count := memory_surface.write_pixels_reads_count
}.

(** A surface that stores nothing and records the calls made to it, in
    the order they were made.  Its [set_size] always reports success. *)
Inductive surface_call :=
| call_set_size (width height : Z) (format : pixel_format)
| call_write_pixels (x y count : Z)
| call_write_pixel (x y : Z)
| call_set_palette_size (count : Z)
| call_write_palette (start : Z)
| call_set_subrect (index : Z) (sr : subrect).

Definition call_log := list surface_call.

#[export] Instance call_log_surface : surface call_log := {
  set_size w h f log := (true, log ++ [call_set_size w h f]);
  write_pixels x y n _ log := Ok (log ++ [call_write_pixels x y n]);
  write_pixel x y _ log := log ++ [call_write_pixel x y];
  set_palette_size n log := log ++ [call_set_palette_size n];
  write_palette i _ log := Ok (log ++ [call_write_palette i]);
  set_subrect i sr log := log ++ [call_set_subrect i sr];
  write_pixels_reads_count x y n _ log _ :=
    ex_intro _ (log ++ [call_write_pixels x y n]) eq_refl
}.

Definition is_set_size (c : surface_call) : bool :=
  match c with call_set_size _ _ _ => true | _ => false end.

(* ===================================================================== *)
(** ** Sequences of surface operations *)
(* ===================================================================== *)

Module surface_ops.
Import memory_surface.

Inductive op :=
| op_set_size (allocated : bool) (width height : Z) (format : pixel_format)
| op_write_pixels (x y count : Z) (pixels : list byte)
| op_write_pixel (x y : Z) (pixel : byte)
| op_set_palette_size (count : Z)
| op_write_palette (start : Z) (colors : list byte)
| op_set_subrect (index : Z) (sr : subrect).

Definition apply (o : op) (s : t) : checked t :=
  match o with
  | op_set_size a w h f => Ok (snd (set_size a w h f s))
  | op_write_pixels x y n p => write_pixels x y n p s
  | op_write_pixel x y p => Ok (write_pixel x y p s)
  | op_set_palette_size n => Ok (set_palette_size n s)
  | op_write_palette i c => write_palette i c s
  | op_set_subrect i sr => Ok (set_subrect i sr s)
  end.

Definition run (ops : list op) (s : t) : checked t := for_each ops apply s.

(** The heap grants the request of a [set_size] operation. *)
Definition allocates (o : op) : Prop :=
  match o with
  | op_set_size allocated _ _ _ => allocated = true
  | _ => True
  end.

(** A [write_pixels] operation whose pointer designates at least
    [count] readable bytes (what the interface asks of the caller). *)
Definition defined (o : op) : Prop :=
  match o with
  | op_write_pixels _ _ count pixels => count <= Z.of_nat (length pixels)
  | _ => True
  end.

Definition invariant (s : t) : Prop :=
  Z.of_nat (length (pixels_ s))
    = width_ s * height_ s * bytes_per_pixel (format_ s)
  /\ (Z.of_nat (length (palette_ s)) mod 3 = 0
      /\ Z.of_nat (length (palette_ s)) <= 768).

End surface_ops.

(* ===================================================================== *)
(** ** codecs/byte_io.hpp *)
(* ===================================================================== *)

Definition read_le16 (p : ptr) : checked Z :=
  let! p0 := deref p 0 in
  let! p1 := deref p 1 in
  Ok (Z.lor (u8 p0) (Z.shiftl (u8 p1) 8)).

Definition read_le32 (p : ptr) : checked Z :=
  let! p0 := deref p 0 in
  let! p1 := deref p 1 in
  let! p2 := deref p 2 in
  let! p3 := deref p 3 in
  Ok (Z.lor (Z.lor (Z.lor (u8 p0) (Z.shiftl (u8 p1) 8))
                   (Z.shiftl (u8 p2) 16))
            (Z.shiftl (u8 p3) 24)).

Definition read_le32_signed (p : ptr) : checked Z :=
  let! v := read_le32 p in Ok (to_int32 v).

Definition read_be16 (p : ptr) : checked Z :=
  let! p0 := deref p 0 in
  let! p1 := deref p 1 in
  Ok (Z.lor (Z.shiftl (u8 p0) 8) (u8 p1)).

Definition read_be32 (p : ptr) : checked Z :=
  let! p0 := deref p 0 in
  let! p1 := deref p 1 in
  let! p2 := deref p 2 in
  let! p3 := deref p 3 in
  Ok (Z.lor (Z.lor (Z.lor (Z.shiftl (u8 p0) 24) (Z.shiftl (u8 p1) 16))
                   (Z.shiftl (u8 p2) 8))
            (u8 p3)).

(* ===================================================================== *)
(** ** codecs/decode_helpers.hpp *)
(* ===================================================================== *)

Definition DEFAULT_MAX_DIMENSION : Z := 16384.
Definition DEFAULT_ICON_MAX_DIMENSION : Z := 256.

Definition get_dimension_limits (options : decode_options) (default_limit : Z)
  : Z * Z :=
  let max_w := if max_width options >? 0 then max_width options
               else default_limit in
  let max_h := if max_height options >? 0 then max_height options
               else default_limit in
  (max_w, max_h).

Definition validate_dimensions (width height : Z) (options : decode_options)
    (default_limit : Z) : decode_result :=
  let '(max_w, max_h) := get_dimension_limits options default_limit in
  if (width >? max_w) || (height >? max_h) then
    failure dimensions_exceeded "Image dimensions exceed limits"
  else success.

(** [write_rows]: row [y] is the [row_bytes] bytes at [data + y*row_bytes]. *)
Definition write_rows {Surf : Type} `{!surface Surf} (surf : Surf) (data : list byte)
    (row_bytes height : Z) : checked Surf :=
  for_each (seqZ 0 height)
    (fun y surf =>
       write_pixels 0 y (to_int32 row_bytes)
         (drop (Z.to_nat (y * row_bytes)) data) surf)
    surf.

Definition row_stride_4byte (width bits_per_pixel : Z) : Z :=
  wrap64 ((wrap64 (width * bits_per_pixel + 31) / 32) * 4).

Definition row_stride_2byte (width bits_per_pixel : Z) : Z :=
  let bits := wrap64 (width * bits_per_pixel) in
  wrap64 ((wrap64 (bits + 15) / 16) * 2).

(** [extract_pixel row x bits_per_pixel], [row] a pointer to the row. *)
Definition extract_pixel (row : ptr) (x bits_per_pixel : Z) : checked Z :=
  match bits_per_pixel with
  | 1 =>
      let byte_index := x ÷ 8 in
      let bit_index := 7 - Z.rem x 8 in
      let! b := deref row byte_index in
      Ok (Z.land (Z.shiftr (u8 b) bit_index) 1)
  | 2 =>
      let byte_index := x ÷ 4 in
      let bit_index := 6 - Z.rem x 4 * 2 in
      let! b := deref row byte_index in
      Ok (Z.land (Z.shiftr (u8 b) bit_index) 3)
  | 4 =>
      let byte_index := x ÷ 2 in
      let bit_index := if Z.rem x 2 =? 0 then 4 else 0 in
      let! b := deref row byte_index in
      Ok (Z.land (Z.shiftr (u8 b) bit_index) 15)
  | 8 => let! b := deref row x in Ok (u8 b)
  | _ => Ok 0
  end.

(* ===================================================================== *)
(** ** codecs/c64_common.hpp *)
(* ===================================================================== *)

Module c64.

Definition PALETTE_table : list Z :=
  [ 0x000000; 0xffffff; 0x68372b; 0x70a4b2;
    0x6f3d86; 0x588d43; 0x352879; 0xb8c76f;
    0x6f4f25; 0x433900; 0x9a6759; 0x444444;
    0x6c6c6c; 0x9ad284; 0x6c5eb5; 0x959595 ].

(** [PALETTE[i]]; every use masks the index with [0x0f]. *)
Definition PALETTE (i : Z) : Z := nth (Z.to_nat i) PALETTE_table 0.

Definition MULTICOLOR_WIDTH : Z := 320.
Definition MULTICOLOR_HEIGHT : Z := 200.
Definition HIRES_WIDTH : Z := 320.
Definition HIRES_HEIGHT : Z := 200.
Definition FLI_WIDTH : Z := 296.

Definition BITMAP_SIZE : Z := 8000.
Definition SCREEN_RAM_SIZE : Z := 1000.
Definition COLOR_RAM_SIZE : Z := 1000.

Definition RGB_BYTES : Z := 3.
Definition RGB_BLEND_MASK : Z := 0x7f7f7f.

Definition write_rgb_pixel {Surf : Type} `{!surface Surf} (surf : Surf) (x y rgb : Z)
  : checked Surf :=
  let pixel :=
    [ to_u8 (Z.land (Z.shiftr rgb 16) 0xff);
      to_u8 (Z.land (Z.shiftr rgb 8) 0xff);
      to_u8 (Z.land rgb 0xff) ] in
  write_pixels (x * RGB_BYTES) y RGB_BYTES pixel surf.

(** The 8-bit channel [k] of a [0x00RRGGBB] value, as [write_rgb_pixel]
    extracts it: [k = 2] red, [k = 1] green, [k = 0] blue. *)
Definition channel (k rgb : Z) : Z := Z.land (Z.shiftr rgb (8 * k)) 0xff.

(** [std::uint32_t] arithmetic: the sum is reduced modulo 2^32. *)
Definition blend_rgb (rgb1 rgb2 : Z) : Z :=
  wrap32 (Z.land rgb1 rgb2
          + Z.land (Z.shiftr (Z.lxor rgb1 rgb2) 1) RGB_BLEND_MASK).

Definition decode_multicolor {Surf : Type} `{!surface Surf}
    (bitmap screen_ram color_ram : ptr) (background : byte) (surf : Surf)
  : checked Surf :=
  for_each (seqZ 0 MULTICOLOR_HEIGHT) (fun y surf =>
    for_each (seqZ 0 MULTICOLOR_WIDTH) (fun x surf =>
      let char_col := x ÷ 8 in
      let char_row := y ÷ 8 in
      let char_offset := char_row * 40 + char_col in
      let row_in_char := Z.rem y 8 in
      let bitmap_offset := char_offset * 8 + row_in_char in
      let! bitmap_byte := deref bitmap bitmap_offset in
      let pixel_pair := Z.rem x 8 ÷ 2 in
      let shift := 6 - pixel_pair * 2 in
      let color_selector := Z.land (Z.shiftr (u8 bitmap_byte) shift) 0x03 in
      let! color_index :=
        match color_selector with
        | 0 => Ok (Z.land (u8 background) 0x0f)
        | 1 => let! b := deref screen_ram char_offset in
               Ok (Z.land (Z.shiftr (u8 b) 4) 0x0f)
        | 2 => let! b := deref screen_ram char_offset in
               Ok (Z.land (u8 b) 0x0f)
        | 3 => let! b := deref color_ram char_offset in
               Ok (Z.land (u8 b) 0x0f)
        | _ => Ok 0
        end in
      write_rgb_pixel surf x y (PALETTE color_index)) surf) surf.

(** The per-byte identity behind [blend_rgb], as a decidable check. *)
Definition byte_average_ok (x y : Z) : bool :=
  Z.land x y + Z.shiftr (Z.lxor x y) 1 =? (x + y) / 2.

End c64.

(* ===================================================================== *)
(** ** codecs/koala.cpp *)
(* ===================================================================== *)

Module koala.
Import c64.

Definition KOALA_SIZE_WITH_ADDR : Z := 10003.
Definition KOALA_SIZE_WITHOUT_ADDR : Z := 10001.
Definition KOALA_SIZE_OCP : Z := 10018.

Definition GG_RLE_ESCAPE : Z := 0xfe.

Definition MAX_COMPRESSION_RATIO : Z := 1000.

(** The [while] loop of [decompress_gg].  Every iteration consumes at
    least one input byte, so [fuel = data.size()] iterations suffice. *)
Fixpoint decompress_gg_loop (fuel : nat) (data : list byte) (output_size : Z)
    (pos : Z) (output : list byte) : checked (bool * list byte) :=
  if (len output <? output_size) && (pos <? len data) then
    match fuel with
    | O => OutOfFuel
    | S fuel =>
        let! byte := rd data pos in
        let pos := pos + 1 in
        if u8 byte =? GG_RLE_ESCAPE then
          if pos + 1 >=? len data then Ok (false, output)
          else
            let! value := rd data pos in
            let pos := pos + 1 in
            let! count := rd data pos in
            let pos := pos + 1 in
            let remaining := output_size - len output in
            let to_write := Z.min (u8 count) remaining in
            decompress_gg_loop fuel data output_size pos
              (output ++ replicate (Z.to_nat to_write) value)
        else
          decompress_gg_loop fuel data output_size pos (output ++ [byte])
    end
  else Ok (len output =? output_size, output).

(** [decompress_gg data offset output output_size]: the result pairs the
    returned flag with the final contents of the [output] vector. *)
Definition decompress_gg (data : list byte) (offset : Z) (output : list byte)
    (output_size : Z) : checked (bool * list byte) :=
  if output_size >? wrap64 (len data * MAX_COMPRESSION_RATIO) then
    Ok (false, output)
  else
    decompress_gg_loop (length data) data output_size offset [].

Definition is_uncompressed_koala (data : list byte) : bool :=
  (len data =? KOALA_SIZE_WITHOUT_ADDR)
  || (len data =? KOALA_SIZE_WITH_ADDR)
  || (len data =? 10006)
  || (len data =? KOALA_SIZE_OCP).

(** The scan for an escape byte from index 2 on. *)
Definition has_gg_escape (data : list byte) : bool :=
  existsb (fun b => u8 b =? GG_RLE_ESCAPE) (drop 2 data).

Definition is_gg_koala (data : list byte) : bool :=
  if (len data <? 100) || (len data >=? KOALA_SIZE_WITHOUT_ADDR) then false
  else if len data >=? 2 then
    match data with
    | d0 :: d1 :: _ =>
        let load_addr := Z.lor (u8 d0) (Z.shiftl (u8 d1) 8) in
        if negb (load_addr =? 0x6000) && negb (load_addr =? 0x4000)
           && negb (load_addr =? 0x2000) && negb (load_addr =? 0x5c00)
        then false
        else has_gg_escape data
    | _ => false
    end
  else false.

Definition sniff (data : list byte) : bool :=
  if is_uncompressed_koala data then true
  else if is_gg_koala data then true
  else false.

(** The payload of an uncompressed file: the bytes after the two-byte
    load address, which only the 10001-byte variant lacks. *)
Definition uncompressed_payload (data : list byte) : list byte :=
  if len data =? KOALA_SIZE_WITHOUT_ADDR then data else drop 2 data.

(** What the format selection of [decode] leaves in its local variables. *)
Record layout := {
  source_data : list byte;
  decompressed : list byte;
  bitmap_offset : Z;
  screen_offset : Z;
  color_offset : Z;
  background_offset : Z
}.

Definition select_layout (data : list byte) : checked (decode_result + layout) :=
  if is_gg_koala data then
    let! (ok, decompressed) :=
      decompress_gg data 2 [] KOALA_SIZE_WITHOUT_ADDR in
    if negb ok then
      Ok (inl (failure truncated_data "Failed to decompress GG Koala data"))
    else
      Ok (inr {| source_data := decompressed;
                 decompressed := decompressed;
                 bitmap_offset := 0;
                 screen_offset := BITMAP_SIZE;
                 color_offset := BITMAP_SIZE + SCREEN_RAM_SIZE;
                 background_offset :=
                   BITMAP_SIZE + SCREEN_RAM_SIZE + COLOR_RAM_SIZE |})
  else if len data =? KOALA_SIZE_WITHOUT_ADDR then
    Ok (inr {| source_data := data;
               decompressed := [];
               bitmap_offset := 0;
               screen_offset := BITMAP_SIZE;
               color_offset := BITMAP_SIZE + SCREEN_RAM_SIZE;
               background_offset :=
                 BITMAP_SIZE + SCREEN_RAM_SIZE + COLOR_RAM_SIZE |})
  else if (len data =? KOALA_SIZE_WITH_ADDR) || (len data =? 10006) then
    Ok (inr {| source_data := data;
               decompressed := [];
               bitmap_offset := 2;
               screen_offset := 2 + BITMAP_SIZE;
               color_offset := 2 + BITMAP_SIZE + SCREEN_RAM_SIZE;
               background_offset :=
                 2 + BITMAP_SIZE + SCREEN_RAM_SIZE + COLOR_RAM_SIZE |})
  else if len data =? KOALA_SIZE_OCP then
    let color_offset := 2 + BITMAP_SIZE + 8 + SCREEN_RAM_SIZE in
    Ok (inr {| source_data := data;
               decompressed := [];
               bitmap_offset := 2;
               screen_offset := 2 + BITMAP_SIZE;
               color_offset := color_offset;
               background_offset := color_offset - 1 |})
  else
    Ok (inl (failure invalid_format "Unrecognized Koala file size")).

Definition decode {Surf : Type} `{!surface Surf}
    (data : list byte) (surf : Surf) (options : decode_options)
  : checked (decode_result * Surf) :=
  if len data =? 0 then
    Ok (failure truncated_data "Koala file is empty", surf)
  else
    let! sel := select_layout data in
    match sel with
    | inl result => Ok (result, surf)
    | inr l =>
        let available_size :=
          if len (decompressed l) =? 0 then len data
          else len (decompressed l) in
        let required_size := background_offset l + 1 in
        if available_size <? required_size then
          Ok (failure truncated_data
                "Koala data truncated: incomplete image data", surf)
        else
          let max_w := if max_width options >? 0 then max_width options
                       else 16384 in
          let max_h := if max_height options >? 0 then max_height options
                       else 16384 in
          if (MULTICOLOR_WIDTH >? max_w) || (MULTICOLOR_HEIGHT >? max_h) then
            Ok (failure dimensions_exceeded "Image dimensions exceed limits",
                surf)
          else
            let '(allocated, surf) :=
              set_size MULTICOLOR_WIDTH MULTICOLOR_HEIGHT rgb888 surf in
            if negb allocated then
              Ok (failure internal_error "Failed to allocate surface", surf)
            else
              let bitmap :=
                {| base := source_data l; off := bitmap_offset l |} in
              let screen_ram :=
                {| base := source_data l; off := screen_offset l |} in
              let color_ram :=
                {| base := source_data l; off := color_offset l |} in
              let! background := rd (source_data l) (background_offset l) in
              let! surf :=
                decode_multicolor bitmap screen_ram color_ram background surf in
              Ok (success, surf)
    end.

(** The part of [decode] that follows the format selection, named so
    that it can be reasoned about on its own; [decode] unfolds to it. *)
Definition decode_layout {Surf : Type} `{!surface Surf}
    (available_size : Z) (l : layout) (surf : Surf) (options : decode_options)
  : checked (decode_result * Surf) :=
  if available_size <? background_offset l + 1 then
    Ok (failure truncated_data
          "Koala data truncated: incomplete image data", surf)
  else
    let max_w := if max_width options >? 0 then max_width options
                 else 16384 in
    let max_h := if max_height options >? 0 then max_height options
                 else 16384 in
    if (MULTICOLOR_WIDTH >? max_w) || (MULTICOLOR_HEIGHT >? max_h) then
      Ok (failure dimensions_exceeded "Image dimensions exceed limits", surf)
    else
      let '(allocated, surf) :=
        set_size MULTICOLOR_WIDTH MULTICOLOR_HEIGHT rgb888 surf in
      if negb allocated then
        Ok (failure internal_error "Failed to allocate surface", surf)
      else
        let! background := rd (source_data l) (background_offset l) in
        let! surf :=
          decode_multicolor
            {| base := source_data l; off := bitmap_offset l |}
            {| base := source_data l; off := screen_offset l |}
            {| base := source_data l; off := color_offset l |}
            background surf in
        Ok (success, surf).

(** The layouts [select_layout] produces. *)
Definition plain_layout (data : list byte) (skip : Z) : layout :=
  {| source_data := data; decompressed := [];
     bitmap_offset := skip;
     screen_offset := skip + BITMAP_SIZE;
     color_offset := skip + BITMAP_SIZE + SCREEN_RAM_SIZE;
     background_offset := skip + BITMAP_SIZE + SCREEN_RAM_SIZE + COLOR_RAM_SIZE |}.

Definition gg_layout (payload : list byte) : layout :=
  {| source_data := payload; decompressed := payload;
     bitmap_offset := 0;
     screen_offset := BITMAP_SIZE;
     color_offset := BITMAP_SIZE + SCREEN_RAM_SIZE;
     background_offset := BITMAP_SIZE + SCREEN_RAM_SIZE + COLOR_RAM_SIZE |}.

(** A 122-byte GG stream (forty runs of the byte [01]) and the 10003-byte
    uncompressed file with the same payload. *)
Definition gg_example : list byte :=
  [x00; x60] ++ mjoin (replicate 39 [xfe; x01; xff]) ++ [xfe; x01; x38].

Definition koa_example : list byte :=
  [x00; x60] ++ replicate (Z.to_nat 10001) x01.

(** The GG stream of [gg_example] under the load address 0x0801, which is
    not one of the four [is_gg_koala] knows. *)
Definition gg_unrecognised_example : list byte :=
  [x01; x08] ++ mjoin (replicate 39 [xfe; x01; xff]) ++ [xfe; x01; x38].

(** The four regions a layout designates lie inside its source buffer. *)
Definition layout_in_bounds (l : layout) : Prop :=
  0 <= bitmap_offset l
  /\ bitmap_offset l + BITMAP_SIZE <= len (source_data l)
  /\ 0 <= screen_offset l
  /\ screen_offset l + SCREEN_RAM_SIZE <= len (source_data l)
  /\ 0 <= color_offset l
  /\ color_offset l + COLOR_RAM_SIZE <= len (source_data l)
  /\ 0 <= background_offset l < len (source_data l).

End koala.

(* ===================================================================== *)
(** ** codecs/drazlace.cpp *)
(* ===================================================================== *)

Module drazlace.
Import c64.

Definition DRAZLACE_UNPACKED_SIZE : Z := 18242.
Definition MAX_COMPRESSION_RATIO : Z := 1000.

Definition DRAZLACE_SIGNATURE : list byte :=
  list_byte_of_string "DRAZLACE! 1.0".
Definition DRAZLACE_SIGNATURE_LEN : Z := 13.

Definition COLOR_OFFSET : Z := 2.
Definition VIDEO_MATRIX_OFFSET : Z := 0x402.
Definition BITMAP1_OFFSET : Z := 0x802.
Definition BITMAP2_OFFSET : Z := 0x2802.
Definition BACKGROUND_OFFSET : Z := 0x2742.
Definition SHIFT_OFFSET : Z := 0x2744.

(** [output[out_pos++] = value], [to_write] times. *)
Fixpoint fill (output : list byte) (out_pos : Z) (to_write : nat)
    (value : byte) : checked (list byte * Z) :=
  match to_write with
  | O => Ok (output, out_pos)
  | S n =>
      let! output := wr output out_pos value in
      fill output (out_pos + 1) n value
  end.

(** The [while] loop of [decompress_drp]; [fuel = data.size()] suffices
    because every iteration consumes at least one input byte. *)
Fixpoint decompress_drp_loop (fuel : nat) (data : list byte) (escape : byte)
    (output_size : Z) (in_pos out_pos : Z) (output : list byte)
  : checked (bool * list byte) :=
  if (out_pos <? output_size) && (in_pos <? len data) then
    match fuel with
    | O => OutOfFuel
    | S fuel =>
        let! byte := rd data in_pos in
        let in_pos := in_pos + 1 in
        if u8 byte =? u8 escape then
          if in_pos >=? len data then Ok (false, output)
          else
            let! count := rd data in_pos in
            let in_pos := in_pos + 1 in
            if in_pos >=? len data then Ok (false, output)
            else
              let! value := rd data in_pos in
              let in_pos := in_pos + 1 in
              let remaining := output_size - out_pos in
              let to_write := Z.min (u8 count) remaining in
              let! (output, out_pos) :=
                fill output out_pos (Z.to_nat to_write) value in
              decompress_drp_loop fuel data escape output_size
                in_pos out_pos output
        else
          let! output := wr output out_pos byte in
          decompress_drp_loop fuel data escape output_size
            in_pos (out_pos + 1) output
    end
  else Ok (out_pos =? output_size, output).

(** [decompress_drp data output output_size]: the result pairs the
    returned flag with the final contents of the [output] vector. *)
Definition decompress_drp (data : list byte) (output : list byte)
    (output_size : Z) : checked (bool * list byte) :=
  if len data <? 17 then Ok (false, output)
  else if output_size >? wrap64 (len data * MAX_COMPRESSION_RATIO) then
    Ok (false, output)
  else
    let! escape := rd data 15 in
    let output := replicate (Z.to_nat output_size) x00 in
    let! d0 := rd data 0 in
    let! output := wr output 0 d0 in
    let! d1 := rd data 1 in
    let! output := wr output 1 d1 in
    decompress_drp_loop (length data) data escape output_size 16 2 output.

Definition get_c64_multicolor (content : list byte)
    (bitmap_offset video_matrix_offset color_offset : Z) (background : byte)
    (x y left_skip : Z) : checked Z :=
  let x := x + left_skip in
  if x <? 0 then Ok (u8 background)
  else
    let char_offset := (y ÷ 8) * 40 + x ÷ 8 in
    let row_in_char := Z.rem y 8 in
    let bit_shift := 6 - (Z.rem x 8 ÷ 2) * 2 in
    let! b := rd content (bitmap_offset + char_offset * 8 + row_in_char) in
    let color_sel := Z.land (Z.shiftr (u8 b) bit_shift) 0x03 in
    match color_sel with
    | 0 => Ok (u8 background)
    | 1 => let! v := rd content (video_matrix_offset + char_offset) in
           Ok (Z.land (Z.shiftr (u8 v) 4) 0x0f)
    | 2 => let! v := rd content (video_matrix_offset + char_offset) in
           Ok (Z.land (u8 v) 0x0f)
    | 3 => let! c := rd content (color_offset + char_offset) in
           Ok (Z.land (u8 c) 0x0f)
    | _ => Ok (u8 background)
    end.

(** The frame is filled in index order [idx = y*320 + x]; the model
    collects the 64000 values in that order. *)
Definition decode_c64_multicolor_frame (content : list byte)
    (bitmap_offset video_matrix_offset color_offset : Z) (background : byte)
    (left_skip : Z) : checked (list Z) :=
  for_each (seqZ 0 MULTICOLOR_HEIGHT) (fun y pixels =>
    for_each (seqZ 0 MULTICOLOR_WIDTH) (fun x pixels =>
      let! color_index :=
        get_c64_multicolor content bitmap_offset video_matrix_offset
          color_offset background x y left_skip in
      Ok (pixels ++ [PALETTE (Z.land color_index 0x0f)])) pixels) [].

Definition frame_at (frame : list Z) (idx : Z) : Z :=
  nth (Z.to_nat idx) frame 0.

Definition apply_blend {Surf : Type} `{!surface Surf}
    (frame1 frame2 : list Z) (surf : Surf) : checked Surf :=
  for_each (seqZ 0 MULTICOLOR_HEIGHT) (fun y surf =>
    for_each (seqZ 0 MULTICOLOR_WIDTH) (fun x surf =>
      let idx := y * MULTICOLOR_WIDTH + x in
      let blended := blend_rgb (frame_at frame1 idx) (frame_at frame2 idx) in
      write_rgb_pixel surf x y blended) surf)
    surf.

(** [std::memcmp(a, b, n) == 0] on two [n]-byte ranges. *)
Definition bytes_equal (a b : list byte) : bool :=
  Nat.eqb (length a) (length b)
  && forallb (fun p => Byte.eqb (fst p) (snd p)) (zip a b).

Definition has_drazlace_signature (data : list byte) : bool :=
  if len data <? 2 + DRAZLACE_SIGNATURE_LEN then false
  else bytes_equal (take (Z.to_nat DRAZLACE_SIGNATURE_LEN) (drop 2 data))
         DRAZLACE_SIGNATURE.

Definition sniff (data : list byte) : bool :=
  if len data =? DRAZLACE_UNPACKED_SIZE then true
  else if has_drazlace_signature data then true
  else false.

Definition select_source (data : list byte)
  : checked (decode_result + list byte) :=
  if has_drazlace_signature data then
    let! (ok, decompressed) :=
      decompress_drp data [] DRAZLACE_UNPACKED_SIZE in
    if negb ok then
      Ok (inl (failure truncated_data "Failed to decompress DrazLace data"))
    else Ok (inr decompressed)
  else if len data =? DRAZLACE_UNPACKED_SIZE then Ok (inr data)
  else Ok (inl (failure invalid_format "Unrecognized DrazLace file format")).

Definition decode {Surf : Type} `{!surface Surf}
    (data : list byte) (surf : Surf) (options : decode_options)
  : checked (decode_result * Surf) :=
  if len data =? 0 then
    Ok (failure truncated_data "DrazLace file is empty", surf)
  else
    let! sel := select_source data in
    match sel with
    | inl result => Ok (result, surf)
    | inr source_data =>
        let! shift_byte := rd source_data SHIFT_OFFSET in
        let shift := u8 shift_byte in
        if shift >? 1 then
          Ok (failure invalid_format "Invalid DrazLace shift value", surf)
        else
          let max_w := if max_width options >? 0 then max_width options
                       else 16384 in
          let max_h := if max_height options >? 0 then max_height options
                       else 16384 in
          if (MULTICOLOR_WIDTH >? max_w) || (MULTICOLOR_HEIGHT >? max_h) then
            Ok (failure dimensions_exceeded "Image dimensions exceed limits",
                surf)
          else
            let '(allocated, surf) :=
              set_size MULTICOLOR_WIDTH MULTICOLOR_HEIGHT rgb888 surf in
            if negb allocated then
              Ok (failure internal_error "Failed to allocate surface", surf)
            else
              let! background := rd source_data BACKGROUND_OFFSET in
              let! frame1 :=
                decode_c64_multicolor_frame source_data BITMAP1_OFFSET
                  VIDEO_MATRIX_OFFSET COLOR_OFFSET background 0 in
              let! frame2 :=
                decode_c64_multicolor_frame source_data BITMAP2_OFFSET
                  VIDEO_MATRIX_OFFSET COLOR_OFFSET background (- shift) in
              let! surf := apply_blend frame1 frame2 surf in
              Ok (success, surf)
    end.

End drazlace.

(* ===================================================================== *)
(** ** codecs/qoi.cpp *)
(* ===================================================================== *)

Module qoi.

Definition QOI_MAGIC : Z := 0x716F6966.
Definition QOI_HEADER_SIZE : Z := 14.
Definition QOI_END_MARKER_SIZE : Z := 8.

Definition QOI_OP_INDEX : Z := 0x00.
Definition QOI_OP_DIFF : Z := 0x40.
Definition QOI_OP_LUMA : Z := 0x80.
Definition QOI_OP_RUN : Z := 0xC0.
Definition QOI_OP_RGB : Z := 0xFE.
Definition QOI_OP_RGBA : Z := 0xFF.
Definition QOI_MASK_2 : Z := 0xC0.

Definition MAX_PIXELS : Z := 400000000.

Record rgba_t := { r : byte; g : byte; b : byte; a : byte }.

Definition qoi_color_hash (r g b a : byte) : Z :=
  (u8 r * 3 + u8 g * 5 + u8 b * 7 + u8 a * 11) mod 64.

Definition sniff (data : list byte) : checked bool :=
  if len data <? QOI_HEADER_SIZE then Ok false
  else
    let! magic := read_be32 {| base := data; off := 0 |} in
    if negb (magic =? QOI_MAGIC) then Ok false
    else
      let! width := read_be32 {| base := data; off := 4 |} in
      let! height := read_be32 {| base := data; off := 8 |} in
      if (width =? 0) || (height =? 0) then Ok false
      else
        let! channels := rd data 12 in
        if negb (u8 channels =? 3) && negb (u8 channels =? 4) then Ok false
        else
          let! colorspace := rd data 13 in
          if u8 colorspace >? 1 then Ok false
          else Ok true.

(** The local variables of the pixel loop.  [pixels] is the part of the
    output buffer written so far ([dst_pos] is its length). *)
Record state := {
  index : list rgba_t;
  px : rgba_t;
  src_pos : Z;
  run : Z;
  pixels : list byte
}.

Definition zero_px : rgba_t := {| r := x00; g := x00; b := x00; a := x00 |}.

Definition initial_state : state :=
  {| index := replicate 64 zero_px;
     px := {| r := x00; g := x00; b := x00; a := xff |};
     src_pos := QOI_HEADER_SIZE;
     run := 0;
     pixels := [] |}.

(** The chunk decoding of one loop iteration, entered when [run <= 0] and
    [src_pos < src_end]: the failure it returns, or the new [px],
    [src_pos] and [run]. *)
Definition read_chunk (data : list byte) (src_end : Z) (st : state)
  : checked (decode_result + rgba_t * Z * Z) :=
  let px := px st in
  let! b1_byte := rd data (src_pos st) in
  let b1 := u8 b1_byte in
  let src_pos := src_pos st + 1 in
  if b1 =? QOI_OP_RGB then
    if src_pos + 3 >? src_end then
      Ok (inl (failure truncated_data "QOI RGB chunk truncated"))
    else
      let! r := rd data src_pos in
      let! g := rd data (src_pos + 1) in
      let! b := rd data (src_pos + 2) in
      Ok (inr ({| r := r; g := g; b := b; a := a px |}, src_pos + 3, run st))
  else if b1 =? QOI_OP_RGBA then
    if src_pos + 4 >? src_end then
      Ok (inl (failure truncated_data "QOI RGBA chunk truncated"))
    else
      let! r := rd data src_pos in
      let! g := rd data (src_pos + 1) in
      let! b := rd data (src_pos + 2) in
      let! a := rd data (src_pos + 3) in
      Ok (inr ({| r := r; g := g; b := b; a := a |}, src_pos + 4, run st))
  else if Z.land b1 QOI_MASK_2 =? QOI_OP_INDEX then
    Ok (inr (nth (Z.to_nat b1) (index st) zero_px, src_pos, run st))
  else if Z.land b1 QOI_MASK_2 =? QOI_OP_DIFF then
    Ok (inr ({| r := to_u8 (u8 (r px) + (Z.land (Z.shiftr b1 4) 0x03 - 2));
                g := to_u8 (u8 (g px) + (Z.land (Z.shiftr b1 2) 0x03 - 2));
                b := to_u8 (u8 (b px) + (Z.land b1 0x03 - 2));
                a := a px |}, src_pos, run st))
  else if Z.land b1 QOI_MASK_2 =? QOI_OP_LUMA then
    if src_pos >=? src_end then
      Ok (inl (failure truncated_data "QOI LUMA chunk truncated"))
    else
      let! b2_byte := rd data src_pos in
      let b2 := u8 b2_byte in
      let vg := Z.land b1 0x3F - 32 in
      Ok (inr ({| r := to_u8 (u8 (r px)
                              + (vg - 8 + Z.land (Z.shiftr b2 4) 0x0F));
                  g := to_u8 (u8 (g px) + vg);
                  b := to_u8 (u8 (b px) + (vg - 8 + Z.land b2 0x0F));
                  a := a px |}, src_pos + 1, run st))
  else if Z.land b1 QOI_MASK_2 =? QOI_OP_RUN then
    Ok (inr (px, src_pos, Z.land b1 0x3F))
  else Ok (inr (px, src_pos, run st)).

(** The bytes one pixel contributes to the output buffer. *)
Definition pixel_bytes (channels : Z) (px : rgba_t) : list byte :=
  if channels =? 4 then [r px; g px; b px; a px] else [r px; g px; b px].

(** The [for] loop over [px_idx], with [n] iterations left. *)
Fixpoint decode_pixels (n : nat) (data : list byte) (src_end channels : Z)
    (st : state) : checked (decode_result + state) :=
  match n with
  | O => Ok (inr st)
  | S n =>
      let! step :=
        if run st >? 0 then
          Ok (inr {| index := index st; px := px st; src_pos := src_pos st;
                     run := run st - 1; pixels := pixels st |})
        else if src_pos st <? src_end then
          let! chunk := read_chunk data src_end st in
          match chunk with
          | inl result => Ok (inl result)
          | inr (px, src_pos, run) =>
              Ok (inr {| index :=
                           <[Z.to_nat (qoi_color_hash (r px) (g px) (b px)
                                         (a px)) := px]> (index st);
                         px := px; src_pos := src_pos; run := run;
                         pixels := pixels st |})
          end
        else Ok (inr st) in
      match step with
      | inl result => Ok (inl result)
      | inr st =>
          decode_pixels n data src_end channels
            {| index := index st; px := px st; src_pos := src_pos st;
               run := run st;
               pixels := pixels st ++ pixel_bytes channels (px st) |}
      end
  end.

Definition decode {Surf : Type} `{!surface Surf}
    (data : list byte) (surf : Surf) (options : decode_options)
  : checked (decode_result * Surf) :=
  if len data <? QOI_HEADER_SIZE + QOI_END_MARKER_SIZE then
    Ok (failure truncated_data "QOI file too small", surf)
  else
    let! magic := read_be32 {| base := data; off := 0 |} in
    if negb (magic =? QOI_MAGIC) then
      Ok (failure invalid_format "Invalid QOI magic", surf)
    else
      let! width := read_be32 {| base := data; off := 4 |} in
      let! height := read_be32 {| base := data; off := 8 |} in
      let! channels_byte := rd data 12 in
      let channels := u8 channels_byte in
      if (width =? 0) || (height =? 0) then
        Ok (failure invalid_format "Invalid QOI dimensions", surf)
      else if negb (channels =? 3) && negb (channels =? 4) then
        Ok (failure invalid_format "Invalid QOI channel count", surf)
      else
        let result :=
          validate_dimensions (to_int32 width) (to_int32 height) options
            DEFAULT_MAX_DIMENSION in
        if negb (ok result) then Ok (result, surf)
        else
          let total_pixels := width * height in
          if total_pixels >? MAX_PIXELS then
            Ok (failure dimensions_exceeded "QOI image too large", surf)
          else
            let fmt := if channels =? 4 then rgba8888 else rgb888 in
            let '(allocated, surf) :=
              set_size (to_int32 width) (to_int32 height) fmt surf in
            if negb allocated then
              Ok (failure internal_error "Failed to allocate surface", surf)
            else
              let pixel_count := width * height in
              let src_end := len data - QOI_END_MARKER_SIZE in
              let! loop :=
                decode_pixels (Z.to_nat pixel_count) data src_end channels
                  initial_state in
              match loop with
              | inl result => Ok (result, surf)
              | inr st =>
                  let! surf :=
                    write_rows surf (pixels st) (width * channels)
                      (to_int32 height) in
                  Ok (success, surf)
              end.

(** The header checks of [decode], named so that they can be reasoned
    about on their own: the failure they end in, or the width, height
    and channel count they accept.  [decode] unfolds to [parse_header]
    followed by [decode_body]. *)
Definition parse_header (data : list byte) (options : decode_options)
  : checked (decode_result + Z * Z * Z) :=
  if len data <? QOI_HEADER_SIZE + QOI_END_MARKER_SIZE then
    Ok (inl (failure truncated_data "QOI file too small"))
  else
    let! magic := read_be32 {| base := data; off := 0 |} in
    if negb (magic =? QOI_MAGIC) then
      Ok (inl (failure invalid_format "Invalid QOI magic"))
    else
      let! width := read_be32 {| base := data; off := 4 |} in
      let! height := read_be32 {| base := data; off := 8 |} in
      let! channels_byte := rd data 12 in
      let channels := u8 channels_byte in
      if (width =? 0) || (height =? 0) then
        Ok (inl (failure invalid_format "Invalid QOI dimensions"))
      else if negb (channels =? 3) && negb (channels =? 4) then
        Ok (inl (failure invalid_format "Invalid QOI channel count"))
      else
        let result :=
          validate_dimensions (to_int32 width) (to_int32 height) options
            DEFAULT_MAX_DIMENSION in
        if negb (ok result) then Ok (inl result)
        else if width * height >? MAX_PIXELS then
          Ok (inl (failure dimensions_exceeded "QOI image too large"))
        else Ok (inr (width, height, channels)).

Definition decode_body {Surf : Type} `{!surface Surf}
    (data : list byte) (surf : Surf) (width height channels : Z)
  : checked (decode_result * Surf) :=
  let fmt := if channels =? 4 then rgba8888 else rgb888 in
  let '(allocated, surf) :=
    set_size (to_int32 width) (to_int32 height) fmt surf in
  if negb allocated then
    Ok (failure internal_error "Failed to allocate surface", surf)
  else
    let! loop :=
      decode_pixels (Z.to_nat (width * height)) data
        (len data - QOI_END_MARKER_SIZE) channels initial_state in
    match loop with
    | inl result => Ok (result, surf)
    | inr st =>
        let! surf :=
          write_rows surf (pixels st) (width * channels) (to_int32 height) in
        Ok (success, surf)
    end.

(** A QOI file: the 14-byte header, the chunk stream and the 8-byte end
    marker. *)
Definition be32_bytes (v : Z) : list byte :=
  [to_u8 (Z.shiftr v 24); to_u8 (Z.shiftr v 16); to_u8 (Z.shiftr v 8);
   to_u8 v].

Definition file (width height : Z) (channels colorspace : byte)
    (chunks end_marker : list byte) : list byte :=
  [x71; x6f; x69; x66] ++ be32_bytes width ++ be32_bytes height
    ++ [channels; colorspace] ++ chunks ++ end_marker.

(** A 2x2 RGB image: an RGB chunk, a run of two more pixels and a DIFF
    chunk. *)
Definition rgb_example : list byte :=
  file 2 2 x03 x00 [xfe; x10; x20; x30; xc1; x79]
    [x00; x00; x00; x00; x00; x00; x00; x01].

(** The same header followed by the RGB chunk only, and by nothing. *)
Definition short_example : list byte :=
  file 2 2 x03 x00 [xfe; x10; x20; x30] (replicate 8 x00).


End qoi.

(* ===================================================================== *)
(** ** codecs/png.cpp *)
(* ===================================================================== *)

Module png.

Definition PNG_SIGNATURE : list byte :=
  [x89; x50; x4e; x47; x0d; x0a; x1a; x0a].
Definition PNG_SIGNATURE_SIZE : Z := 8.
Definition PNG_IHDR_LENGTH_OFFSET : Z := 8.
Definition PNG_IHDR_TYPE_OFFSET : Z := 12.
Definition PNG_IHDR_WIDTH_OFFSET : Z := 16.
Definition PNG_IHDR_HEIGHT_OFFSET : Z := 20.
Definition PNG_MIN_SIZE_FOR_DIMENSIONS : Z := 24.
Definition PNG_IHDR_TYPE : Z := 0x49484452.
Definition PNG_IHDR_LENGTH : Z := 13.

(** What [lodepng::decode] hands back: its error code and message, and
    on success the dimensions and the RGBA pixels. *)
Record lodepng_image := {
  lodepng_error : Z;
  lodepng_error_text : string;
  lodepng_width : Z;
  lodepng_height : Z;
  lodepng_pixels : list byte
}.

(** The signature comparison loop of [sniff]. *)
Fixpoint signature_matches (data signature : list byte) : bool :=
  match signature, data with
  | [], _ => true
  | s :: signature, d :: data =>
      if negb (u8 d =? u8 s) then false else signature_matches data signature
  | _ :: _, [] => false
  end.

Definition sniff (data : list byte) : bool :=
  if len data <? PNG_SIGNATURE_SIZE then false
  else signature_matches data PNG_SIGNATURE.

Section with_lodepng.

(** [lodepng] is a third-party library: its decoder and encoder are
    parameters of the model. *)
Variable lodepng_decode : list byte -> lodepng_image.
Variable lodepng_encode : list byte -> Z -> Z -> Z * list byte.

(** The IHDR pre-check of [decode]: the failure it returns, if any. *)
Definition ihdr_precheck (data : list byte) (options : decode_options)
  : checked (option decode_result) :=
  if len data >=? PNG_MIN_SIZE_FOR_DIMENSIONS then
    let! ihdr_length :=
      read_be32 {| base := data; off := PNG_IHDR_LENGTH_OFFSET |} in
    let! ihdr_type :=
      read_be32 {| base := data; off := PNG_IHDR_TYPE_OFFSET |} in
    if (ihdr_length =? PNG_IHDR_LENGTH) && (ihdr_type =? PNG_IHDR_TYPE) then
      let! ihdr_width :=
        read_be32 {| base := data; off := PNG_IHDR_WIDTH_OFFSET |} in
      let! ihdr_height :=
        read_be32 {| base := data; off := PNG_IHDR_HEIGHT_OFFSET |} in
      if (ihdr_width >? INT_MAX) || (ihdr_height >? INT_MAX) then
        Ok (Some (failure dimensions_exceeded
                    "PNG dimensions exceed maximum supported size"))
      else
        let result :=
          validate_dimensions (to_int32 ihdr_width) (to_int32 ihdr_height)
            options DEFAULT_MAX_DIMENSION in
        if negb (ok result) then Ok (Some result) else Ok None
    else Ok None
  else Ok None.

Definition decode {Surf : Type} `{!surface Surf}
    (data : list byte) (surf : Surf) (options : decode_options)
  : checked (decode_result * Surf) :=
  if negb (sniff data) then
    Ok (failure invalid_format "Not a valid PNG file", surf)
  else
    let! pre := ihdr_precheck data options in
    match pre with
    | Some result => Ok (result, surf)
    | None =>
        let img := lodepng_decode data in
        if negb (lodepng_error img =? 0) then
          Ok (failure invalid_format
                (String.append "PNG decode error: "
                   (lodepng_error_text img)), surf)
        else
          let width := lodepng_width img in
          let height := lodepng_height img in
          if (width >? INT_MAX) || (height >? INT_MAX) then
            Ok (failure dimensions_exceeded
                  "PNG dimensions exceed maximum supported size", surf)
          else
            let result :=
              validate_dimensions (to_int32 width) (to_int32 height) options
                DEFAULT_MAX_DIMENSION in
            if negb (ok result) then Ok (result, surf)
            else
              let '(allocated, surf) :=
                set_size (to_int32 width) (to_int32 height) rgba8888 surf in
              if negb allocated then
                Ok (failure internal_error "Failed to allocate surface", surf)
              else
                let! surf :=
                  write_rows surf (lodepng_pixels img) (wrap32 (width * 4))
                    (to_int32 height) in
                Ok (success, surf)
    end.

(** The RGBA conversion of [encode_png].  [w] and [h] are [unsigned]:
    [w * h], [w * h * 4], [i * 3] and [i * 4] are computed modulo 2^32. *)
Definition rgb_to_rgba (src : list byte) (w h : Z) : checked (list byte) :=
  let rgba_pixels := replicate (Z.to_nat (wrap32 (wrap32 (w * h) * 4))) x00 in
  for_each (seqZ 0 (wrap32 (w * h))) (fun i dst =>
    let! s0 := rd src (wrap32 (wrap32 (i * 3) + 0)) in
    let! dst := wr dst (wrap32 (wrap32 (i * 4) + 0)) s0 in
    let! s1 := rd src (wrap32 (wrap32 (i * 3) + 1)) in
    let! dst := wr dst (wrap32 (wrap32 (i * 4) + 1)) s1 in
    let! s2 := rd src (wrap32 (wrap32 (i * 3) + 2)) in
    let! dst := wr dst (wrap32 (wrap32 (i * 4) + 2)) s2 in
    wr dst (wrap32 (wrap32 (i * 4) + 3)) xff) rgba_pixels.

Definition indexed_to_rgba (indices palette : list byte) (w h : Z)
  : checked (list byte) :=
  let rgba_pixels := replicate (Z.to_nat (wrap32 (wrap32 (w * h) * 4))) x00 in
  for_each (seqZ 0 (wrap32 (w * h))) (fun i dst =>
    let! index := rd indices i in
    let idx := u8 index in
    let pal_offset := idx * 3 in
    let! dst :=
      if pal_offset + 2 <? len palette then
        let! p0 := rd palette (pal_offset + 0) in
        let! dst := wr dst (wrap32 (wrap32 (i * 4) + 0)) p0 in
        let! p1 := rd palette (pal_offset + 1) in
        let! dst := wr dst (wrap32 (wrap32 (i * 4) + 1)) p1 in
        let! p2 := rd palette (pal_offset + 2) in
        wr dst (wrap32 (wrap32 (i * 4) + 2)) p2
      else
        let! dst := wr dst (wrap32 (wrap32 (i * 4) + 0)) x00 in
        let! dst := wr dst (wrap32 (wrap32 (i * 4) + 1)) x00 in
        wr dst (wrap32 (wrap32 (i * 4) + 2)) x00 in
    wr dst (wrap32 (wrap32 (i * 4) + 3)) xff) rgba_pixels.

(** The buffer [encode_png] hands to [lodepng::encode]. *)
Definition to_rgba (surf : memory_surface.t) : checked (list byte) :=
  let w := wrap32 (memory_surface.width_ surf) in
  let h := wrap32 (memory_surface.height_ surf) in
  match memory_surface.format_ surf with
  | rgba8888 => Ok (memory_surface.pixels_ surf)
  | rgb888 => rgb_to_rgba (memory_surface.pixels_ surf) w h
  | indexed8 =>
      indexed_to_rgba (memory_surface.pixels_ surf)
        (memory_surface.palette_ surf) w h
  end.

Definition encode_png (surf : memory_surface.t) : checked (list byte) :=
  if (memory_surface.width_ surf <=? 0) || (memory_surface.height_ surf <=? 0)
  then Ok []
  else
    let w := wrap32 (memory_surface.width_ surf) in
    let h := wrap32 (memory_surface.height_ surf) in
    let! rgba_pixels := to_rgba surf in
    let '(error, png_data) := lodepng_encode rgba_pixels w h in
    if negb (error =? 0) then Ok [] else Ok png_data.

End with_lodepng.

(** The RGBA8888 buffer the specification asks of the encoder, in its
    own words.  An rgb888 pixel keeps its three colour bytes and gains
    alpha 255; an indexed8 pixel becomes the palette entry of its index
    with alpha 255, or opaque black when the palette holds no complete
    entry for the index. *)
Definition spec_rgba_pixel (surf : memory_surface.t) (i : Z) : list byte :=
  match memory_surface.format_ surf with
  | rgba8888 =>
      take 4 (drop (Z.to_nat (i * 4)) (memory_surface.pixels_ surf))
  | rgb888 =>
      take 3 (drop (Z.to_nat (i * 3)) (memory_surface.pixels_ surf)) ++ [xff]
  | indexed8 =>
      let index :=
        u8 (default x00 (memory_surface.pixels_ surf !! Z.to_nat i)) in
      let entry :=
        take 3 (drop (Z.to_nat (index * 3)) (memory_surface.palette_ surf)) in
      if Nat.eqb (length entry) 3 then entry ++ [xff]
      else [x00; x00; x00; xff]
  end.

(** An rgba8888 surface is copied verbatim; the other formats are
    converted pixel by pixel. *)
Definition spec_rgba (surf : memory_surface.t) : list byte :=
  match memory_surface.format_ surf with
  | rgba8888 => memory_surface.pixels_ surf
  | _ =>
      mjoin (spec_rgba_pixel surf
               <$> seqZ 0 (memory_surface.width_ surf
                           * memory_surface.height_ surf))
  end.

End png.

(* ===================================================================== *)
(** ** codecs/ico.cpp *)
(* ===================================================================== *)

Module ico.

Record ico_header := {
  reserved : Z;
  type : Z;
  count : Z
}.

Record ico_dir_entry := {
  entry_width : Z;
  entry_height : Z;
  entry_color_count : Z;
  entry_reserved : Z;
  entry_planes : Z;
  entry_bit_count : Z;
  entry_size : Z;
  entry_offset : Z
}.

Record dib_header := {
  dib_size : Z;
  dib_width : Z;
  dib_height : Z;
  dib_planes : Z;
  dib_bit_count : Z;
  dib_compression : Z;
  dib_size_image : Z;
  dib_x_pels_per_meter : Z;
  dib_y_pels_per_meter : Z;
  dib_clr_used : Z;
  dib_clr_important : Z
}.

Definition BI_RGB : Z := 0.
Definition BI_BITFIELDS : Z := 3.

(** [parse_ico_header]: the returned flag and the header it filled in
    ([None] when the data is too short to read one). *)
Definition parse_ico_header (data : list byte)
  : checked (bool * option ico_header) :=
  if len data <? 6 then Ok (false, None)
  else
    let! reserved := read_le16 {| base := data; off := 0 |} in
    let! type := read_le16 {| base := data; off := 2 |} in
    let! count := read_le16 {| base := data; off := 4 |} in
    Ok ((reserved =? 0) && ((type =? 1) || (type =? 2)),
        Some {| reserved := reserved; type := type; count := count |}).

Definition parse_ico_dir_entry (p : ptr) : checked ico_dir_entry :=
  let! width := deref p 0 in
  let! height := deref p 1 in
  let! color_count := deref p 2 in
  let! reserved := deref p 3 in
  let! planes := read_le16 (ptr_add p 4) in
  let! bit_count := read_le16 (ptr_add p 6) in
  let! size := read_le32 (ptr_add p 8) in
  let! offset := read_le32 (ptr_add p 12) in
  Ok {| entry_width := u8 width; entry_height := u8 height;
        entry_color_count := u8 color_count; entry_reserved := u8 reserved;
        entry_planes := planes; entry_bit_count := bit_count;
        entry_size := size; entry_offset := offset |}.

Definition parse_dib_header (data : list byte) : checked (option dib_header) :=
  if len data <? 40 then Ok None
  else
    let p := {| base := data; off := 0 |} in
    let! size := read_le32 p in
    if size <? 40 then Ok None
    else
      let! width := read_le32_signed (ptr_add p 4) in
      let! height := read_le32_signed (ptr_add p 8) in
      let! planes := read_le16 (ptr_add p 12) in
      let! bit_count := read_le16 (ptr_add p 14) in
      let! compression := read_le32 (ptr_add p 16) in
      let! size_image := read_le32 (ptr_add p 20) in
      let! x_pels_per_meter := read_le32_signed (ptr_add p 24) in
      let! y_pels_per_meter := read_le32_signed (ptr_add p 28) in
      let! clr_used := read_le32 (ptr_add p 32) in
      let! clr_important := read_le32 (ptr_add p 36) in
      Ok (Some {| dib_size := size; dib_width := width; dib_height := height;
                  dib_planes := planes; dib_bit_count := bit_count;
                  dib_compression := compression;
                  dib_size_image := size_image;
                  dib_x_pels_per_meter := x_pels_per_meter;
                  dib_y_pels_per_meter := y_pels_per_meter;
                  dib_clr_used := clr_used;
                  dib_clr_important := clr_important |}).

Definition get_and_mask_bit (and_mask : ptr) (width x y : Z) : checked bool :=
  let and_stride := row_stride_4byte width 1 in
  let byte_offset := y * and_stride + x ÷ 8 in
  let bit_index := 7 - Z.rem x 8 in
  let! b := deref and_mask byte_offset in
  Ok (negb (Z.land (Z.shiftr (u8 b) bit_index) 1 =? 0)).

Record decoded_icon := {
  width : Z;
  height : Z;
  pixels : list byte
}.

(** One pixel of the DIB loop: the four bytes stored at [dst_idx]. *)
Definition dib_pixel (header : dib_header) (palette_colors : Z)
    (palette_ptr src_row : ptr) (and_data : option ptr)
    (icon_width x src_y : Z) : checked (list byte) :=
  let bit_count := dib_bit_count header in
  let! (r, g, b, a) :=
    if bit_count <=? 8 then
      let! idx := extract_pixel src_row x bit_count in
      if idx <? palette_colors then
        let pal := ptr_add palette_ptr (idx * 4) in
        let! b := deref pal 0 in
        let! g := deref pal 1 in
        let! r := deref pal 2 in
        Ok (r, g, b, xff)
      else Ok (x00, x00, x00, xff)
    else if bit_count =? 16 then
      let! pixel := read_le16 (ptr_add src_row (x * 2)) in
      Ok (to_u8 (Z.shiftl (Z.land (Z.shiftr pixel 10) 0x1F) 3),
          to_u8 (Z.shiftl (Z.land (Z.shiftr pixel 5) 0x1F) 3),
          to_u8 (Z.shiftl (Z.land pixel 0x1F) 3),
          xff)
    else if bit_count =? 24 then
      let p := ptr_add src_row (x * 3) in
      let! b := deref p 0 in
      let! g := deref p 1 in
      let! r := deref p 2 in
      Ok (r, g, b, xff)
    else if bit_count =? 32 then
      let p := ptr_add src_row (x * 4) in
      let! b := deref p 0 in
      let! g := deref p 1 in
      let! r := deref p 2 in
      let! a := deref p 3 in
      Ok (r, g, b, a)
    else Ok (x00, x00, x00, xff) in
  let! a :=
    match and_data with
    | Some and_data =>
        if bit_count <? 32 then
          let! transparent := get_and_mask_bit and_data icon_width x src_y in
          if transparent then Ok x00 else Ok a
        else Ok a
    | None => Ok a
    end in
  Ok [r; g; b; a].

(** The DIB branch of [decode_icon_image].  The output is filled in
    index order, so the model collects the pixels in that order.  The
    [std::size_t] differences of the size checks wrap modulo 2^64. *)
Definition decode_dib (data : list byte) : checked (option decoded_icon) :=
  let! parsed := parse_dib_header data in
  match parsed with
  | None => Ok None
  | Some header =>
      let bit_count := dib_bit_count header in
      if negb (dib_compression header =? BI_RGB) then Ok None
      else if negb (bit_count =? 1) && negb (bit_count =? 4)
              && negb (bit_count =? 8) && negb (bit_count =? 16)
              && negb (bit_count =? 24) && negb (bit_count =? 32)
      then Ok None
      else
        let abs_height := Z.abs (dib_height header) in
        if (abs_height <? 2) || negb (Z.rem abs_height 2 =? 0) then Ok None
        else
          let icon_width := dib_width header in
          let icon_height := abs_height ÷ 2 in
          if (icon_width <=? 0) || (icon_height <=? 0)
             || (icon_width >? 256) || (icon_height >? 256)
          then Ok None
          else
            let xor_stride := row_stride_4byte icon_width bit_count in
            let and_stride := row_stride_4byte icon_width 1 in
            let xor_size := xor_stride * icon_height in
            let and_size := and_stride * icon_height in
            let max_palette_colors :=
              if bit_count <=? 8 then wrap32 (Z.shiftl 1 bit_count) else 0 in
            let palette_colors :=
              if dib_clr_used header =? 0 then max_palette_colors
              else if (max_palette_colors >? 0)
                      && (dib_clr_used header >? max_palette_colors)
              then max_palette_colors
              else dib_clr_used header in
            let palette_size := palette_colors * 4 in
            if dib_size header >? len data then Ok None
            else
              let header_and_palette := dib_size header + palette_size in
              if header_and_palette <? dib_size header then Ok None
              else
                let! and_size :=
                  if (header_and_palette >? wrap64 (len data - xor_size))
                     || ((and_size >? 0)
                         && (header_and_palette + xor_size
                             >? wrap64 (len data - and_size)))
                  then
                    if (header_and_palette >? len data)
                       || (xor_size >? wrap64 (len data - header_and_palette))
                    then Ok None
                    else Ok (Some 0)
                  else Ok (Some and_size) in
                match and_size with
                | None => Ok None
                | Some and_size =>
                    let palette_ptr :=
                      {| base := data; off := dib_size header |} in
                    let xor_data :=
                      {| base := data; off := header_and_palette |} in
                    let and_data :=
                      if and_size >? 0 then Some (ptr_add xor_data xor_size)
                      else None in
                    let! pixels :=
                      for_each (seqZ 0 icon_height) (fun y pixels =>
                        let src_y := icon_height - 1 - y in
                        let src_row := ptr_add xor_data (src_y * xor_stride) in
                        for_each (seqZ 0 icon_width) (fun x pixels =>
                          let! rgba :=
                            dib_pixel header palette_colors palette_ptr
                              src_row and_data icon_width x src_y in
                          Ok (pixels ++ rgba)) pixels) [] in
                    Ok (Some {| width := icon_width; height := icon_height;
                                pixels := pixels |})
                end
  end.

Section with_lodepng.

Variable lodepng_decode : list byte -> png.lodepng_image.

(** The RGB branch of the PNG path (the PNG decoder itself always
    produces RGBA). *)
Definition rgb_to_rgba (src : list byte) (width height : Z)
  : checked (list byte) :=
  for_each (seqZ 0 height) (fun y pixels =>
    for_each (seqZ 0 width) (fun x pixels =>
      let src_idx := (y * width + x) * 3 in
      let! s0 := rd src (src_idx + 0) in
      let! s1 := rd src (src_idx + 1) in
      let! s2 := rd src (src_idx + 2) in
      Ok (pixels ++ [s0; s1; s2; xff])) pixels) [].

(** [std::memcpy(dst, src, n)] into a fresh [n]-byte vector. *)
Definition copy_bytes (src : list byte) (n : Z) : checked (list byte) :=
  if n <=? len src then Ok (take (Z.to_nat n) src) else OutOfBounds.

Definition decode_icon_image (data : list byte) (max_w max_h : Z)
  : checked (option decoded_icon) :=
  if len data <? 8 then Ok None
  else
    let! d0 := rd data 0 in
    let! d1 := rd data 1 in
    let! d2 := rd data 2 in
    let! d3 := rd data 3 in
    if (len data >=? 8) && (u8 d0 =? 0x89) && (u8 d1 =? 0x50)
       && (u8 d2 =? 0x4e) && (u8 d3 =? 0x47)
    then
      let png_opts := {| max_width := max_w; max_height := max_h |} in
      let! (result, temp) :=
        png.decode lodepng_decode data memory_surface.empty png_opts in
      if negb (ok result) then Ok None
      else
        let icon_width := memory_surface.width_ temp in
        let icon_height := memory_surface.height_ temp in
        let src := memory_surface.pixels_ temp in
        match memory_surface.format_ temp with
        | rgba8888 =>
            let! pixels := copy_bytes src (icon_width * icon_height * 4) in
            Ok (Some {| width := icon_width; height := icon_height;
                        pixels := pixels |})
        | rgb888 =>
            let! pixels := rgb_to_rgba src icon_width icon_height in
            Ok (Some {| width := icon_width; height := icon_height;
                        pixels := pixels |})
        | indexed8 => Ok None
        end
    else decode_dib data.

(** The size loop of [create_icon_atlas]: [None] when the running height
    passes [max_h], otherwise the final width and height.  Both are
    [std::size_t], and the icon dimensions and [max_h] are cast to
    [std::size_t] where they meet them. *)
Fixpoint atlas_size (icons : list decoded_icon) (max_h : Z)
    (atlas_width atlas_height : Z) : option (Z * Z) :=
  match icons with
  | [] => Some (atlas_width, atlas_height)
  | icon :: icons =>
      let atlas_width := Z.max atlas_width (size_t_of_int (width icon)) in
      let atlas_height :=
        wrap64 (atlas_height + size_t_of_int (height icon)) in
      if atlas_height >? size_t_of_int max_h then None
      else atlas_size icons max_h atlas_width atlas_height
  end.

(** The copy loop of [create_icon_atlas], from icon number [i] on. *)
Fixpoint copy_icons {Surf : Type} `{!surface Surf}
    (icons : list decoded_icon) (i y_offset : Z) (surf : Surf)
  : checked Surf :=
  match icons with
  | [] => Ok surf
  | icon :: icons =>
      let! surf :=
        for_each (seqZ 0 (height icon))
          (fun y surf =>
             write_pixels 0 (y_offset + y) (width icon * 4)
               (drop (Z.to_nat (y * width icon * 4)) (pixels icon)) surf)
          surf in
      let sr :=
        {| rect := {| rect_x := 0; rect_y := y_offset;
                      rect_w := width icon; rect_h := height icon |};
           kind := sprite;
           user_tag := i |} in
      let surf := set_subrect i sr surf in
      copy_icons icons (i + 1) (y_offset + height icon) surf
  end.

Definition create_icon_atlas {Surf : Type} `{!surface Surf}
    (icons : list decoded_icon) (surf : Surf) (max_w max_h : Z)
  : checked (decode_result * Surf) :=
  match icons with
  | [] => Ok (failure invalid_format "No valid icons", surf)
  | _ =>
      match atlas_size icons max_h 0 0 with
      | None =>
          Ok (failure dimensions_exceeded "ICO atlas height exceeds limits",
              surf)
      | Some (atlas_width, atlas_height) =>
          if atlas_width >? size_t_of_int max_w then
            Ok (failure dimensions_exceeded "ICO atlas width exceeds limits",
                surf)
          else
            let '(allocated, surf) :=
              set_size (to_int32 atlas_width) (to_int32 atlas_height)
                rgba8888 surf in
            if negb allocated then
              Ok (failure internal_error "Failed to allocate surface", surf)
            else
              let! surf := copy_icons icons 0 0 surf in
              Ok (success, surf)
      end
  end.

Definition sniff (data : list byte) : checked bool :=
  if len data <? 6 then Ok false
  else
    let! (valid, header) := parse_ico_header data in
    match header with
    | Some header => Ok (valid && (count header >? 0))
    | None => Ok false
    end.







(** An icon file with one directory entry, of a 32x32 image, followed by
    sixteen bytes of image data. *)
Definition oversized_example : list byte :=
  [x00; x00; x01; x00; x01; x00;
   x20; x20; x00; x00; x01; x00; x20; x00;
   x10; x00; x00; x00; x16; x00; x00; x00;
   x08; x08; x00; x00; x01; x00; x20; x00;
   x10; x00; x00; x00; x16; x00; x00; x00].

(** The directory loop of [decode], with [n] iterations left. *)
Fixpoint parse_entries (n : nat) (data : list byte) (max_w max_h : Z)
    (dir_offset : Z) (entries : list ico_dir_entry)
  : checked (list ico_dir_entry) :=
  match n with
  | O => Ok entries
  | S n =>
      if dir_offset + 16 >? len data then Ok entries
      else
        let! entry := parse_ico_dir_entry {| base := data; off := dir_offset |} in
        let dir_offset := dir_offset + 16 in
        let w := if entry_width entry =? 0 then 256 else entry_width entry in
        let h := if entry_height entry =? 0 then 256 else entry_height entry in
        let entries :=
          if (w <=? max_w) && (h <=? max_h)
             && (entry_offset entry <? len data) && (entry_size entry >? 0)
          then entries ++ [entry] else entries in
        parse_entries n data max_w max_h dir_offset entries
  end.

(** [data.subspan(offset, count)]; undefined when the range leaves
    [data]. *)
Definition subspan (data : list byte) (offset count : Z)
  : checked (list byte) :=
  if offset + count <=? len data then
    Ok (take (Z.to_nat count) (drop (Z.to_nat offset) data))
  else OutOfBounds.

(** The decoding loop of [decode]; [entry.offset + entry.size] is a
    32-bit sum. *)
Fixpoint decode_entries (entries : list ico_dir_entry) (data : list byte)
    (max_w max_h : Z) (icons : list decoded_icon)
  : checked (list decoded_icon) :=
  match entries with
  | [] => Ok icons
  | entry :: entries =>
      if wrap32 (entry_offset entry + entry_size entry) >? len data then
        decode_entries entries data max_w max_h icons
      else
        let! icon_data :=
          subspan data (entry_offset entry) (entry_size entry) in
        let! decoded := decode_icon_image icon_data max_w max_h in
        match decoded with
        | Some icon =>
            decode_entries entries data max_w max_h (icons ++ [icon])
        | None => decode_entries entries data max_w max_h icons
        end
  end.

Definition decode {Surf : Type} `{!surface Surf}
    (data : list byte) (surf : Surf) (options : decode_options)
  : checked (decode_result * Surf) :=
  let! (valid, header) := parse_ico_header data in
  match valid, header with
  | true, Some header =>
      if count header =? 0 then
        Ok (failure invalid_format "ICO file has no images", surf)
      else
        let max_w := if max_width options >? 0 then max_width options
                     else 256 in
        let max_h := if max_height options >? 0 then max_height options
                     else 256 in
        let! entries :=
          parse_entries (Z.to_nat (count header)) data max_w max_h 6 [] in
        match entries with
        | [] => Ok (failure invalid_format "No valid icon entries", surf)
        | _ =>
            let! icons := decode_entries entries data max_w max_h [] in
            create_icon_atlas icons surf max_w max_h
        end
  | _, _ => Ok (failure invalid_format "Invalid ICO header", surf)
  end.

End with_lodepng.

End ico.

(* ===================================================================== *)
(** ** codec.cpp: the registry *)
(* ===================================================================== *)

Module codec.

Section registry.

Context {Surf : Type} `{!surface Surf}.

(** The [decoder] interface.  [sniff] of a C++ decoder may read its
    input, so it is a checked computation too. *)
Record decoder := {
  name : string;
  extensions : list string;
  sniff : list byte -> checked bool;
  decode : list byte -> Surf -> decode_options -> checked (decode_result * Surf)
}.

(** [codec_registry::decoders_], in registration order. *)
Definition codec_registry := list decoder.

(** [register_decoder]: a null pointer is ignored. *)
Definition register_decoder (dec : option decoder) (decoders_ : codec_registry)
  : codec_registry :=
  match dec with
  | Some dec => decoders_ ++ [dec]
  | None => decoders_
  end.

(** [find_decoder(data)]. *)
Fixpoint find_decoder (decoders_ : codec_registry) (data : list byte)
  : checked (option decoder) :=
  match decoders_ with
  | [] => Ok None
  | dec :: decoders_ =>
      let! accepted := sniff dec data in
      if accepted then Ok (Some dec) else find_decoder decoders_ data
  end.

Fixpoint find_decoder_by_name (decoders_ : codec_registry) (n : string)
  : option decoder :=
  match decoders_ with
  | [] => None
  | dec :: decoders_ =>
      if String.eqb (name dec) n then Some dec
      else find_decoder_by_name decoders_ n
  end.

(** [decode(data, surf, options)]. *)
Definition decode_auto (registry : codec_registry) (data : list byte)
    (surf : Surf) (options : decode_options)
  : checked (decode_result * Surf) :=
  let! dec := find_decoder registry data in
  match dec with
  | None => Ok (failure invalid_format "Unknown image format", surf)
  | Some dec => decode dec data surf options
  end.

(** [decode(data, surf, codec_name, options)]. *)
Definition decode_named (registry : codec_registry) (data : list byte)
    (surf : Surf) (codec_name : string) (options : decode_options)
  : checked (decode_result * Surf) :=
  match find_decoder_by_name registry codec_name with
  | None =>
      Ok (failure invalid_format
            (String.append "Unknown codec: " codec_name), surf)
  | Some dec => decode dec data surf options
  end.

Variable lodepng_decode : list byte -> png.lodepng_image.

Definition png_decoder_impl : decoder :=
  {| name := "png"; extensions := [".png"%string];
     sniff := fun data => Ok (png.sniff data);
     decode := png.decode lodepng_decode |}.

Definition qoi_decoder_impl : decoder :=
  {| name := "qoi"; extensions := [".qoi"%string];
     sniff := qoi.sniff;
     decode := qoi.decode |}.

Definition ico_decoder_impl : decoder :=
  {| name := "ico"; extensions := [".ico"%string; ".cur"%string];
     sniff := ico.sniff;
     decode := ico.decode lodepng_decode |}.

Definition koala_decoder_impl : decoder :=
  {| name := "koala";
     extensions := [".koa"%string; ".kla"%string; ".koala"%string;
                    ".gg"%string; ".gig"%string];
     sniff := fun data => Ok (koala.sniff data);
     decode := koala.decode |}.

Definition drazlace_decoder_impl : decoder :=
  {| name := "drazlace"; extensions := [".drl"%string];
     sniff := fun data => Ok (drazlace.sniff data);
     decode := drazlace.decode |}.

(** The decoders modelled in this file, in the relative order
    [register_builtin_codecs] registers them. *)
Definition modelled_codecs : codec_registry :=
  [png_decoder_impl; qoi_decoder_impl; ico_decoder_impl;
   koala_decoder_impl; drazlace_decoder_impl].

End registry.

(** A stand-in for [lodepng::decode] that rejects every input, for
    running the registry on inputs that are not PNG files. *)
Definition lodepng_rejects (data : list byte) : png.lodepng_image :=
  {| png.lodepng_error := 28;
     png.lodepng_error_text := "incorrect PNG signature";
     png.lodepng_width := 0; png.lodepng_height := 0;
     png.lodepng_pixels := [] |}.

(** A 10003-byte input that carries the DrazLace signature: both the
    Koala and the DrazLace decoder claim it. *)
Definition ambiguous_example : list byte :=
  [x00; x58] ++ drazlace.DRAZLACE_SIGNATURE
    ++ replicate (Z.to_nat (10003 - 15)) x00.

End codec.

(* ===================================================================== *)
(** * Properties *)
(* ===================================================================== *)

(** ** Bytes and checked reads *)

Lemma u8_range (b : byte) : 0 <= u8 b < 256.
Proof.
  unfold u8. pose proof (Byte.to_N_bounded b) as Hb.
  lia.
Qed.

Lemma u8_to_u8 (z : Z) : u8 (to_u8 z) = z mod 256.
Proof.
  unfold to_u8, u8.
  assert (Hz : 0 <= z mod 256 < 256) by (apply Z.mod_pos_bound; lia).
  destruct (Byte.of_N (Z.to_N (z mod 256))) as [b|] eqn:E.
  - apply Byte.to_of_N in E. rewrite E. lia.
  - apply Byte.of_N_None_iff in E. lia.
Qed.

Lemma to_u8_u8 (b : byte) : to_u8 (u8 b) = b.
Proof.
  unfold to_u8, u8.
  pose proof (Byte.to_N_bounded b) as Hb.
  rewrite Z.mod_small by lia.
  rewrite N2Z.id, Byte.of_to_N. reflexivity.
Qed.

Lemma u8_inj (a b : byte) : u8 a = u8 b -> a = b.
Proof. intros H. rewrite <- (to_u8_u8 a), <- (to_u8_u8 b), H. reflexivity. Qed.

Lemma rd_Ok (p : list byte) (i : Z) :
  0 <= i < Z.of_nat (length p) -> exists b, rd p i = Ok b.
Proof.
  intros Hi. unfold rd.
  destruct (Z.ltb_spec i 0); [lia|].
  destruct (p !! Z.to_nat i) as [b|] eqn:E; [eauto|].
  apply lookup_ge_None in E. lia.
Qed.

Lemma rd_Ok_inv (p : list byte) (i : Z) (b : byte) :
  rd p i = Ok b -> 0 <= i < Z.of_nat (length p) /\ p !! Z.to_nat i = Some b.
Proof.
  unfold rd. destruct (Z.ltb_spec i 0); [discriminate|].
  destruct (p !! Z.to_nat i) as [b'|] eqn:E; [|discriminate].
  intros [= ->]. split; [|reflexivity].
  apply lookup_lt_Some in E. lia.
Qed.

Lemma for_each_ext {A S} (l : list A) (f g : A -> S -> checked S) (s : S) :
  (forall a s', a ∈ l -> f a s' = g a s') ->
  for_each l f s = for_each l g s.
Proof.
  revert s. induction l as [|a l IH]; intros s Hfg; [reflexivity|].
  simpl. rewrite (Hfg a s) by left.
  destruct (g a s) as [s'| |]; simpl; [|reflexivity..].
  apply IH. intros b s'' Hb. apply Hfg. by right.
Qed.

Lemma for_each_app {A S} (l1 l2 : list A) (f : A -> S -> checked S) (s : S) :
  for_each (l1 ++ l2) f s = (let! s' := for_each l1 f s in for_each l2 f s').
Proof.
  revert s. induction l1 as [|a l1 IH]; intros s; [reflexivity|].
  simpl. destruct (f a s) as [s'| |]; simpl; [apply IH|reflexivity..].
Qed.

(** A loop whose body never faults and preserves [P] ends in a state
    satisfying [P]. *)
Lemma for_each_inv {A S} (P : S -> Prop) (l : list A)
    (f : A -> S -> checked S) (s : S) :
  P s ->
  (forall a s', a ∈ l -> P s' -> exists s'', f a s' = Ok s'' /\ P s'') ->
  exists s', for_each l f s = Ok s' /\ P s'.
Proof.
  revert s. induction l as [|a l IH]; intros s Hs Hstep.
  - exists s. by split.
  - destruct (Hstep a s) as (s1 & E1 & H1); [by left|done|].
    simpl. rewrite E1. simpl. apply IH; [done|].
    intros b s' Hb. apply Hstep. by right.
Qed.


(* ===================================================================== *)
(** ** memory_surface: buffer-size invariant *)
(* ===================================================================== *)

Section surface_invariant.
Import memory_surface surface_ops.

Lemma memcpy_in_range (dst src : list byte) (offset n : Z) :
  n <= len src -> offset + n <= len dst ->
  memcpy dst offset src n
  = Ok (take (Z.to_nat offset) dst ++ take (Z.to_nat n) src
          ++ drop (Z.to_nat (offset + n)) dst).
Proof.
  intros Hs Hd. unfold memcpy.
  destruct ((n >? len src) || (offset + n >? len dst)) eqn:E; [lia|].
  reflexivity.
Qed.

Lemma memcpy_Ok_inv (dst src out : list byte) (offset n : Z) :
  memcpy dst offset src n = Ok out ->
  n <= len src /\ offset + n <= len dst
  /\ out = take (Z.to_nat offset) dst ++ take (Z.to_nat n) src
             ++ drop (Z.to_nat (offset + n)) dst.
Proof.
  unfold memcpy.
  destruct ((n >? len src) || (offset + n >? len dst)) eqn:E;
    [discriminate|].
  intros [= <-]. repeat split; lia.
Qed.

Lemma memcpy_length (dst src out : list byte) (offset n : Z) :
  0 <= offset -> 0 <= n ->
  memcpy dst offset src n = Ok out -> length out = length dst.
Proof.
  intros Ho Hn E. apply memcpy_Ok_inv in E as (Hs & Hd & ->).
  unfold len in *.
  rewrite !length_app, !length_take, length_drop. lia.
Qed.

Lemma invariant_empty : invariant empty.
Proof. unfold invariant; simpl. split; [reflexivity|split; [reflexivity|lia]]. Qed.

Lemma invariant_set_size (w h : Z) (f : pixel_format) (s : t) :
  invariant s -> invariant (snd (set_size true w h f s)).
Proof.
  intros Hs. unfold set_size.
  destruct ((w <=? 0) || (h <=? 0)) eqn:E0; [exact Hs|].
  apply orb_false_iff in E0 as [Hw Hh].
  destruct (w >? SIZE_MAX / bytes_per_pixel f); [exact Hs|].
  destruct (w * bytes_per_pixel f >? SIZE_MAX / h); [exact Hs|].
  destruct (w * bytes_per_pixel f * h >? MAX_BUFFER_SIZE); [exact Hs|].
  cbn [negb pixels_]. rewrite andb_false_r.
  unfold invariant; cbn [snd pixels_ palette_ width_ height_ format_ length].
  rewrite length_replicate.
  assert (0 < bytes_per_pixel f) by (destruct f; simpl; lia).
  split; [|split; [reflexivity|lia]].
  assert (0 <= w * bytes_per_pixel f * h) by nia.
  rewrite Z2Nat.id by assumption. ring.
Qed.

Lemma invariant_write_pixels (x y n : Z) (p : list byte) (s s' : t) :
  invariant s -> write_pixels x y n p s = Ok s' -> invariant s'.
Proof.
  intros Hs. unfold write_pixels.
  destruct ((y <? 0) || (y >=? height_ s) || (x <? 0) || (n <=? 0)) eqn:E0;
    [by intros [= <-]|].
  repeat (apply orb_false_iff in E0 as [E0 ?]).
  destruct (x >=? pitch_ s) eqn:E1; [by intros [= <-]|].
  destruct (_ + _ <=? _) eqn:E2; [|by intros [= <-]].
  destruct (memcpy _ _ _ _) as [out| |] eqn:Em; cbn [cbind];
    try discriminate.
  intros [= <-]. apply memcpy_length in Em; [|nia|lia].
  unfold invariant in *; cbn [pixels_ palette_ width_ height_ format_].
  rewrite Em. exact Hs.
Qed.

Lemma write_pixels_defined (x y n : Z) (p : list byte) (s : t) :
  n <= Z.of_nat (length p) -> exists s', write_pixels x y n p s = Ok s'.
Proof. apply write_pixels_reads_count. Qed.

Lemma invariant_write_pixel (x y : Z) (p : byte) (s : t) :
  invariant s -> invariant (write_pixel x y p s).
Proof.
  intros Hs. unfold write_pixel.
  repeat (destruct (_ : bool); [exact Hs|]).
  destruct (_ : bool); [|exact Hs].
  unfold invariant in *; simpl. rewrite length_insert. exact Hs.
Qed.

Lemma invariant_set_palette_size (n : Z) (s : t) :
  invariant s -> invariant (set_palette_size n s).
Proof.
  intros [Hpx Hpal]. unfold set_palette_size.
  destruct ((n <=? 0) || (n >? 256)) eqn:E0; [by split|].
  apply orb_false_iff in E0 as [Hn0 Hn256].
  unfold invariant; simpl. rewrite length_replicate.
  split; [exact Hpx|].
  rewrite Z2Nat.id by lia. rewrite Z.mod_mul by lia. lia.
Qed.

(** [write_palette] takes a span: it never reads outside it. *)
Lemma write_palette_defined (i : Z) (c : list byte) (s : t) :
  exists s', write_palette i c s = Ok s'.
Proof.
  unfold write_palette.
  destruct ((i <? 0) || _) eqn:E0; [eauto|].
  destruct (_ >=? _) eqn:E1; [eauto|].
  rewrite memcpy_in_range by (unfold len; lia). cbn [cbind]. eauto.
Qed.

Lemma invariant_write_palette (i : Z) (c : list byte) (s s' : t) :
  invariant s -> write_palette i c s = Ok s' -> invariant s'.
Proof.
  intros [Hpx Hpal]. unfold write_palette.
  destruct ((i <? 0) || _) eqn:E0; [intros [= <-]; by split|].
  apply orb_false_iff in E0 as [Hi Hc].
  destruct (_ >=? _) eqn:E1; [intros [= <-]; by split|].
  destruct (memcpy _ _ _ _) as [out| |] eqn:Em; cbn [cbind];
    try discriminate.
  intros [= <-]. apply memcpy_length in Em; [|lia..].
  unfold invariant; cbn [pixels_ palette_ width_ height_ format_].
  rewrite Em. by split.
Qed.

Lemma invariant_set_subrect (i : Z) (sr : subrect) (s : t) :
  invariant s -> invariant (set_subrect i sr s).
Proof.
  intros Hs. unfold set_subrect. destruct (i <? 0); exact Hs.
Qed.

Lemma invariant_apply (o : op) (s s' : t) :
  allocates o -> invariant s -> apply o s = Ok s' -> invariant s'.
Proof.
  destruct o; cbn [allocates apply]; intros Ha Hs E.
  - subst allocated. injection E as <-. by apply invariant_set_size.
  - by eapply invariant_write_pixels.
  - injection E as <-. by apply invariant_write_pixel.
  - injection E as <-. by apply invariant_set_palette_size.
  - by eapply invariant_write_palette.
  - injection E as <-. by apply invariant_set_subrect.
Qed.

Lemma apply_defined (o : op) (s : t) :
  defined o -> exists s', apply o s = Ok s'.
Proof.
  destruct o; cbn [defined apply]; intros Hd; eauto.
  - by apply write_pixels_defined.
  - apply write_palette_defined.
Qed.

Lemma invariant_run (ops : list op) (s s' : t) :
  Forall allocates ops -> invariant s -> run ops s = Ok s' -> invariant s'.
Proof.
  intros Ha. revert s. unfold run.
  induction Ha as [|o ops Ho _ IH]; intros s Hs; cbn [for_each].
  - by intros [= <-].
  - destruct (apply o s) as [s1| |] eqn:E; cbn [cbind]; try discriminate.
    apply IH. by eapply invariant_apply.
Qed.

Lemma run_defined (ops : list op) (s : t) :
  Forall defined ops -> exists s', run ops s = Ok s'.
Proof.
  intros Hd. revert s. unfold run.
  induction Hd as [|o ops Ho _ IH]; intros s; cbn [for_each]; [eauto|].
  destruct (apply_defined o s Ho) as [s1 ->]. cbn [cbind]. apply IH.
Qed.

(** What [set_size] leaves behind when the allocation fails: the new
    dimensions with the old buffer. *)
Lemma set_size_bad_alloc (w h : Z) (f : pixel_format) (s : t) :
  0 < w <= INT_MAX -> 0 < h <= INT_MAX ->
  Z.of_nat (length (pixels_ s)) < w * bytes_per_pixel f * h
    <= MAX_BUFFER_SIZE ->
  set_size false w h f s
  = (false,
     {| pixels_ := pixels_ s; palette_ := palette_ s;
        subrects_ := subrects_ s;
        width_ := w; height_ := h; pitch_ := w * bytes_per_pixel f;
        format_ := f |}).
Proof.
  intros Hw Hh Hsz. unfold INT_MAX in *.
  assert (Hbpp : 1 <= bytes_per_pixel f <= 4) by (destruct f; simpl; lia).
  assert (Hmax : SIZE_MAX = 18446744073709551615) by reflexivity.
  assert (Hbuf : MAX_BUFFER_SIZE = 1073741824) by reflexivity.
  unfold set_size.
  destruct ((w <=? 0) || (h <=? 0)) eqn:E0; [lia|].
  assert (w <= SIZE_MAX / bytes_per_pixel f).
  { apply Z.div_le_lower_bound; [lia|]. rewrite Hmax. nia. }
  assert (w * bytes_per_pixel f <= SIZE_MAX / h).
  { apply Z.div_le_lower_bound; [lia|]. rewrite Hmax. nia. }
  destruct (w >? SIZE_MAX / bytes_per_pixel f) eqn:E1; [lia|].
  destruct (w * bytes_per_pixel f >? SIZE_MAX / h) eqn:E2; [lia|].
  destruct (w * bytes_per_pixel f * h >? MAX_BUFFER_SIZE) eqn:E3; [lia|].
  cbn [pixels_ negb].
  destruct (w * bytes_per_pixel f * h >? Z.of_nat (length (pixels_ s)))
    eqn:E4; [reflexivity|lia].
Qed.

(** C5.  On a [memory_surface] whose allocations succeed the invariant
    holds: starting from a default-constructed surface, after each
    operation of any sequence of [set_size], [write_pixels],
    [write_pixel], [set_palette_size], [write_palette] and [set_subrect]
    calls with arbitrary arguments that stays inside the buffers it is
    handed, the pixel buffer holds exactly
    width*height*bytes_per_pixel(format) bytes and the palette length is
    a multiple of 3 and at most 768; and the sequence does stay inside
    them when every [write_pixels] pointer designates [count] bytes.
    The code breaks the invariant in one place: a [set_size] whose
    allocation throws [std::bad_alloc] returns false after it has stored
    the new width, height, format and pitch, so the surface then
    announces dimensions its buffer does not have. *)
Theorem memory_surface_invariant (ops : list op) (k : nat) :
  (Forall allocates ops ->
   (forall s, run (take k ops) empty = Ok s ->
      Z.of_nat (length (pixels_ s))
        = width_ s * height_ s * bytes_per_pixel (format_ s)
      /\ Z.of_nat (length (palette_ s)) mod 3 = 0
      /\ Z.of_nat (length (palette_ s)) <= 768)
   /\ (Forall defined ops -> exists s, run (take k ops) empty = Ok s))
  /\ (forall w h f s,
        0 < w <= INT_MAX -> 0 < h <= INT_MAX ->
        Z.of_nat (length (pixels_ s)) < w * bytes_per_pixel f * h
          <= MAX_BUFFER_SIZE ->
        forall s', run [op_set_size false w h f] s = Ok s' ->
          width_ s' = w /\ height_ s' = h /\ format_ s' = f
          /\ pixels_ s' = pixels_ s
          /\ Z.of_nat (length (pixels_ s'))
             <> width_ s' * height_ s' * bytes_per_pixel (format_ s')).
Proof.
  split.
  - intros Ha. split.
    + intros s E. apply (invariant_run (take k ops) empty s).
      * by apply Forall_take.
      * apply invariant_empty.
      * exact E.
    + intros Hd. apply run_defined. by apply Forall_take.
  - intros w h f s Hw Hh Hsz s'. unfold run. cbn [for_each apply cbind].
    rewrite set_size_bad_alloc by assumption. cbn [snd].
    intros [= <-]. cbn [width_ height_ format_ pixels_].
    repeat split; try reflexivity. lia.
Qed.

End surface_invariant.

(** C5 at a concrete call sequence, and at a failing allocation of the
    largest buffer [set_size] admits. *)
Lemma memory_surface_invariant_witness :
  let ops :=
    [ surface_ops.op_set_size true 2 2 rgb888;
      surface_ops.op_write_pixels 3 1 100 [x01; x02; x03];
      surface_ops.op_set_size true 4 1 indexed8;
      surface_ops.op_set_palette_size 2;
      surface_ops.op_write_palette 1 [xff; xff; xff; xff];
      surface_ops.op_write_pixel 3 0 x01 ] in
  (exists s,
     surface_ops.run (take 6 ops) memory_surface.empty = Ok s
     /\ Z.of_nat (length (memory_surface.pixels_ s))
        = memory_surface.width_ s * memory_surface.height_ s
          * bytes_per_pixel (memory_surface.format_ s)
     /\ Z.of_nat (length (memory_surface.palette_ s)) mod 3 = 0
     /\ Z.of_nat (length (memory_surface.palette_ s)) <= 768)
  /\ (exists s',
        surface_ops.run
          [surface_ops.op_set_size false 16384 16384 rgba8888]
          memory_surface.empty = Ok s'
        /\ memory_surface.width_ s' = 16384
        /\ memory_surface.pixels_ s' = []).
Proof.
  intros ops.
  destruct (memory_surface_invariant ops 6) as [Hinv Hbad].
  split.
  - destruct (Hinv ltac:(repeat constructor)) as [Hs _].
    assert (E : exists s, surface_ops.run (take 6 ops) memory_surface.empty
                          = Ok s) by (eexists; vm_compute; reflexivity).
    destruct E as [s E]. exists s. split; [exact E|]. exact (Hs s E).
  - assert (E : exists s', surface_ops.run
                  [surface_ops.op_set_size false 16384 16384 rgba8888]
                  memory_surface.empty = Ok s')
      by (eexists; reflexivity).
    destruct E as [s' E]. exists s'. split; [exact E|].
    destruct (Hbad 16384 16384 rgba8888 memory_surface.empty) with (s' := s')
      as (Hw & _ & _ & Hp & _);
      [vm_compute; split; congruence..|exact E|].
    exact (conj Hw Hp).
Defined.

(* ===================================================================== *)
(** ** c64::blend_rgb averages each channel *)
(* ===================================================================== *)

Section blend.
Import c64.

Lemma land_lxor_distr (a b c : Z) :
  Z.land (Z.lxor a b) c = Z.lxor (Z.land a c) (Z.land b c).
Proof.
  apply Z.bits_inj'. intros n Hn.
  rewrite Z.land_spec, !Z.lxor_spec, !Z.land_spec.
  destruct (Z.testbit a n), (Z.testbit b n), (Z.testbit c n); reflexivity.
Qed.

Lemma land_land_distr (a b c : Z) :
  Z.land (Z.land a b) c = Z.land (Z.land a c) (Z.land b c).
Proof.
  apply Z.bits_inj'. intros n Hn.
  rewrite !Z.land_spec.
  destruct (Z.testbit a n), (Z.testbit b n), (Z.testbit c n); reflexivity.
Qed.

Lemma channel_land (k a b : Z) :
  channel k (Z.land a b) = Z.land (channel k a) (channel k b).
Proof. unfold channel. rewrite Z.shiftr_land. apply land_land_distr. Qed.

Lemma channel_lxor (k a b : Z) :
  channel k (Z.lxor a b) = Z.lxor (channel k a) (channel k b).
Proof. unfold channel. rewrite Z.shiftr_lxor. apply land_lxor_distr. Qed.

(** Halving inside the mask is halving each channel. *)
Lemma channel_half_masked (k x : Z) :
  k = 0 \/ k = 1 \/ k = 2 ->
  channel k (Z.land (Z.shiftr x 1) RGB_BLEND_MASK)
  = Z.shiftr (channel k x) 1.
Proof.
  intros Hk. unfold channel.
  rewrite Z.shiftr_land, (Z.shiftr_land (Z.shiftr x (8 * k))).
  rewrite !Z.shiftr_shiftr by lia.
  rewrite <- Z.land_assoc. rewrite (Z.add_comm 1).
  f_equal. destruct Hk as [->|[->| ->]]; reflexivity.
Qed.

Lemma channel_range (k v : Z) : 0 <= channel k v < 256.
Proof.
  unfold channel. change 255 with (Z.ones 8).
  rewrite Z.land_ones by lia. apply Z.mod_pos_bound. lia.
Qed.

(** A 24-bit value is the sum of its channels. *)
Lemma channel_decompose (v : Z) :
  0 <= v < 2 ^ 24 ->
  v = channel 2 v * 65536 + channel 1 v * 256 + channel 0 v.
Proof.
  intros Hv. unfold channel. change 255 with (Z.ones 8).
  rewrite !Z.land_ones, !Z.shiftr_div_pow2 by lia.
  change (2 ^ (8 * 2)) with 65536. change (2 ^ (8 * 1)) with 256.
  change (2 ^ (8 * 0)) with 1. change (2 ^ 8) with 256.
  change (2 ^ 24) with 16777216 in Hv.
  rewrite Z.div_1_r. Z.to_euclidean_division_equations. lia.
Qed.

Lemma channel_compose (r g b : Z) :
  0 <= r < 256 -> 0 <= g < 256 -> 0 <= b < 256 ->
  let v := r * 65536 + g * 256 + b in
  channel 2 v = r /\ channel 1 v = g /\ channel 0 v = b.
Proof.
  intros Hr Hg Hb v. unfold channel. change 255 with (Z.ones 8).
  rewrite !Z.land_ones, !Z.shiftr_div_pow2 by lia.
  change (2 ^ (8 * 2)) with 65536. change (2 ^ (8 * 1)) with 256.
  change (2 ^ (8 * 0)) with 1. change (2 ^ 8) with 256.
  rewrite Z.div_1_r. subst v. Z.to_euclidean_division_equations. lia.
Qed.

Lemma land_24bit (a b : Z) : 0 <= a < 2 ^ 24 -> 0 <= Z.land a b < 2 ^ 24.
Proof.
  intros Ha.
  assert (E : Z.land a b = Z.land a b mod 2 ^ 24).
  { rewrite <- Z.land_ones by lia.
    rewrite (Z.land_comm a b), <- Z.land_assoc, Z.land_ones by lia.
    rewrite (Z.mod_small a) by lia. reflexivity. }
  rewrite E. apply Z.mod_pos_bound. lia.
Qed.

Lemma byte_average_all :
  forallb (fun x => forallb (byte_average_ok x) (seqZ 0 256)) (seqZ 0 256)
  = true.
Proof. vm_compute. reflexivity. Qed.

Lemma byte_average (x y : Z) :
  0 <= x < 256 -> 0 <= y < 256 ->
  Z.land x y + Z.shiftr (Z.lxor x y) 1 = (x + y) / 2.
Proof.
  intros Hx Hy. pose proof byte_average_all as H.
  rewrite forallb_forall in H.
  assert (Hx' : In x (seqZ 0 256))
    by (apply list_elem_of_In, elem_of_seqZ; lia).
  specialize (H x Hx'). rewrite forallb_forall in H.
  assert (Hy' : In y (seqZ 0 256))
    by (apply list_elem_of_In, elem_of_seqZ; lia).
  specialize (H y Hy'). unfold byte_average_ok in H. lia.
Qed.

(** C7.  For 24-bit RGB values the interlace blend is
    (a&b) + ((a^b)>>1 & 0x7f7f7f) (the 32-bit sum does not wrap), and each
    of its three 8-bit channels is the floor of the average of the
    corresponding channels of [a] and [b]: the blend is the 24-bit value
    made of the three channel averages, so no carry leaves a channel. *)
Theorem blend_rgb_channel_average (a b : Z) :
  0 <= a < 2 ^ 24 -> 0 <= b < 2 ^ 24 ->
  blend_rgb a b
  = Z.land a b + Z.land (Z.shiftr (Z.lxor a b) 1) 0x7f7f7f
  /\ (forall k, k = 0 \/ k = 1 \/ k = 2 ->
        channel k (blend_rgb a b) = (channel k a + channel k b) / 2)
  /\ blend_rgb a b
     = (channel 2 a + channel 2 b) / 2 * 65536
       + (channel 1 a + channel 1 b) / 2 * 256
       + (channel 0 a + channel 0 b) / 2.
Proof.
  intros Ha Hb.
  set (A := Z.land a b).
  set (T := Z.land (Z.shiftr (Z.lxor a b) 1) RGB_BLEND_MASK).
  assert (HA : 0 <= A < 2 ^ 24) by (apply land_24bit; exact Ha).
  assert (HT : 0 <= T < 2 ^ 24).
  { unfold T. rewrite Z.land_comm. apply land_24bit. vm_compute.
    split; [discriminate|reflexivity]. }
  assert (Hch : forall k, k = 0 \/ k = 1 \/ k = 2 ->
            channel k A + channel k T = (channel k a + channel k b) / 2).
  { intros k Hk. unfold A, T.
    rewrite channel_land, channel_half_masked, channel_lxor by exact Hk.
    apply byte_average; apply channel_range. }
  assert (Hsum : A + T
            = (channel 2 a + channel 2 b) / 2 * 65536
              + (channel 1 a + channel 1 b) / 2 * 256
              + (channel 0 a + channel 0 b) / 2).
  { rewrite (channel_decompose A HA) at 1.
    rewrite (channel_decompose T HT) at 1.
    rewrite <- (Hch 2), <- (Hch 1), <- (Hch 0) by lia. ring. }
  assert (Hblend : blend_rgb a b = A + T).
  { unfold blend_rgb, wrap32. fold A T. apply Z.mod_small.
    change (2 ^ 24) with 16777216 in *. change (2 ^ 32) with 4294967296.
    lia. }
  assert (Havg : forall k, 0 <= (channel k a + channel k b) / 2 < 256).
  { intros k. pose proof (channel_range k a). pose proof (channel_range k b).
    split; [apply Z.div_pos; lia|apply Z.div_lt_upper_bound; lia]. }
  split; [exact Hblend|]. split; [|rewrite Hblend; exact Hsum].
  intros k Hk. rewrite Hblend, Hsum.
  destruct (channel_compose _ _ _ (Havg 2) (Havg 1) (Havg 0)) as (H2 & H1 & H0).
  destruct Hk as [->|[->| ->]]; assumption.
Qed.

(** C7 at [a = 0xff8001], [b = 0x017fff]. *)
Lemma blend_rgb_channel_average_witness :
  blend_rgb 0xff8001 0x017fff = 0x807f80
  /\ (forall k, k = 0 \/ k = 1 \/ k = 2 ->
        channel k (blend_rgb 0xff8001 0x017fff)
        = (channel k 0xff8001 + channel k 0x017fff) / 2).
Proof.
  split; [reflexivity|].
  apply (blend_rgb_channel_average 0xff8001 0x017fff); vm_compute;
    (split; [discriminate|reflexivity]).
Defined.

End blend.

(* ===================================================================== *)
(** ** The GG and DRP run-length decompressors *)
(* ===================================================================== *)

Lemma len_nonneg (v : list byte) : 0 <= len v.
Proof. unfold len. lia. Qed.

Lemma len_app (a b : list byte) : len (a ++ b) = len a + len b.
Proof. unfold len. rewrite length_app. lia. Qed.

Lemma len_replicate (n : nat) (b : byte) : len (replicate n b) = Z.of_nat n.
Proof. unfold len. rewrite length_replicate. reflexivity. Qed.

Lemma rd_in_range (p : list byte) (i : Z) :
  0 <= i < len p -> exists b, rd p i = Ok b.
Proof. apply rd_Ok. Qed.

Lemma wr_in_range (v : list byte) (i : Z) (b : byte) :
  0 <= i < len v -> wr v i b = Ok (<[Z.to_nat i := b]> v).
Proof.
  intros Hi. unfold wr, len in *.
  destruct ((i <? 0) || (i >=? Z.of_nat (length v))) eqn:E; [lia|reflexivity].
Qed.

(** The 64-bit product of the bomb guard cannot hide an oversized request. *)
Lemma ratio_guard (n output_size ratio : Z) :
  0 <= n -> 0 < ratio -> output_size < 2 ^ 64 ->
  output_size > n * ratio ->
  (output_size >? wrap64 (n * ratio)) = true.
Proof.
  intros Hn Hr Hs Hgt. unfold wrap64.
  rewrite Z.mod_small by nia. lia.
Qed.

Section gg.
Import koala.

Lemma decompress_gg_loop_bounded (fuel : nat) (data : list byte)
    (output_size pos : Z) (output : list byte) :
  0 <= pos -> len data - pos <= Z.of_nat fuel -> len output <= output_size ->
  exists ok out,
    decompress_gg_loop fuel data output_size pos output = Ok (ok, out)
    /\ len out <= output_size.
Proof.
  revert pos output.
  induction fuel as [|fuel IH]; intros pos output Hpos Hfuel Hout.
  - simpl.
    destruct ((len output <? output_size) && (pos <? len data)) eqn:E;
      [lia|eauto].
  - simpl.
    destruct ((len output <? output_size) && (pos <? len data)) eqn:E;
      [|eauto].
    destruct (rd_in_range data pos) as [byte ->]; [lia|]. simpl.
    destruct (u8 byte =? GG_RLE_ESCAPE).
    + destruct (pos + 1 + 1 >=? len data) eqn:E2; [eauto|].
      destruct (rd_in_range data (pos + 1)) as [value ->]; [lia|]. simpl.
      destruct (rd_in_range data (pos + 1 + 1)) as [count ->]; [lia|]. simpl.
      apply IH; [lia|lia|].
      rewrite len_app, len_replicate.
      pose proof (u8_range count). lia.
    + apply IH; [lia|lia|].
      rewrite len_app. unfold len at 2. simpl. lia.
Qed.

Lemma decompress_gg_loop_truncated (fuel : nat) (data : list byte)
    (output_size pos : Z) (output : list byte) (byte : byte) :
  len output < output_size ->
  rd data pos = Ok byte -> u8 byte = GG_RLE_ESCAPE ->
  len data <= pos + 2 ->
  decompress_gg_loop (S fuel) data output_size pos output
  = Ok (false, output).
Proof.
  intros Hout Hrd Hesc Hlen.
  apply rd_Ok_inv in Hrd as Hrng. destruct Hrng as [Hrng _]. fold (len data) in Hrng.
  simpl.
  destruct ((len output <? output_size) && (pos <? len data)) eqn:E; [|lia].
  rewrite Hrd. simpl. rewrite Hesc, Z.eqb_refl.
  destruct (pos + 1 + 1 >=? len data) eqn:E2; [reflexivity|lia].
Qed.

Lemma decompress_gg_bomb (data : list byte) (offset : Z) (output : list byte)
    (output_size : Z) :
  output_size < 2 ^ 64 ->
  output_size > len data * MAX_COMPRESSION_RATIO ->
  decompress_gg data offset output output_size = Ok (false, output).
Proof.
  intros Hs Hgt. unfold decompress_gg.
  rewrite ratio_guard; [reflexivity|apply len_nonneg|reflexivity|lia|lia].
Qed.

Lemma decompress_gg_bounded (data : list byte) (offset : Z)
    (output_size : Z) :
  0 <= offset -> 0 <= output_size ->
  exists ok out,
    decompress_gg data offset [] output_size = Ok (ok, out)
    /\ len out <= output_size.
Proof.
  intros Hoff Hs. unfold decompress_gg.
  destruct (output_size >? _).
  - exists false, []. split; [reflexivity|exact Hs].
  - apply decompress_gg_loop_bounded; [lia|unfold len; lia|exact Hs].
Qed.

End gg.

Section drp.
Import drazlace.

Lemma len_insert (v : list byte) (i : nat) (b : byte) :
  len (<[i := b]> v) = len v.
Proof. unfold len. rewrite length_insert. reflexivity. Qed.

Lemma fill_in_range (n : nat) (output : list byte) (out_pos : Z) (value : byte) :
  0 <= out_pos -> out_pos + Z.of_nat n <= len output ->
  exists output',
    fill output out_pos n value = Ok (output', out_pos + Z.of_nat n)
    /\ len output' = len output.
Proof.
  revert output out_pos.
  induction n as [|n IH]; intros output out_pos Hpos Hn; simpl.
  - exists output. rewrite Z.add_0_r. by split.
  - rewrite wr_in_range by lia. simpl.
    destruct (IH (<[Z.to_nat out_pos := value]> output) (out_pos + 1))
      as (output' & E & Hlen); [lia|rewrite len_insert; lia|].
    exists output'. rewrite E. split; [f_equal; f_equal; lia|].
    rewrite Hlen. apply len_insert.
Qed.

Lemma decompress_drp_loop_bounded (fuel : nat) (data : list byte)
    (escape : byte) (output_size in_pos out_pos : Z) (output : list byte) :
  0 <= in_pos -> len data - in_pos <= Z.of_nat fuel ->
  0 <= out_pos <= output_size -> len output = output_size ->
  exists ok out,
    decompress_drp_loop fuel data escape output_size in_pos out_pos output
    = Ok (ok, out)
    /\ len out = output_size.
Proof.
  revert in_pos out_pos output.
  induction fuel as [|fuel IH]; intros in_pos out_pos output Hin Hfuel Hop Hlen.
  - simpl.
    destruct ((out_pos <? output_size) && (in_pos <? len data)) eqn:E;
      [lia|eauto].
  - simpl.
    destruct ((out_pos <? output_size) && (in_pos <? len data)) eqn:E;
      [|eauto].
    destruct (rd_in_range data in_pos) as [byte ->]; [lia|]. simpl.
    destruct (u8 byte =? u8 escape).
    + destruct (in_pos + 1 >=? len data) eqn:E1; [eauto|].
      destruct (rd_in_range data (in_pos + 1)) as [count ->]; [lia|]. simpl.
      destruct (in_pos + 1 + 1 >=? len data) eqn:E2; [eauto|].
      destruct (rd_in_range data (in_pos + 1 + 1)) as [value ->]; [lia|].
      simpl. pose proof (u8_range count) as Hc.
      set (n := Z.to_nat (Z.min (u8 count) (output_size - out_pos))).
      destruct (fill_in_range n output out_pos value)
        as (output' & E3 & Hlen'); [lia|lia|].
      rewrite E3. simpl. apply IH; lia.
    + rewrite wr_in_range by lia. simpl.
      apply IH; [lia|lia|lia|]. rewrite len_insert. exact Hlen.
Qed.

Lemma decompress_drp_loop_truncated (fuel : nat) (data : list byte)
    (escape : byte) (output_size in_pos out_pos : Z) (output : list byte)
    (byte : byte) :
  out_pos < output_size ->
  rd data in_pos = Ok byte -> u8 byte = u8 escape ->
  len data <= in_pos + 2 ->
  decompress_drp_loop (S fuel) data escape output_size in_pos out_pos output
  = Ok (false, output).
Proof.
  intros Hout Hrd Hesc Hlen.
  apply rd_Ok_inv in Hrd as Hrng. destruct Hrng as [Hrng _].
  fold (len data) in Hrng. simpl.
  destruct ((out_pos <? output_size) && (in_pos <? len data)) eqn:E; [|lia].
  rewrite Hrd. simpl. rewrite Hesc, Z.eqb_refl.
  destruct (in_pos + 1 >=? len data) eqn:E1; [reflexivity|].
  destruct (rd_in_range data (in_pos + 1)) as [count ->]; [lia|]. simpl.
  destruct (in_pos + 1 + 1 >=? len data) eqn:E2; [reflexivity|lia].
Qed.

Lemma decompress_drp_bomb (data : list byte) (output : list byte)
    (output_size : Z) :
  output_size < 2 ^ 64 ->
  output_size > len data * MAX_COMPRESSION_RATIO ->
  decompress_drp data output output_size = Ok (false, output).
Proof.
  intros Hs Hgt. unfold decompress_drp.
  destruct (len data <? 17); [reflexivity|].
  rewrite ratio_guard; [reflexivity|apply len_nonneg|reflexivity|lia|lia].
Qed.

Lemma decompress_drp_bounded (data : list byte) (output_size : Z) :
  2 <= output_size ->
  exists ok out,
    decompress_drp data [] output_size = Ok (ok, out)
    /\ len out <= output_size.
Proof.
  intros Hs. unfold decompress_drp.
  destruct (len data <? 17) eqn:E17.
  { exists false, []. split; [reflexivity|unfold len; simpl; lia]. }
  destruct (output_size >? _).
  { exists false, []. split; [reflexivity|unfold len; simpl; lia]. }
  destruct (rd_in_range data 15) as [escape ->]; [lia|]. simpl.
  destruct (rd_in_range data 0) as [d0 ->]; [lia|]. simpl.
  rewrite wr_in_range by (rewrite len_replicate; lia). simpl.
  destruct (rd_in_range data 1) as [d1 ->]; [lia|]. simpl.
  rewrite wr_in_range by (rewrite len_insert, len_replicate; lia). simpl.
  destruct (decompress_drp_loop_bounded (length data) data escape output_size
              16 2 (<[Z.to_nat 1 := d1]> (<[Z.to_nat 0 := d0]>
                      (replicate (Z.to_nat output_size) x00))))
    as (ok & out & E & Hlen);
    [lia|unfold len; lia|lia|rewrite !len_insert, len_replicate; lia|].
  exists ok, out. split; [exact E|lia].
Qed.

End drp.

(** A decompression failure surfaces as [truncated_data]. *)
Lemma is_gg_koala_nonempty (data : list byte) :
  koala.is_gg_koala data = true -> 100 <= len data.
Proof.
  unfold koala.is_gg_koala.
  destruct ((len data <? 100) || _) eqn:E; [discriminate|]. lia.
Qed.

Lemma koala_decode_gg_failure {Surf : Type} `{!surface Surf}
    (data : list byte) (surf : Surf) (options : decode_options)
    (out : list byte) :
  koala.is_gg_koala data = true ->
  koala.decompress_gg data 2 [] koala.KOALA_SIZE_WITHOUT_ADDR
    = Ok (false, out) ->
  koala.decode data surf options
  = Ok (failure truncated_data "Failed to decompress GG Koala data", surf).
Proof.
  intros Hgg Hdec. apply is_gg_koala_nonempty in Hgg as Hlen.
  unfold koala.decode, koala.select_layout.
  destruct (len data =? 0) eqn:E0; [lia|].
  rewrite Hgg, Hdec. reflexivity.
Qed.

Lemma has_drazlace_signature_nonempty (data : list byte) :
  drazlace.has_drazlace_signature data = true -> 15 <= len data.
Proof.
  unfold drazlace.has_drazlace_signature.
  destruct (len data <? _) eqn:E; [discriminate|].
  unfold drazlace.DRAZLACE_SIGNATURE_LEN in E. lia.
Qed.

Lemma drazlace_decode_drp_failure {Surf : Type} `{!surface Surf}
    (data : list byte) (surf : Surf) (options : decode_options)
    (out : list byte) :
  drazlace.has_drazlace_signature data = true ->
  drazlace.decompress_drp data [] drazlace.DRAZLACE_UNPACKED_SIZE
    = Ok (false, out) ->
  drazlace.decode data surf options
  = Ok (failure truncated_data "Failed to decompress DrazLace data", surf).
Proof.
  intros Hsig Hdec. apply has_drazlace_signature_nonempty in Hsig as Hlen.
  unfold drazlace.decode, drazlace.select_source.
  destruct (len data =? 0) eqn:E0; [lia|].
  rewrite Hsig, Hdec. reflexivity.
Qed.

(** C6.  Both run-length decompressors (GG of the Koala decoder, DRP of
    the DrazLace decoder): in whatever state the loop reads an escape
    byte that is not followed by two more bytes, decompression fails; a
    requested size above 1000 times the input size is rejected; the
    decompressor always returns, with an output no longer than the
    requested size; and the decoder turns a failed decompression into
    [truncated_data]. *)
Theorem rle_decompressors_guarded (data : list byte) (output_size : Z) :
  output_size < 2 ^ 64 ->
  (forall fuel pos output b,
      len output < output_size ->
      rd data pos = Ok b -> u8 b = koala.GG_RLE_ESCAPE ->
      len data <= pos + 2 ->
      koala.decompress_gg_loop (S fuel) data output_size pos output
      = Ok (false, output))
  /\ (forall fuel escape in_pos out_pos output b,
      out_pos < output_size ->
      rd data in_pos = Ok b -> u8 b = u8 escape ->
      len data <= in_pos + 2 ->
      drazlace.decompress_drp_loop (S fuel) data escape output_size
        in_pos out_pos output
      = Ok (false, output))
  /\ (output_size > len data * 1000 ->
      (forall offset output,
          koala.decompress_gg data offset output output_size
          = Ok (false, output))
      /\ (forall output,
          drazlace.decompress_drp data output output_size
          = Ok (false, output)))
  /\ (0 <= output_size ->
      forall offset, 0 <= offset ->
      exists ok out,
        koala.decompress_gg data offset [] output_size = Ok (ok, out)
        /\ len out <= output_size)
  /\ (2 <= output_size ->
      exists ok out,
        drazlace.decompress_drp data [] output_size = Ok (ok, out)
        /\ len out <= output_size)
  /\ (forall (Surf : Type) `{!surface Surf} (surf : Surf) options out,
      koala.is_gg_koala data = true ->
      koala.decompress_gg data 2 [] koala.KOALA_SIZE_WITHOUT_ADDR
        = Ok (false, out) ->
      koala.decode data surf options
      = Ok (failure truncated_data "Failed to decompress GG Koala data",
            surf))
  /\ (forall (Surf : Type) `{!surface Surf} (surf : Surf) options out,
      drazlace.has_drazlace_signature data = true ->
      drazlace.decompress_drp data [] drazlace.DRAZLACE_UNPACKED_SIZE
        = Ok (false, out) ->
      drazlace.decode data surf options
      = Ok (failure truncated_data "Failed to decompress DrazLace data",
            surf)).
Proof.
  intros Hsize. repeat split.
  - intros. by eapply decompress_gg_loop_truncated.
  - intros. by eapply decompress_drp_loop_truncated.
  - intros. by apply decompress_gg_bomb.
  - intros. by apply decompress_drp_bomb.
  - intros. by apply decompress_gg_bounded.
  - intros. by apply decompress_drp_bounded.
  - intros Surf ? surf options out Hgg Hdec.
    by apply (koala_decode_gg_failure data surf options out).
  - intros Surf ? surf options out Hsig Hdec.
    by apply (drazlace_decode_drp_failure data surf options out).
Qed.

(** C6 on the five-byte stream [00 60 41 fe 42] with four bytes requested:
    after the literal [41] the escape is followed by one byte only. *)
Lemma rle_decompressors_guarded_witness :
  let data := [x00; x60; x41; xfe; x42] in
  4 < 2 ^ 64
  /\ koala.decompress_gg_loop 5 data 4 3 [x41] = Ok (false, [x41])
  /\ (exists ok out,
        koala.decompress_gg data 2 [] 4 = Ok (ok, out) /\ len out <= 4)
  /\ (exists ok out,
        drazlace.decompress_drp data [] 4 = Ok (ok, out) /\ len out <= 4).
Proof.
  intros data.
  assert (Hs : 4 < 2 ^ 64) by reflexivity.
  destruct (rle_decompressors_guarded data 4 Hs)
    as (Hgg & _ & _ & Hb1 & Hb2 & _).
  split; [exact Hs|]. split; [|split].
  - apply (Hgg 4%nat 3 [x41] xfe); vm_compute; congruence.
  - apply Hb1; lia.
  - apply Hb2; lia.
Defined.

(* ===================================================================== *)
(** ** Koala: compressed and uncompressed inputs decode alike *)
(* ===================================================================== *)

Section koala_equivalence.
Import c64 koala.

Lemma decompress_gg_loop_success (fuel : nat) (data : list byte)
    (output_size pos : Z) (output out : list byte) :
  decompress_gg_loop fuel data output_size pos output = Ok (true, out) ->
  len out = output_size.
Proof.
  revert pos output. induction fuel as [|fuel IH]; intros pos output; simpl.
  - destruct ((len output <? output_size) && (pos <? len data));
      [discriminate|].
    intros [= H <-]. lia.
  - destruct ((len output <? output_size) && (pos <? len data)).
    + destruct (rd data pos) as [byte| |]; simpl; [|discriminate..].
      destruct (u8 byte =? GG_RLE_ESCAPE).
      * destruct (pos + 1 + 1 >=? len data); [discriminate|].
        destruct (rd data (pos + 1)) as [value| |]; simpl; [|discriminate..].
        destruct (rd data (pos + 1 + 1)) as [count| |]; simpl;
          [|discriminate..].
        apply IH.
      * apply IH.
    + intros [= H <-]. lia.
Qed.

Lemma decompress_gg_success (data : list byte) (offset output_size : Z)
    (output out : list byte) :
  decompress_gg data offset output output_size = Ok (true, out) ->
  len out = output_size.
Proof.
  unfold decompress_gg. destruct (output_size >? _); [discriminate|].
  apply decompress_gg_loop_success.
Qed.

(** [decode_multicolor] depends on its three pointers only through the
    bytes at non-negative offsets. *)
Lemma decode_multicolor_ext {Surf : Type} `{!surface Surf}
    (b1 s1 c1 b2 s2 c2 : ptr) (background : byte) (surf : Surf) :
  (forall k, 0 <= k -> deref b1 k = deref b2 k) ->
  (forall k, 0 <= k -> deref s1 k = deref s2 k) ->
  (forall k, 0 <= k -> deref c1 k = deref c2 k) ->
  decode_multicolor b1 s1 c1 background surf
  = decode_multicolor b2 s2 c2 background surf.
Proof.
  intros Hb Hs Hc. unfold decode_multicolor.
  apply for_each_ext. intros y surf1 Hy.
  apply for_each_ext. intros x surf2 Hx.
  apply elem_of_seqZ in Hy, Hx.
  assert (0 <= y ÷ 8) by (apply Z.quot_pos; lia).
  assert (0 <= x ÷ 8) by (apply Z.quot_pos; lia).
  assert (0 <= Z.rem y 8) by (apply Z.rem_nonneg; lia).
  rewrite Hb by lia.
  destruct (deref b2 _) as [bitmap_byte| |]; simpl; [|reflexivity..].
  rewrite !Hs, !Hc by lia. reflexivity.
Qed.

Lemma rd_drop (p : list byte) (n k : Z) :
  0 <= n -> 0 <= k -> rd (drop (Z.to_nat n) p) k = rd p (n + k).
Proof.
  intros Hn Hk. unfold rd.
  destruct (Z.ltb_spec k 0); [lia|]. destruct (Z.ltb_spec (n + k) 0); [lia|].
  rewrite lookup_drop. rewrite Z2Nat.inj_add by lia. reflexivity.
Qed.

Lemma multicolor_offsets (x y : Z) :
  0 <= x < MULTICOLOR_WIDTH -> 0 <= y < MULTICOLOR_HEIGHT ->
  0 <= (y ÷ 8) * 40 + x ÷ 8 < 1000
  /\ 0 <= ((y ÷ 8) * 40 + x ÷ 8) * 8 + Z.rem y 8 < 8000.
Proof.
  unfold MULTICOLOR_WIDTH, MULTICOLOR_HEIGHT. intros Hx Hy.
  rewrite !Z.quot_div_nonneg, Z.rem_mod_nonneg by lia.
  Z.to_euclidean_division_equations. lia.
Qed.

Lemma decode_multicolor_inv {Surf : Type} `{!surface Surf}
    (P : Surf -> Prop) (bitmap screen_ram color_ram : ptr)
    (background : byte) (surf : Surf) :
  (forall k, 0 <= k < BITMAP_SIZE -> exists v, deref bitmap k = Ok v) ->
  (forall k, 0 <= k < SCREEN_RAM_SIZE -> exists v, deref screen_ram k = Ok v) ->
  (forall k, 0 <= k < COLOR_RAM_SIZE -> exists v, deref color_ram k = Ok v) ->
  (forall s x y rgb,
      P s -> exists s', write_rgb_pixel s x y rgb = Ok s' /\ P s') ->
  P surf ->
  exists surf',
    decode_multicolor bitmap screen_ram color_ram background surf = Ok surf'
    /\ P surf'.
Proof.
  intros Hb Hs Hc Hstep Hsurf. unfold decode_multicolor.
  apply for_each_inv; [exact Hsurf|]. intros y s1 Hy Hs1.
  apply for_each_inv; [exact Hs1|]. intros x s2 Hx Hs2.
  apply elem_of_seqZ in Hy, Hx.
  destruct (multicolor_offsets x y) as [Hco Hbo]; [lia..|].
  destruct (Hb _ Hbo) as [bitmap_byte ->]. simpl.
  destruct (Hs _ Hco) as [sv Hsv]. destruct (Hc _ Hco) as [cv Hcv].
  rewrite Hsv, Hcv.
  destruct (Z.land _ 3) as [|[[| |]|[| |]| ]|]; simpl; apply Hstep;
    exact Hs2.
Qed.

(** [write_rgb_pixel] hands [write_pixels] three bytes and asks for
    three. *)
Lemma write_rgb_pixel_total {Surf : Type} `{!surface Surf}
    (s : Surf) (x y rgb : Z) :
  exists s', write_rgb_pixel s x y rgb = Ok s'.
Proof.
  unfold write_rgb_pixel. apply write_pixels_reads_count.
  unfold RGB_BYTES, len. simpl. lia.
Qed.

Lemma write_pixels_fields (x y n : Z) (p : list byte)
    (s s' : memory_surface.t) :
  memory_surface.write_pixels x y n p s = Ok s' ->
  memory_surface.width_ s' = memory_surface.width_ s
  /\ memory_surface.height_ s' = memory_surface.height_ s
  /\ memory_surface.pitch_ s' = memory_surface.pitch_ s
  /\ memory_surface.format_ s' = memory_surface.format_ s
  /\ memory_surface.palette_ s' = memory_surface.palette_ s
  /\ memory_surface.subrects_ s' = memory_surface.subrects_ s.
Proof.
  unfold memory_surface.write_pixels.
  destruct (_ || _); [intros [= <-]; by repeat split|].
  destruct (_ >=? _); [intros [= <-]; by repeat split|].
  destruct (_ <=? _); [|intros [= <-]; by repeat split].
  destruct (memory_surface.memcpy _ _ _ _) as [out| |]; cbn [cbind];
    try discriminate.
  intros [= <-]. by repeat split.
Qed.

Lemma write_pixels_length (x y n : Z) (p : list byte)
    (s s' : memory_surface.t) :
  memory_surface.write_pixels x y n p s = Ok s' ->
  length (memory_surface.pixels_ s') = length (memory_surface.pixels_ s).
Proof.
  unfold memory_surface.write_pixels.
  destruct ((y <? 0) || _ || _ || _) eqn:E0; [by intros [= <-]|].
  repeat (apply orb_false_iff in E0 as [E0 ?]).
  destruct (x >=? _) eqn:E1; [by intros [= <-]|].
  destruct (_ + _ <=? _) eqn:E2; [|by intros [= <-]].
  destruct (memory_surface.memcpy _ _ _ _) as [out| |] eqn:Em; cbn [cbind];
    try discriminate.
  intros [= <-]. cbn [memory_surface.pixels_].
  eapply memcpy_length; [| |exact Em]; [nia|lia].
Qed.

Lemma write_rgb_pixel_koala_surface (s : memory_surface.t) (x y rgb : Z) :
  memory_surface.is_c64_surface s ->
  exists s', write_rgb_pixel s x y rgb = Ok s'
             /\ memory_surface.is_c64_surface s'.
Proof.
  intros (Hw & Hh & Hf & Hl).
  destruct (write_rgb_pixel_total s x y rgb) as [s' E].
  exists s'. split; [exact E|].
  unfold write_rgb_pixel in E.
  destruct (write_pixels_fields _ _ _ _ _ _ E) as (Ew & Eh & _ & Ef & _).
  apply write_pixels_length in E.
  unfold memory_surface.is_c64_surface. rewrite Ew, Eh, Ef, E.
  by repeat split.
Qed.

End koala_equivalence.

Section koala_theorem.
Import c64 koala.

Lemma is_gg_koala_large (data : list byte) :
  KOALA_SIZE_WITHOUT_ADDR <= len data -> is_gg_koala data = false.
Proof.
  intros H. unfold is_gg_koala.
  destruct ((len data <? 100) || _) eqn:E; [reflexivity|lia].
Qed.

Lemma decode_unfold {Surf : Type} `{!surface Surf}
    (data : list byte) (surf : Surf) (options : decode_options) :
  decode data surf options
  = if len data =? 0 then
      Ok (failure truncated_data "Koala file is empty", surf)
    else
      let! sel := select_layout data in
      match sel with
      | inl result => Ok (result, surf)
      | inr l =>
          decode_layout
            (if len (decompressed l) =? 0 then len data
             else len (decompressed l)) l surf options
      end.
Proof. reflexivity. Qed.

Lemma decode_gg {Surf : Type} `{!surface Surf}
    (gg payload : list byte) (surf : Surf) (options : decode_options) :
  is_gg_koala gg = true ->
  decompress_gg gg 2 [] KOALA_SIZE_WITHOUT_ADDR = Ok (true, payload) ->
  decode gg surf options
  = decode_layout KOALA_SIZE_WITHOUT_ADDR (gg_layout payload) surf options.
Proof.
  intros Hgg Hdec. rewrite decode_unfold.
  apply is_gg_koala_nonempty in Hgg as Hlen.
  apply decompress_gg_success in Hdec as Hpl.
  destruct (len gg =? 0) eqn:E0; [lia|].
  unfold select_layout. rewrite Hgg, Hdec. simpl.
  rewrite Hpl. reflexivity.
Qed.

Lemma decode_plain_10001 {Surf : Type} `{!surface Surf}
    (data : list byte) (surf : Surf) (options : decode_options) :
  len data = KOALA_SIZE_WITHOUT_ADDR ->
  decode data surf options
  = decode_layout KOALA_SIZE_WITHOUT_ADDR (plain_layout data 0) surf options.
Proof.
  intros Hlen. rewrite decode_unfold. unfold select_layout.
  rewrite is_gg_koala_large by lia. rewrite Hlen. reflexivity.
Qed.

Lemma decode_plain_10003 {Surf : Type} `{!surface Surf}
    (data : list byte) (surf : Surf) (options : decode_options) :
  len data = KOALA_SIZE_WITH_ADDR ->
  decode data surf options
  = decode_layout KOALA_SIZE_WITH_ADDR (plain_layout data 2) surf options.
Proof.
  intros Hlen. rewrite decode_unfold. unfold select_layout.
  rewrite is_gg_koala_large by (rewrite Hlen; discriminate).
  rewrite Hlen. reflexivity.
Qed.

Lemma decode_layout_shift {Surf : Type} `{!surface Surf}
    (data : list byte) (surf : Surf) (options : decode_options) :
  decode_layout KOALA_SIZE_WITHOUT_ADDR (gg_layout (drop 2 data)) surf options
  = decode_layout KOALA_SIZE_WITH_ADDR (plain_layout data 2) surf options.
Proof.
  unfold decode_layout.
  cbn [gg_layout plain_layout source_data background_offset bitmap_offset
       screen_offset color_offset].
  destruct (_ <? _); [reflexivity|].
  destruct (_ || _); [reflexivity|].
  destruct (set_size _ _ _ surf) as [allocated surf1].
  destruct (negb allocated); [reflexivity|].
  change (drop 2 data) with (drop (Z.to_nat 2) data).
  assert (Hrd : forall k, 0 <= k -> rd (drop (Z.to_nat 2) data) k = rd data (2 + k))
    by (intros; apply rd_drop; lia).
  rewrite Hrd by (vm_compute; discriminate).
  replace (2 + (BITMAP_SIZE + SCREEN_RAM_SIZE + COLOR_RAM_SIZE))
    with (2 + BITMAP_SIZE + SCREEN_RAM_SIZE + COLOR_RAM_SIZE) by ring.
  destruct (rd data _) as [background| |]; simpl; [|reflexivity..].
  rewrite (decode_multicolor_ext
             {| base := drop (Z.to_nat 2) data; off := 0 |}
             {| base := drop (Z.to_nat 2) data; off := BITMAP_SIZE |}
             {| base := drop (Z.to_nat 2) data;
                off := BITMAP_SIZE + SCREEN_RAM_SIZE |}
             {| base := data; off := 2 |}
             {| base := data; off := 2 + BITMAP_SIZE |}
             {| base := data; off := 2 + BITMAP_SIZE + SCREEN_RAM_SIZE |});
    [reflexivity|..];
    intros k Hk; unfold deref; cbn [base off];
    (rewrite Hrd by (unfold BITMAP_SIZE, SCREEN_RAM_SIZE; lia));
    f_equal; lia.
Qed.

Lemma set_size_koala (surf : memory_surface.t) :
  exists surf1,
    memory_surface.set_size true MULTICOLOR_WIDTH MULTICOLOR_HEIGHT rgb888
      surf
    = (true, surf1)
    /\ memory_surface.is_c64_surface surf1.
Proof.
  eexists. split.
  { unfold memory_surface.set_size. cbn [negb]. rewrite andb_false_r.
    reflexivity. }
  unfold memory_surface.is_c64_surface. cbn [memory_surface.width_ memory_surface.height_
    memory_surface.format_ memory_surface.pixels_].
  rewrite length_replicate. repeat split; reflexivity.
Qed.

Lemma decode_layout_memory (available_size : Z) (l : layout)
    (surf : memory_surface.t) (options : decode_options) :
  background_offset l + 1 <= available_size ->
  (max_width options <= 0 \/ 320 <= max_width options) ->
  (max_height options <= 0 \/ 200 <= max_height options) ->
  (forall k, 0 <= k < BITMAP_SIZE ->
     exists v, rd (source_data l) (bitmap_offset l + k) = Ok v) ->
  (forall k, 0 <= k < SCREEN_RAM_SIZE ->
     exists v, rd (source_data l) (screen_offset l + k) = Ok v) ->
  (forall k, 0 <= k < COLOR_RAM_SIZE ->
     exists v, rd (source_data l) (color_offset l + k) = Ok v) ->
  (exists v, rd (source_data l) (background_offset l) = Ok v) ->
  exists surf',
    decode_layout available_size l surf options = Ok (success, surf')
    /\ memory_surface.is_c64_surface surf'.
Proof.
  intros Hav Hw Hh Hb Hs Hc [bg Hbg]. unfold decode_layout.
  destruct (available_size <? _) eqn:E; [lia|].
  destruct (_ || _) eqn:E1.
  { unfold MULTICOLOR_WIDTH, MULTICOLOR_HEIGHT in E1.
    destruct (max_width options >? 0) eqn:?, (max_height options >? 0) eqn:?;
      lia. }
  destruct (set_size_koala surf) as (surf1 & Hset & Hsurf1).
  change (@set_size memory_surface.t _)
    with (memory_surface.set_size true).
  rewrite Hset. cbn [negb]. rewrite Hbg. cbn [cbind].
  destruct (decode_multicolor_inv memory_surface.is_c64_surface
              {| base := source_data l; off := bitmap_offset l |}
              {| base := source_data l; off := screen_offset l |}
              {| base := source_data l; off := color_offset l |} bg surf1)
    as (surf' & E2 & Hsurf'); [exact Hb|exact Hs|exact Hc| |exact Hsurf1|].
  - intros. by apply write_rgb_pixel_koala_surface.
  - exists surf'. rewrite E2. by split.
Qed.

Lemma rd_within (p : list byte) (lo k n : Z) :
  0 <= lo -> 0 <= k < n -> lo + n <= len p -> exists v, rd p (lo + k) = Ok v.
Proof. intros. apply rd_in_range. lia. Qed.

Lemma decode_gg_layout_memory (payload : list byte)
    (surf : memory_surface.t) (options : decode_options) :
  len payload = KOALA_SIZE_WITHOUT_ADDR ->
  (max_width options <= 0 \/ 320 <= max_width options) ->
  (max_height options <= 0 \/ 200 <= max_height options) ->
  exists surf',
    decode_layout KOALA_SIZE_WITHOUT_ADDR (gg_layout payload) surf options
    = Ok (success, surf')
    /\ memory_surface.is_c64_surface surf'.
Proof.
  intros Hlen Hw Hh.
  apply decode_layout_memory; try assumption;
    cbn [gg_layout source_data background_offset bitmap_offset screen_offset
         color_offset];
    unfold KOALA_SIZE_WITHOUT_ADDR, BITMAP_SIZE, SCREEN_RAM_SIZE,
      COLOR_RAM_SIZE in *.
  - lia.
  - intros k Hk. apply rd_in_range. lia.
  - intros k Hk. apply rd_in_range. lia.
  - intros k Hk. apply rd_in_range. lia.
  - apply rd_in_range. lia.
Qed.

(** C1.  Let [gg] be a GG-compressed Koala input whose decompressed
    payload equals the payload (the bytes after any load address) of an
    uncompressed Koala input [unc].  Then [koala_decoder::decode] behaves
    identically on both, for every surface implementation, surface state
    and options; and on a [memory_surface], when the limits admit 320x200,
    both decodes succeed with the same surface, which is 320x200, rgb888,
    with a pixel buffer of 192000 bytes. *)
Theorem koala_gg_matches_uncompressed (gg unc payload : list byte) :
  is_gg_koala gg = true ->
  decompress_gg gg 2 [] KOALA_SIZE_WITHOUT_ADDR = Ok (true, payload) ->
  is_uncompressed_koala unc = true ->
  uncompressed_payload unc = payload ->
  (forall (Surf : Type) `{!surface Surf} (surf : Surf) options,
      decode gg surf options = decode unc surf options)
  /\ (forall (surf : memory_surface.t) options,
        (max_width options <= 0 \/ 320 <= max_width options) ->
        (max_height options <= 0 \/ 200 <= max_height options) ->
        exists surf',
          decode gg surf options = Ok (success, surf')
          /\ decode unc surf options = Ok (success, surf')
          /\ memory_surface.width_ surf' = 320
          /\ memory_surface.height_ surf' = 200
          /\ memory_surface.format_ surf' = rgb888
          /\ Z.of_nat (length (memory_surface.pixels_ surf')) = 192000).
Proof.
  intros Hgg Hdec Hunc Hpayload.
  apply decompress_gg_success in Hdec as Hlen.
  assert (Heq : forall (Surf : Type) `{!surface Surf} (surf : Surf) options,
             decode gg surf options = decode unc surf options).
  { intros Surf ? surf options.
    rewrite (decode_gg gg payload) by assumption.
    unfold uncompressed_payload in Hpayload.
    destruct (len unc =? KOALA_SIZE_WITHOUT_ADDR) eqn:E.
    - subst payload. rewrite decode_plain_10001 by lia. reflexivity.
    - assert (Hlen' : len unc = KOALA_SIZE_WITH_ADDR).
      { subst payload. unfold len in *. rewrite length_drop in Hlen.
        unfold KOALA_SIZE_WITH_ADDR, KOALA_SIZE_WITHOUT_ADDR in *. lia. }
      subst payload. rewrite decode_plain_10003 by assumption.
      apply decode_layout_shift. }
  split; [exact Heq|].
  intros surf options Hw Hh.
  destruct (decode_gg_layout_memory payload surf options Hlen Hw Hh)
    as (surf' & E & Hw' & Hh' & Hf' & Hl').
  exists surf'. rewrite <- Heq.
  rewrite (decode_gg gg payload) by assumption.
  by repeat split.
Qed.

End koala_theorem.

(** C1 on a 122-byte GG stream (forty runs of the byte [01]) and the
    10003-byte uncompressed file with the same payload. *)
Lemma koala_gg_matches_uncompressed_witness :
  koala.is_gg_koala koala.gg_example = true
  /\ koala.is_uncompressed_koala koala.koa_example = true
  /\ koala.decode koala.gg_example memory_surface.empty default_options
     = koala.decode koala.koa_example memory_surface.empty default_options
  /\ exists surf',
       koala.decode koala.gg_example memory_surface.empty default_options
       = Ok (success, surf')
       /\ memory_surface.width_ surf' = 320
       /\ memory_surface.height_ surf' = 200
       /\ memory_surface.format_ surf' = rgb888.
Proof.
  assert (H1 : koala.is_gg_koala koala.gg_example = true) by (vm_compute; reflexivity).
  assert (H2 : koala.decompress_gg koala.gg_example 2 [] koala.KOALA_SIZE_WITHOUT_ADDR
               = Ok (true, replicate (Z.to_nat 10001) x01))
    by (vm_compute; reflexivity).
  assert (H3 : koala.is_uncompressed_koala koala.koa_example = true)
    by (vm_compute; reflexivity).
  assert (H4 : koala.uncompressed_payload koala.koa_example
               = replicate (Z.to_nat 10001) x01)
    by (vm_compute; reflexivity).
  destruct (koala_gg_matches_uncompressed koala.gg_example koala.koa_example _ H1 H2 H3 H4)
    as [Heq Hmem].
  split; [exact H1|]. split; [exact H3|]. split; [apply Heq|].
  destruct (Hmem memory_surface.empty default_options)
    as (surf' & E1 & _ & Hw & Hh & Hf & _);
    [right; simpl; lia|right; simpl; lia|].
  exists surf'. exact (conj E1 (conj Hw (conj Hh Hf))).
Defined.

(** C1 does not hold for every GG stream.  The stream of [gg_example]
    under the load address 0x0801 decompresses to the payload of the
    uncompressed file [koa_example], but [is_gg_koala] does not recognise
    it: [koala_decoder::decode] rejects it with [invalid_format] and
    leaves the surface empty, while the uncompressed file decodes to a
    320x200 rgb888 surface of 192000 bytes. *)
Lemma koala_gg_matches_uncompressed_counterexample :
  koala.decompress_gg koala.gg_unrecognised_example 2 []
    koala.KOALA_SIZE_WITHOUT_ADDR
  = Ok (true, koala.uncompressed_payload koala.koa_example)
  /\ koala.is_uncompressed_koala koala.koa_example = true
  /\ koala.decode koala.gg_unrecognised_example memory_surface.empty
       default_options
     = Ok (failure invalid_format "Unrecognized Koala file size",
           memory_surface.empty)
  /\ (exists surf',
        koala.decode koala.koa_example memory_surface.empty default_options
        = Ok (success, surf')
        /\ memory_surface.width_ surf' = 320
        /\ memory_surface.height_ surf' = 200
        /\ memory_surface.format_ surf' = rgb888
        /\ Z.of_nat (length (memory_surface.pixels_ surf')) = 192000)
  /\ koala.decode koala.gg_unrecognised_example memory_surface.empty
       default_options
     <> koala.decode koala.koa_example memory_surface.empty default_options.
Proof.
  assert (Hgg : koala.decode koala.gg_unrecognised_example
                  memory_surface.empty default_options
                = Ok (failure invalid_format "Unrecognized Koala file size",
                      memory_surface.empty))
    by (vm_compute; reflexivity).
  assert (Hplain : forall data,
             len data = 10003 ->
             exists surf',
               koala.decode data memory_surface.empty default_options
               = Ok (success, surf')
               /\ memory_surface.is_c64_surface surf').
  { intros data Hlen. rewrite decode_plain_10003 by exact Hlen.
    apply decode_layout_memory;
      cbn [koala.plain_layout koala.source_data koala.background_offset
           koala.bitmap_offset koala.screen_offset koala.color_offset];
      unfold koala.KOALA_SIZE_WITH_ADDR, c64.BITMAP_SIZE,
        c64.SCREEN_RAM_SIZE, c64.COLOR_RAM_SIZE in *.
    - lia.
    - right. vm_compute. congruence.
    - right. vm_compute. congruence.
    - intros k Hk. apply rd_in_range. lia.
    - intros k Hk. apply rd_in_range. lia.
    - intros k Hk. apply rd_in_range. lia.
    - apply rd_in_range. lia. }
  destruct (Hplain koala.koa_example) as (surf' & Ekoa & Hw & Hh & Hf & Hl);
    [vm_compute; reflexivity|].
  split; [vm_compute; reflexivity|].
  split; [vm_compute; reflexivity|].
  split; [exact Hgg|].
  split.
  { exists surf'. exact (conj Ekoa (conj Hw (conj Hh (conj Hf Hl)))). }
  rewrite Hgg, Ekoa. discriminate.
Qed.

(* ===================================================================== *)
(** ** The registry dispatches to the first decoder that claims the data *)
(* ===================================================================== *)

Section registry_dispatch.
Import codec.
Context {Surf : Type} `{!surface Surf}.

Lemma find_decoder_first (pre post : @codec_registry Surf)
    (dec : @decoder Surf)
    (data : list byte) :
  Forall (fun d => sniff d data = Ok false) pre ->
  sniff dec data = Ok true ->
  find_decoder (pre ++ dec :: post) data = Ok (Some dec).
Proof.
  intros Hpre Hdec. induction Hpre as [|d pre Hd _ IH]; simpl.
  - rewrite Hdec. reflexivity.
  - rewrite Hd. simpl. exact IH.
Qed.

Lemma find_decoder_none (registry : @codec_registry Surf)
    (data : list byte) :
  Forall (fun d => sniff d data = Ok false) registry ->
  find_decoder registry data = Ok None.
Proof.
  intros H. induction H as [|d registry Hd _ IH]; simpl; [reflexivity|].
  rewrite Hd. simpl. exact IH.
Qed.

(** C4.  The auto-detecting [decode] runs the first decoder, in
    registration order, whose [sniff] accepts the bytes: a decoder
    preceded only by decoders that reject the data is the one found and
    the one whose [decode] produces the result, whatever follows it.
    When every registered decoder rejects the data, the result is
    [invalid_format] and the surface is returned as it was: no decoder's
    [decode] contributes to the outcome. *)
Theorem registry_first_match (registry : @codec_registry Surf)
    (data : list byte) (surf : Surf) (options : decode_options) :
  (forall pre dec post,
      registry = pre ++ dec :: post ->
      Forall (fun d => sniff d data = Ok false) pre ->
      sniff dec data = Ok true ->
      find_decoder registry data = Ok (Some dec)
      /\ decode_auto registry data surf options
         = decode dec data surf options)
  /\ (Forall (fun d => sniff d data = Ok false) registry ->
      find_decoder registry data = Ok None
      /\ decode_auto registry data surf options
         = Ok (failure invalid_format "Unknown image format", surf)).
Proof.
  split.
  - intros pre dec post -> Hpre Hdec.
    pose proof (find_decoder_first pre post dec data Hpre Hdec) as Hfind.
    split; [exact Hfind|]. unfold decode_auto. rewrite Hfind. reflexivity.
  - intros Hall. pose proof (find_decoder_none registry data Hall) as Hfind.
    split; [exact Hfind|]. unfold decode_auto. rewrite Hfind. reflexivity.
Qed.

End registry_dispatch.

(** C4 on an input that both the Koala and the DrazLace decoder claim:
    Koala, registered first, decodes it. *)
Lemma registry_first_match_witness :
  let registry :=
    @codec.modelled_codecs memory_surface.t _ codec.lodepng_rejects in
  let koala := @codec.koala_decoder_impl memory_surface.t _ in
  let drazlace := @codec.drazlace_decoder_impl memory_surface.t _ in
  codec.sniff koala codec.ambiguous_example = Ok true
  /\ codec.sniff drazlace codec.ambiguous_example = Ok true
  /\ codec.find_decoder registry codec.ambiguous_example = Ok (Some koala)
  /\ codec.decode_auto registry codec.ambiguous_example memory_surface.empty
       default_options
     = codec.decode koala codec.ambiguous_example memory_surface.empty
         default_options.
Proof.
  intros registry koala drazlace.
  assert (Hk : codec.sniff koala codec.ambiguous_example = Ok true)
    by (vm_compute; reflexivity).
  assert (Hd : codec.sniff drazlace codec.ambiguous_example = Ok true)
    by (vm_compute; reflexivity).
  set (pre := [@codec.png_decoder_impl memory_surface.t _
                  codec.lodepng_rejects;
                @codec.qoi_decoder_impl memory_surface.t _;
                @codec.ico_decoder_impl memory_surface.t _
                  codec.lodepng_rejects]).
  assert (Hpre : Forall (fun d => codec.sniff d codec.ambiguous_example
                                  = Ok false) pre)
    by (repeat constructor; vm_compute; reflexivity).
  destruct (registry_first_match registry codec.ambiguous_example
              memory_surface.empty default_options) as [Hfirst _].
  pose proof (Hfirst pre koala [drazlace] eq_refl Hpre Hk) as Hdispatch.
  exact (conj Hk (conj Hd Hdispatch)).
Defined.

(* ===================================================================== *)
(** * Further properties of the modelled code *)
(* ===================================================================== *)

(* ===================================================================== *)
(** ** memory_surface: what each operation changes *)
(* ===================================================================== *)

Section memory_surface_facts.
Import memory_surface.

Lemma set_size_accepts (w h : Z) (f : pixel_format) (s : t) :
  0 < w <= INT_MAX -> 0 < h <= INT_MAX ->
  w * bytes_per_pixel f * h <= MAX_BUFFER_SIZE ->
  set_size true w h f s
  = (true,
     {| pixels_ := replicate (Z.to_nat (w * bytes_per_pixel f * h)) x00;
        palette_ := []; subrects_ := [];
        width_ := w; height_ := h; pitch_ := w * bytes_per_pixel f;
        format_ := f |}).
Proof.
  intros Hw Hh Hsz. unfold INT_MAX in *.
  assert (Hbpp : 1 <= bytes_per_pixel f <= 4) by (destruct f; simpl; lia).
  assert (Hmax : SIZE_MAX = 18446744073709551615) by reflexivity.
  assert (Hbuf : MAX_BUFFER_SIZE = 1073741824) by reflexivity.
  unfold set_size.
  destruct ((w <=? 0) || (h <=? 0)) eqn:E0; [lia|].
  assert (w <= SIZE_MAX / bytes_per_pixel f).
  { apply Z.div_le_lower_bound; [lia|]. rewrite Hmax. nia. }
  assert (w * bytes_per_pixel f <= SIZE_MAX / h).
  { apply Z.div_le_lower_bound; [lia|]. rewrite Hmax. nia. }
  destruct (w >? SIZE_MAX / bytes_per_pixel f) eqn:E1; [lia|].
  destruct (w * bytes_per_pixel f >? SIZE_MAX / h) eqn:E2; [lia|].
  destruct (w * bytes_per_pixel f * h >? MAX_BUFFER_SIZE) eqn:E3; [lia|].
  cbn [negb]. rewrite andb_false_r. reflexivity.
Qed.

(** X1.  [set_size] on [int] arguments.  It refuses, leaving the
    surface as it was, exactly when a dimension is not positive or the
    buffer would need more than 1 GiB (the [size_t] overflow guards
    never fire).  Otherwise the outcome is that of the allocation: when
    the buffer need not grow or the heap grants the request, it succeeds
    with a zero-filled buffer of width*bpp*height bytes, pitch width*bpp
    and cleared palette and sub-rectangles; when the buffer has to grow
    and the request throws [std::bad_alloc], it returns false with the
    new width, height, format and pitch already stored and the pixel
    buffer, palette and sub-rectangles as before. *)
Theorem set_size_outcome (allocated : bool) (w h : Z) (f : pixel_format)
    (s : t) :
  w <= INT_MAX -> h <= INT_MAX ->
  (w <= 0 \/ h <= 0 \/ w * bytes_per_pixel f * h > MAX_BUFFER_SIZE ->
   set_size allocated w h f s = (false, s))
  /\ (0 < w /\ 0 < h /\ w * bytes_per_pixel f * h <= MAX_BUFFER_SIZE ->
      (allocated = true
       \/ w * bytes_per_pixel f * h <= Z.of_nat (length (pixels_ s)) ->
       set_size allocated w h f s
       = (true,
          {| pixels_ := replicate (Z.to_nat (w * bytes_per_pixel f * h)) x00;
             palette_ := []; subrects_ := [];
             width_ := w; height_ := h; pitch_ := w * bytes_per_pixel f;
             format_ := f |}))
      /\ (allocated = false
          /\ Z.of_nat (length (pixels_ s)) < w * bytes_per_pixel f * h ->
          set_size allocated w h f s
          = (false,
             {| pixels_ := pixels_ s; palette_ := palette_ s;
                subrects_ := subrects_ s;
                width_ := w; height_ := h; pitch_ := w * bytes_per_pixel f;
                format_ := f |}))).
Proof.
  intros Hw Hh. unfold INT_MAX in *.
  assert (Hbpp : 1 <= bytes_per_pixel f <= 4) by (destruct f; simpl; lia).
  assert (Hmax : SIZE_MAX = 18446744073709551615) by reflexivity.
  assert (Hbuf : MAX_BUFFER_SIZE = 1073741824) by reflexivity.
  unfold set_size. split.
  - intros Hbad.
    destruct ((w <=? 0) || (h <=? 0)) eqn:E0; [reflexivity|].
    destruct (w >? SIZE_MAX / bytes_per_pixel f) eqn:E1; [reflexivity|].
    destruct (w * bytes_per_pixel f >? SIZE_MAX / h) eqn:E2; [reflexivity|].
    destruct (w * bytes_per_pixel f * h >? MAX_BUFFER_SIZE) eqn:E3;
      [reflexivity|lia].
  - intros (Hw0 & Hh0 & Hsz).
    destruct ((w <=? 0) || (h <=? 0)) eqn:E0; [lia|].
    assert (w <= SIZE_MAX / bytes_per_pixel f).
    { apply Z.div_le_lower_bound; [lia|]. rewrite Hmax. nia. }
    assert (w * bytes_per_pixel f <= SIZE_MAX / h).
    { apply Z.div_le_lower_bound; [lia|]. rewrite Hmax. nia. }
    destruct (w >? SIZE_MAX / bytes_per_pixel f) eqn:E1; [lia|].
    destruct (w * bytes_per_pixel f >? SIZE_MAX / h) eqn:E2; [lia|].
    destruct (w * bytes_per_pixel f * h >? MAX_BUFFER_SIZE) eqn:E3; [lia|].
    cbn [pixels_]. split.
    + intros Hgrant.
      destruct ((w * bytes_per_pixel f * h >? Z.of_nat (length (pixels_ s)))
                && negb allocated) eqn:E4; [|reflexivity].
      destruct Hgrant as [-> | Hfit];
        [cbn [negb] in E4; rewrite andb_false_r in E4; discriminate|lia].
    + intros [-> Hgrow]. cbn [negb].
      destruct (w * bytes_per_pixel f * h >? Z.of_nat (length (pixels_ s)))
        eqn:E4; [reflexivity|lia].
Qed.

Lemma set_size_outcome_witness :
  set_size true 2 3 rgb888 empty
  = (true,
     {| pixels_ := replicate 18 x00; palette_ := []; subrects_ := [];
        width_ := 2; height_ := 3; pitch_ := 6; format_ := rgb888 |})
  /\ set_size true 32768 32769 indexed8 empty = (false, empty)
  /\ set_size false 2 3 rgb888 empty
     = (false,
        {| pixels_ := []; palette_ := []; subrects_ := [];
           width_ := 2; height_ := 3; pitch_ := 6; format_ := rgb888 |}).
Proof.
  split; [|split].
  - apply (set_size_outcome true 2 3 rgb888 empty);
      [vm_compute; congruence..| |by left].
    vm_compute. repeat split; congruence.
  - apply (set_size_outcome true 32768 32769 indexed8 empty);
      [vm_compute; congruence..|].
    right. right. vm_compute. reflexivity.
  - apply (set_size_outcome false 2 3 rgb888 empty);
      [vm_compute; congruence..| |].
    + vm_compute. repeat split; congruence.
    + split; [reflexivity|]. vm_compute. reflexivity.
Defined.

Lemma memcpy_lookup_outside (dst src out : list byte) (offset n : Z)
    (i : nat) :
  0 <= offset -> 0 <= n ->
  memcpy dst offset src n = Ok out ->
  Z.of_nat i < offset \/ offset + n <= Z.of_nat i ->
  out !! i = dst !! i.
Proof.
  intros Ho Hn E Hi. apply memcpy_Ok_inv in E as (Hs & Hd & ->).
  unfold len in *. destruct Hi as [Hi|Hi].
  - rewrite lookup_app_l by (rewrite length_take; lia).
    apply lookup_take_lt. lia.
  - rewrite lookup_app_r by (rewrite length_take; lia).
    rewrite lookup_app_r by (rewrite !length_take; lia).
    rewrite lookup_drop, !length_take. f_equal. lia.
Qed.

Lemma memcpy_lookup_inside (dst src out : list byte) (offset n : Z)
    (k : nat) :
  0 <= offset -> 0 <= n ->
  memcpy dst offset src n = Ok out ->
  Z.of_nat k < n ->
  out !! (Z.to_nat offset + k)%nat = src !! k.
Proof.
  intros Ho Hn E Hk. apply memcpy_Ok_inv in E as (Hs & Hd & ->).
  unfold len in *.
  rewrite lookup_app_r by (rewrite length_take; lia).
  rewrite lookup_app_l by (rewrite !length_take; lia).
  rewrite length_take.
  replace (Z.to_nat offset + k - Z.to_nat offset `min` length dst)%nat
    with k by lia.
  apply lookup_take_lt. lia.
Qed.

(** X2.  [write_pixels] on a source of at least [count] bytes stays
    inside it and is confined to row [y]: it changes no byte outside the
    bytes [x .. x + min(count, pitch - x) - 1] of that row (so it never
    runs past the end of the row, whatever [count] says), keeps the
    buffer length, and the bytes it does write are the first bytes of the
    source. *)
Theorem write_pixels_confined (x y count : Z) (pixels : list byte) (s : t) :
  count <= Z.of_nat (length pixels) ->
  exists s',
    write_pixels x y count pixels s = Ok s'
    /\ let n := Z.min count (pitch_ s - x) in
       length (pixels_ s') = length (pixels_ s)
       /\ (forall i : nat,
             pixels_ s' !! i <> pixels_ s !! i ->
             0 <= y < height_ s /\ 0 <= x
             /\ y * pitch_ s + x <= Z.of_nat i < y * pitch_ s + x + n
             /\ Z.of_nat i < (y + 1) * pitch_ s)
       /\ (0 <= y < height_ s -> 0 <= x < pitch_ s -> 0 < count ->
           y * pitch_ s + x + n <= Z.of_nat (length (pixels_ s)) ->
           forall k : nat,
             Z.of_nat k < n ->
             pixels_ s' !! (Z.to_nat (y * pitch_ s + x) + k)%nat
             = pixels !! k).
Proof.
  intros Hp.
  destruct (write_pixels_reads_count x y count pixels s Hp) as [s' E].
  exists s'. split; [exact E|]. cbv zeta.
  unfold write_pixels in E.
  destruct ((y <? 0) || (y >=? height_ s) || (x <? 0) || (count <=? 0)) eqn:E0.
  { injection E as <-.
    split; [reflexivity|]. split; [intros i Hi; by destruct Hi|]. lia. }
  repeat (apply orb_false_iff in E0 as [E0 ?]).
  destruct (x >=? pitch_ s) eqn:E1.
  { injection E as <-.
    split; [reflexivity|]. split; [intros i Hi; by destruct Hi|]. lia. }
  destruct (_ + _ <=? _) eqn:E2.
  - destruct (memcpy _ _ _ _) as [out| |] eqn:Em; cbn [cbind] in E;
      try discriminate.
    injection E as <-. cbn [pixels_ pitch_ height_].
    assert (Hoff : 0 <= y * pitch_ s + x) by nia.
    assert (Hn : 0 <= Z.min count (pitch_ s - x)) by lia.
    split; [exact (memcpy_length _ _ _ _ _ Hoff Hn Em)|]. split.
    + intros i Hi.
      destruct (Z.lt_ge_cases (Z.of_nat i) (y * pitch_ s + x)) as [Hlt|Hge].
      { exfalso. apply Hi.
        apply (memcpy_lookup_outside _ _ _ _ _ _ Hoff Hn Em). lia. }
      destruct (Z.lt_ge_cases (Z.of_nat i)
                  (y * pitch_ s + x + Z.min count (pitch_ s - x)))
        as [Hlt2|Hge2].
      * repeat split; try lia.
      * exfalso. apply Hi.
        apply (memcpy_lookup_outside _ _ _ _ _ _ Hoff Hn Em). lia.
    + intros _ _ _ _ k Hk.
      apply (memcpy_lookup_inside _ _ _ _ _ _ Hoff Hn Em). lia.
  - injection E as <-.
    split; [reflexivity|]. split; [intros i Hi; by destruct Hi|]. lia.
Qed.

Lemma write_pixels_confined_witness :
  let s := snd (set_size true 2 2 rgb888 empty) in
  exists s',
    write_pixels 3 0 100 (replicate 100 xff) s = Ok s'
    /\ pixels_ s'
       = [x00; x00; x00; xff; xff; xff; x00; x00; x00; x00; x00; x00]
    /\ length (pixels_ s') = length (pixels_ s).
Proof.
  intros s.
  destruct (write_pixels_confined 3 0 100 (replicate 100 xff) s)
    as (s' & E & Hl & _); [vm_compute; congruence|].
  exists s'. split; [exact E|]. split; [|exact Hl].
  vm_compute in E. injection E as <-. reflexivity.
Defined.

(** [write_pixel] stores one palette index of an indexed8 surface and is
    a no-operation on every other format and outside the image. *)
Theorem write_pixel_outcome (x y : Z) (pixel : byte) (s : t) :
  (format_ s = indexed8 -> 0 <= x < width_ s -> 0 <= y < height_ s ->
   0 <= pitch_ s -> y * pitch_ s + x < Z.of_nat (length (pixels_ s)) ->
   pixels_ (write_pixel x y pixel s) !! Z.to_nat (y * pitch_ s + x)
     = Some pixel
   /\ forall i : nat, i <> Z.to_nat (y * pitch_ s + x) ->
        pixels_ (write_pixel x y pixel s) !! i = pixels_ s !! i)
  /\ (format_ s <> indexed8 \/ x < 0 \/ width_ s <= x \/ y < 0
      \/ height_ s <= y ->
      write_pixel x y pixel s = s).
Proof.
  unfold write_pixel. split.
  - intros Hf Hx Hy Hp Hlen. rewrite Hf. cbn [pixel_format_eqb negb].
    destruct ((x <? 0) || (x >=? width_ s) || (y <? 0) || (y >=? height_ s))
      eqn:E0; [lia|].
    destruct (y * pitch_ s + x <? Z.of_nat (length (pixels_ s))) eqn:E1;
      [|lia].
    cbn [pixels_]. split.
    + apply list_lookup_insert_eq. nia.
    + intros i Hi. apply list_lookup_insert_ne. congruence.
  - intros Hbad.
    destruct ((x <? 0) || (x >=? width_ s) || (y <? 0) || (y >=? height_ s))
      eqn:E0; [reflexivity|].
    destruct (format_ s); cbn [pixel_format_eqb negb]; try reflexivity.
    destruct Hbad as [Hbad|Hbad]; [congruence|lia].
Qed.

Lemma write_pixel_outcome_witness :
  let s := snd (set_size true 2 2 indexed8 empty) in
  pixels_ (write_pixel 1 1 x07 s) !! 3%nat = Some x07
  /\ write_pixel 1 1 x07 (snd (set_size true 2 2 rgb888 empty))
     = snd (set_size true 2 2 rgb888 empty).
Proof.
  intros s. split.
  - apply (write_pixel_outcome 1 1 x07 s); vm_compute;
      repeat split; congruence.
  - apply (write_pixel_outcome 1 1 x07
             (snd (set_size true 2 2 rgb888 empty))).
    left. vm_compute. congruence.
Defined.

End memory_surface_facts.

Section memory_surface_tables.
Import memory_surface.

(** [set_subrect] with a non-negative index stores the record at that
    index, growing the list with default records when needed and keeping
    every other record; a negative index is ignored. *)
Theorem set_subrect_lookup (index : Z) (sr : subrect) (s : t) :
  (0 <= index ->
   subrects_ (set_subrect index sr s) !! Z.to_nat index = Some sr
   /\ length (subrects_ (set_subrect index sr s))
      = Nat.max (length (subrects_ s)) (S (Z.to_nat index))
   /\ (forall j : nat, j <> Z.to_nat index ->
         subrects_ (set_subrect index sr s) !! j
         = if decide (j < length (subrects_ s))%nat then subrects_ s !! j
           else if decide (j < Z.to_nat index)%nat then Some subrect_default
           else None))
  /\ (index < 0 -> set_subrect index sr s = s).
Proof.
  unfold set_subrect. split.
  - intros Hi. destruct (index <? 0) eqn:E0; [lia|]. cbn [subrects_].
    destruct (index >=? Z.of_nat (length (subrects_ s))) eqn:E1.
    + assert (Hlen : length (resize_subrects (subrects_ s)
                               (Z.to_nat (index + 1)))
                     = S (Z.to_nat index)).
      { unfold resize_subrects.
        rewrite length_app, length_take, length_replicate. lia. }
      split; [apply list_lookup_insert_eq; lia|].
      split; [rewrite length_insert, Hlen; lia|].
      intros j Hj. rewrite list_lookup_insert_ne by congruence.
      unfold resize_subrects.
      rewrite take_ge by lia.
      destruct (decide (j < length (subrects_ s))%nat) as [Hlt|Hge].
      * apply lookup_app_l. exact Hlt.
      * rewrite lookup_app_r by lia.
        destruct (decide (j < Z.to_nat index)%nat) as [Hlt2|Hge2].
        -- apply lookup_replicate_2. lia.
        -- apply lookup_ge_None. rewrite length_replicate. lia.
    + split; [apply list_lookup_insert_eq; lia|].
      split; [rewrite length_insert; lia|].
      intros j Hj. rewrite list_lookup_insert_ne by congruence.
      destruct (decide (j < length (subrects_ s))%nat) as [Hlt|Hge];
        [reflexivity|].
      destruct (decide (j < Z.to_nat index)%nat) as [Hlt2|Hge2]; [lia|].
      apply lookup_ge_None. lia.
  - intros Hi. destruct (index <? 0) eqn:E0; [reflexivity|lia].
Qed.

Lemma set_subrect_lookup_witness :
  let sr := {| rect := {| rect_x := 0; rect_y := 4; rect_w := 2; rect_h := 2 |};
               kind := frame; user_tag := 2 |} in
  subrects_ (set_subrect 2 sr empty) = [subrect_default; subrect_default; sr]
  /\ subrects_ (set_subrect 2 sr empty) !! 2%nat = Some sr.
Proof.
  intros sr. split; [reflexivity|].
  apply (set_subrect_lookup 2 sr empty). lia.
Defined.

(** X3.  [set_palette_size n] followed by [write_palette 0 colors] leaves a
    palette of exactly 3n bytes: the first 3n colour bytes, zero-padded
    when fewer are supplied.  Colours beyond the palette are dropped. *)
Theorem palette_round_trip (n : Z) (colors : list byte) (s : t) :
  0 < n <= 256 -> colors <> [] ->
  exists s',
    write_palette 0 colors (set_palette_size n s) = Ok s'
    /\ palette_ s'
       = take (Z.to_nat (3 * n)) colors
         ++ replicate (Z.to_nat (3 * n) - length colors) x00.
Proof.
  intros Hn Hc. unfold set_palette_size.
  destruct ((n <=? 0) || (n >? 256)) eqn:E0; [lia|].
  unfold write_palette. cbn [palette_].
  assert (Hlen : length colors <> 0%nat) by (destruct colors; simpl; congruence).
  destruct ((0 <? 0) || (length colors =? 0)%nat) eqn:E1.
  { apply orb_true_iff in E1 as [E1|E1]; [lia|].
    apply Nat.eqb_eq in E1. congruence. }
  rewrite length_replicate.
  destruct (0 * 3 >=? Z.of_nat (Z.to_nat (n * 3))) eqn:E2; [lia|].
  rewrite memcpy_in_range
    by (unfold len; rewrite ?length_replicate; lia).
  cbn [cbind]. eexists. split; [reflexivity|]. cbn [palette_].
  change (0 * 3) with 0. change (Z.to_nat 0) with 0%nat.
  rewrite take_0, app_nil_l.
  replace (0 + Z.min (Z.of_nat (length colors))
                 (Z.of_nat (Z.to_nat (n * 3)) - 0))
    with (Z.min (Z.of_nat (length colors)) (n * 3)) by lia.
  rewrite drop_replicate.
  destruct (Z.le_ge_cases (Z.of_nat (length colors)) (n * 3)) as [Hle|Hge].
  - rewrite !Z.min_l by lia.
    f_equal; [rewrite !take_ge by lia; reflexivity|f_equal; lia].
  - rewrite !Z.min_r by lia.
    f_equal; f_equal; lia.
Qed.

Lemma palette_round_trip_witness :
  exists s',
    write_palette 0 [x01; x02; x03; x04; x05; x06; x07]
      (set_palette_size 2 empty) = Ok s'
    /\ palette_ s' = [x01; x02; x03; x04; x05; x06].
Proof.
  destruct (palette_round_trip 2 [x01; x02; x03; x04; x05; x06; x07] empty)
    as (s' & E & Hp); [lia|congruence|].
  exists s'. split; [exact E|]. rewrite Hp. reflexivity.
Defined.

End memory_surface_tables.

(* ===================================================================== *)
(** ** decode_helpers.hpp *)
(* ===================================================================== *)

Lemma seqZ_snoc (m : Z) (n : nat) :
  seqZ m (Z.of_nat (S n)) = seqZ m (Z.of_nat n) ++ [m + Z.of_nat n].
Proof.
  rewrite Nat2Z.inj_succ. unfold Z.succ.
  rewrite seqZ_app by lia. f_equal.
Qed.

Lemma to_int32_small (z : Z) : 0 <= z < 2 ^ 31 -> to_int32 z = z.
Proof.
  intros Hz. unfold to_int32, wrap32.
  rewrite Z.mod_small by lia.
  destruct (z <? 2 ^ 31) eqn:E; lia.
Qed.

Lemma to_int32_le (z : Z) : 0 <= z -> to_int32 z <= z.
Proof.
  intros Hz. unfold to_int32, wrap32.
  pose proof (Z.mod_le z (2 ^ 32) Hz ltac:(lia)).
  destruct (_ <? _); lia.
Qed.

(** [write_rows] on any surface that keeps to the interface: each row
    asks for at most [row_bytes] bytes, and that many are left in [data]. *)
Lemma write_rows_total {Surf : Type} `{!surface Surf} (surf : Surf)
    (data : list byte) (row_bytes height : Z) :
  0 <= row_bytes -> height * row_bytes <= len data ->
  exists surf', write_rows surf data row_bytes height = Ok surf'.
Proof.
  intros Hrb Hlen. unfold write_rows.
  destruct (for_each_inv (fun _ => True) (seqZ 0 height)
              (fun y surf =>
                 write_pixels 0 y (to_int32 row_bytes)
                   (drop (Z.to_nat (y * row_bytes)) data) surf) surf)
    as (surf' & E & _); [exact I| |eauto].
  intros y s Hy _. apply elem_of_seqZ in Hy.
  destruct (write_pixels_reads_count 0 y (to_int32 row_bytes)
              (drop (Z.to_nat (y * row_bytes)) data) s) as [s' E]; [|eauto].
  pose proof (to_int32_le row_bytes Hrb).
  unfold len in *. rewrite length_drop. nia.
Qed.

Section write_rows_facts.
Import memory_surface.

Lemma write_rows_prefix (s : t) (data : list byte) (rows : nat) :
  0 < pitch_ s < 2 ^ 31 ->
  Z.of_nat (length (pixels_ s)) = pitch_ s * height_ s ->
  Z.of_nat (length data) = pitch_ s * height_ s ->
  Z.of_nat rows <= height_ s ->
  exists s',
    for_each (seqZ 0 (Z.of_nat rows))
      (fun y surf =>
         write_pixels 0 y (to_int32 (pitch_ s))
           (drop (Z.to_nat (y * pitch_ s)) data) surf)
      s = Ok s'
    /\ pixels_ s'
       = take (Z.to_nat (Z.of_nat rows * pitch_ s)) data
         ++ drop (Z.to_nat (Z.of_nat rows * pitch_ s)) (pixels_ s)
    /\ width_ s' = width_ s /\ height_ s' = height_ s
    /\ pitch_ s' = pitch_ s /\ format_ s' = format_ s
    /\ palette_ s' = palette_ s /\ subrects_ s' = subrects_ s.
Proof.
  intros Hp Hlen Hdata. induction rows as [|rows IH]; intros Hrows.
  - exists s. simpl. repeat split; reflexivity.
  - destruct IH as (s1 & E & Epx & Ew & Eh & Ep & Ef & Epal & Esub); [lia|].
    rewrite seqZ_snoc, for_each_app, E. cbn [cbind for_each].
    rewrite Z.add_0_l.
    assert (Hl1 : length (pixels_ s1) = length (pixels_ s)).
    { rewrite Epx, length_app, length_take, length_drop. nia. }
    assert (Ewp : write_pixels 0 (Z.of_nat rows) (to_int32 (pitch_ s))
                    (drop (Z.to_nat (Z.of_nat rows * pitch_ s)) data) s1
                  = Ok {| pixels_ :=
                            take (Z.to_nat (Z.of_nat rows * pitch_ s + 0))
                              (pixels_ s1)
                            ++ take (Z.to_nat (pitch_ s))
                                 (drop (Z.to_nat (Z.of_nat rows * pitch_ s))
                                    data)
                            ++ drop (Z.to_nat (Z.of_nat rows * pitch_ s + 0
                                               + pitch_ s)) (pixels_ s1);
                          palette_ := palette_ s1;
                          subrects_ := subrects_ s1;
                          width_ := width_ s1; height_ := height_ s1;
                          pitch_ := pitch_ s1; format_ := format_ s1 |}).
    { unfold write_pixels. rewrite Eh, Ep.
      rewrite to_int32_small by lia.
      destruct ((Z.of_nat rows <? 0) || (Z.of_nat rows >=? height_ s)
                || (0 <? 0) || (pitch_ s <=? 0)) eqn:E0; [lia|].
      destruct (0 >=? pitch_ s) eqn:E1; [lia|].
      rewrite Z.sub_0_r, Z.min_id. rewrite Hl1.
      destruct (Z.of_nat rows * pitch_ s + 0 + pitch_ s
                <=? Z.of_nat (length (pixels_ s))) eqn:E2; [|nia].
      rewrite memcpy_in_range
        by (unfold len; rewrite ?length_drop, ?Hl1; nia).
      reflexivity. }
    rewrite Ewp. cbn [cbind]. eexists. split; [reflexivity|].
    cbn [pixels_ width_ height_ pitch_ format_ palette_ subrects_].
    split; [|by rewrite Ew, Eh, Ep, Ef, Epal, Esub].
    rewrite Z.add_0_r. rewrite Epx.
    set (k := Z.to_nat (Z.of_nat rows * pitch_ s)).
    assert (Hk : (k + Z.to_nat (pitch_ s) <= length data)%nat) by (subst k; nia).
    replace (Z.to_nat (Z.of_nat rows * pitch_ s + pitch_ s))
      with (k + Z.to_nat (pitch_ s))%nat by (subst k; nia).
    replace (Z.to_nat (Z.of_nat (S rows) * pitch_ s))
      with (k + Z.to_nat (pitch_ s))%nat by (subst k; nia).
    rewrite take_app_le by (rewrite length_take; lia).
    rewrite take_take, Nat.min_id.
    rewrite drop_app_ge by (rewrite length_take; lia).
    rewrite length_take, drop_drop.
    replace (k + (k + Z.to_nat (pitch_ s) - k `min` length data))%nat
      with (k + Z.to_nat (pitch_ s))%nat by lia.
    rewrite app_assoc. f_equal.
    rewrite <- take_take_drop. reflexivity.
Qed.

(** X4.  [write_rows] after a successful [set_size]: writing height rows of
    width*bpp bytes each stays inside the data and stores it verbatim,
    so the pixel buffer reads back as the data, and nothing else of the
    surface changes. *)
Theorem write_rows_round_trip (w h : Z) (f : pixel_format) (s0 : t)
    (data : list byte) :
  0 < w -> 0 < h -> w * bytes_per_pixel f < 2 ^ 31 -> h < 2 ^ 31 ->
  w * bytes_per_pixel f * h <= MAX_BUFFER_SIZE ->
  Z.of_nat (length data) = w * bytes_per_pixel f * h ->
  exists s s',
    set_size true w h f s0 = (true, s)
    /\ write_rows s data (w * bytes_per_pixel f) h = Ok s'
    /\ pixels_ s' = data
    /\ width_ s' = w /\ height_ s' = h /\ format_ s' = f.
Proof.
  intros Hw Hh Hrow Hh31 Hsz Hdata.
  assert (Hbpp : 1 <= bytes_per_pixel f <= 4) by (destruct f; simpl; lia).
  rewrite (set_size_accepts w h f s0)
    by (unfold INT_MAX; first [lia | nia]).
  set (s := {| pixels_ := _ |}).
  destruct (write_rows_prefix s data (Z.to_nat h))
    as (s' & E & Epx & Ew & Eh & _ & Ef & _).
  - subst s. cbn [pitch_]. nia.
  - subst s. cbn [pixels_ pitch_ height_]. rewrite length_replicate. nia.
  - subst s. cbn [pitch_ height_]. lia.
  - subst s. cbn [height_]. lia.
  - rewrite Z2Nat.id in * by lia.
    exists s, s'. split; [reflexivity|]. split; [exact E|].
    split; [|split; [exact Ew|split; [exact Eh|exact Ef]]].
    rewrite Epx.
    rewrite take_ge by (subst s; cbn [pitch_]; nia).
    rewrite drop_ge; [apply app_nil_r|].
    subst s. cbn [pixels_ pitch_]. rewrite length_replicate. nia.
Qed.

Lemma write_rows_round_trip_witness :
  exists s s',
    set_size true 2 2 rgb888 empty = (true, s)
    /\ write_rows s (replicate 12 x2a) (2 * bytes_per_pixel rgb888) 2 = Ok s'
    /\ pixels_ s' = replicate 12 x2a.
Proof.
  destruct (write_rows_round_trip 2 2 rgb888 empty (replicate 12 x2a))
    as (s & s' & E & Er & Hpx & _); try (vm_compute; congruence).
  exists s, s'. exact (conj E (conj Er Hpx)).
Defined.

End write_rows_facts.

(* ===================================================================== *)
(** ** byte_io.hpp: the readers compute positional values *)
(* ===================================================================== *)

Lemma lor_shiftl_add (a b n : Z) :
  0 <= n -> 0 <= a < 2 ^ n -> 0 <= b ->
  Z.lor a (Z.shiftl b n) = a + b * 2 ^ n.
Proof.
  intros Hn Ha Hb.
  assert (Hland : Z.land a (Z.shiftl b n) = 0).
  { apply Z.bits_inj'. intros m Hm.
    rewrite Z.land_spec, Z.bits_0.
    destruct (Z.lt_ge_cases m n) as [Hlt|Hge].
    - rewrite Z.shiftl_spec_low by lia. apply andb_false_r.
    - destruct (Z.eq_dec a 0) as [->|Hne];
        [rewrite Z.bits_0; reflexivity|].
      rewrite (Z.bits_above_log2 a m); [reflexivity|lia|].
      apply Z.log2_lt_pow2; [lia|].
      apply Z.lt_le_trans with (2 ^ n); [lia|].
      apply Z.pow_le_mono_r; lia. }
  rewrite <- Z.lxor_lor by exact Hland.
  rewrite <- Z.add_nocarry_lxor by exact Hland.
  rewrite Z.shiftl_mul_pow2 by lia. reflexivity.
Qed.

Lemma deref_Ok_inv (p : ptr) (k : Z) (b : byte) :
  deref p k = Ok b -> base p !! Z.to_nat (off p + k) = Some b /\ 0 <= off p + k.
Proof.
  unfold deref. intros H. apply rd_Ok_inv in H. destruct H as [? ?]. split; [assumption|lia].
Qed.

(** X5.  The little- and big-endian readers return the positional value of
    the bytes they read (so a 16-bit read is below 2^16 and a 32-bit read
    below 2^32), and the signed reader returns the two's-complement
    reading of the same four bytes. *)
Theorem readers_positional (p : ptr) (b0 b1 b2 b3 : byte) :
  deref p 0 = Ok b0 -> deref p 1 = Ok b1 ->
  deref p 2 = Ok b2 -> deref p 3 = Ok b3 ->
  read_le16 p = Ok (u8 b0 + 256 * u8 b1)
  /\ read_be16 p = Ok (256 * u8 b0 + u8 b1)
  /\ read_le32 p
     = Ok (u8 b0 + 256 * u8 b1 + 65536 * u8 b2 + 16777216 * u8 b3)
  /\ read_be32 p
     = Ok (16777216 * u8 b0 + 65536 * u8 b1 + 256 * u8 b2 + u8 b3)
  /\ read_le32_signed p
     = Ok (let v := u8 b0 + 256 * u8 b1 + 65536 * u8 b2 + 16777216 * u8 b3 in
           if v <? 2147483648 then v else v - 4294967296).
Proof.
  intros H0 H1 H2 H3.
  pose proof (u8_range b0). pose proof (u8_range b1).
  pose proof (u8_range b2). pose proof (u8_range b3).
  assert (E16 : Z.lor (u8 b0) (Z.shiftl (u8 b1) 8) = u8 b0 + 256 * u8 b1).
  { rewrite lor_shiftl_add by lia. change (2 ^ 8) with 256. ring. }
  assert (E32 : Z.lor (Z.lor (Z.lor (u8 b0) (Z.shiftl (u8 b1) 8))
                         (Z.shiftl (u8 b2) 16)) (Z.shiftl (u8 b3) 24)
                = u8 b0 + 256 * u8 b1 + 65536 * u8 b2 + 16777216 * u8 b3).
  { rewrite E16.
    rewrite (lor_shiftl_add _ (u8 b2) 16) by lia.
    rewrite (lor_shiftl_add _ (u8 b3) 24) by lia.
    change (2 ^ 16) with 65536. change (2 ^ 24) with 16777216. ring. }
  assert (B16 : Z.lor (Z.shiftl (u8 b0) 8) (u8 b1) = 256 * u8 b0 + u8 b1).
  { rewrite Z.lor_comm, lor_shiftl_add by lia. change (2 ^ 8) with 256. ring. }
  assert (B32 : Z.lor (Z.lor (Z.lor (Z.shiftl (u8 b0) 24) (Z.shiftl (u8 b1) 16))
                         (Z.shiftl (u8 b2) 8)) (u8 b3)
                = 16777216 * u8 b0 + 65536 * u8 b1 + 256 * u8 b2 + u8 b3).
  { rewrite (Z.lor_comm _ (u8 b3)).
    rewrite (Z.lor_comm _ (Z.shiftl (u8 b2) 8)).
    rewrite (Z.lor_comm (Z.shiftl (u8 b0) 24)).
    rewrite !Z.lor_assoc.
    rewrite (lor_shiftl_add (u8 b3) (u8 b2) 8) by lia.
    rewrite (lor_shiftl_add _ (u8 b1) 16) by lia.
    rewrite (lor_shiftl_add _ (u8 b0) 24) by lia.
    change (2 ^ 8) with 256. change (2 ^ 16) with 65536.
    change (2 ^ 24) with 16777216. ring. }
  unfold read_le32_signed, read_le16, read_be16, read_le32, read_be32.
  rewrite H0, H1, H2, H3. cbn [cbind].
  rewrite E32, B32, E16, B16.
  repeat split.
  unfold to_int32, wrap32. rewrite Z.mod_small by lia. reflexivity.
Qed.

Lemma readers_positional_witness :
  read_le32 {| base := [x78; x56; x34; x12]; off := 0 |} = Ok 0x12345678
  /\ read_be32 {| base := [x78; x56; x34; x12]; off := 0 |} = Ok 0x78563412.
Proof.
  destruct (readers_positional {| base := [x78; x56; x34; x12]; off := 0 |}
              x78 x56 x34 x12) as (_ & _ & Hle & Hbe & _);
    try reflexivity.
  exact (conj Hle Hbe).
Defined.

(** X6.  The 4-byte and 2-byte aligned strides are the least multiples of 4
    (of 2) bytes that hold width*bits_per_pixel bits. *)
Theorem row_strides_minimal (width bits_per_pixel : Z) :
  0 <= width * bits_per_pixel < 2 ^ 63 ->
  (row_stride_4byte width bits_per_pixel mod 4 = 0
   /\ width * bits_per_pixel <= 8 * row_stride_4byte width bits_per_pixel
      < width * bits_per_pixel + 32)
  /\ (row_stride_2byte width bits_per_pixel mod 2 = 0
      /\ width * bits_per_pixel <= 8 * row_stride_2byte width bits_per_pixel
         < width * bits_per_pixel + 16).
Proof.
  intros Hb. unfold row_stride_4byte, row_stride_2byte, wrap64.
  change (2 ^ 63) with 9223372036854775808 in Hb.
  change (2 ^ 64) with 18446744073709551616.
  rewrite (Z.mod_small (width * bits_per_pixel)) by lia.
  rewrite (Z.mod_small (width * bits_per_pixel + 31)) by lia.
  rewrite (Z.mod_small (width * bits_per_pixel + 15)) by lia.
  rewrite (Z.mod_small ((width * bits_per_pixel + 31) / 32 * 4))
    by (Z.to_euclidean_division_equations; lia).
  rewrite (Z.mod_small ((width * bits_per_pixel + 15) / 16 * 2))
    by (Z.to_euclidean_division_equations; lia).
  repeat split; Z.to_euclidean_division_equations; lia.
Qed.

Lemma row_strides_minimal_witness :
  row_stride_4byte 33 1 = 8 /\ row_stride_2byte 33 1 = 6
  /\ row_stride_4byte 33 1 mod 4 = 0.
Proof.
  split; [reflexivity|]. split; [reflexivity|].
  apply (row_strides_minimal 33 1). vm_compute. split; congruence.
Defined.

(** X7.  [extract_pixel] reads packed pixels most-significant-bit first: for
    1, 2, 4 and 8 bits per pixel, pixel [x] is the [bpp]-bit field that
    starts [x*bpp] bits into the row, taken from byte [x*bpp/8]; its value
    is below 2^bpp.  Any other depth yields 0 without reading. *)
Theorem extract_pixel_field (row : ptr) (x bpp : Z) :
  0 <= x ->
  (bpp = 1 \/ bpp = 2 \/ bpp = 4 \/ bpp = 8 ->
   extract_pixel row x bpp
   = (let! b := deref row (x * bpp / 8) in
      Ok ((u8 b / 2 ^ (8 - bpp - (x * bpp) mod 8)) mod 2 ^ bpp))
   /\ forall v, extract_pixel row x bpp = Ok v -> 0 <= v < 2 ^ bpp)
  /\ (bpp <> 1 -> bpp <> 2 -> bpp <> 4 -> bpp <> 8 ->
      extract_pixel row x bpp = Ok 0).
Proof.
  intros Hx. split.
  - intros Hbpp.
    assert (E : extract_pixel row x bpp
                = (let! b := deref row (x * bpp / 8) in
                   Ok ((u8 b / 2 ^ (8 - bpp - (x * bpp) mod 8)) mod 2 ^ bpp))).
    { destruct Hbpp as [->|[->|[->| ->]]]; cbn [extract_pixel].
      - rewrite Z.quot_div_nonneg, Z.rem_mod_nonneg by lia.
        rewrite Z.mul_1_r.
        destruct (deref row (x / 8)) as [b| |]; cbn [cbind]; try reflexivity.
        rewrite Z.shiftr_div_pow2 by (Z.to_euclidean_division_equations; lia).
        change 1 with (Z.ones 1) at 1. rewrite Z.land_ones by lia.
        reflexivity.
      - rewrite Z.quot_div_nonneg, Z.rem_mod_nonneg by lia.
        replace (x * 2 / 8) with (x / 4)
          by (Z.to_euclidean_division_equations; lia).
        destruct (deref row (x / 4)) as [b| |]; cbn [cbind]; try reflexivity.
        rewrite Z.shiftr_div_pow2 by (Z.to_euclidean_division_equations; lia).
        change 3 with (Z.ones 2). rewrite Z.land_ones by lia.
        replace (6 - x mod 4 * 2) with (8 - 2 - (x * 2) mod 8)
          by (Z.to_euclidean_division_equations; lia).
        reflexivity.
      - rewrite Z.quot_div_nonneg, Z.rem_mod_nonneg by lia.
        replace (x * 4 / 8) with (x / 2)
          by (Z.to_euclidean_division_equations; lia).
        destruct (deref row (x / 2)) as [b| |]; cbn [cbind]; try reflexivity.
        assert (Hs : (if x mod 2 =? 0 then 4 else 0)
                     = 8 - 4 - (x * 4) mod 8).
        { destruct (x mod 2 =? 0) eqn:E0;
            Z.to_euclidean_division_equations; lia. }
        rewrite Hs.
        rewrite Z.shiftr_div_pow2 by (Z.to_euclidean_division_equations; lia).
        change 15 with (Z.ones 4). rewrite Z.land_ones by lia. reflexivity.
      - replace (x * 8 / 8) with x
          by (Z.to_euclidean_division_equations; lia).
        destruct (deref row x) as [b| |]; cbn [cbind]; try reflexivity.
        replace (8 - 8 - (x * 8) mod 8) with 0
          by (Z.to_euclidean_division_equations; lia).
        pose proof (u8_range b).
        rewrite Z.pow_0_r, Z.div_1_r. change (2 ^ 8) with 256.
        rewrite Z.mod_small by lia. reflexivity. }
    split; [exact E|].
    intros v Hv. rewrite E in Hv.
    destruct (deref row (x * bpp / 8)) as [b| |]; cbn [cbind] in Hv;
      try discriminate.
    injection Hv as <-. apply Z.mod_pos_bound.
    destruct Hbpp as [->|[->|[->| ->]]]; reflexivity.
  - intros H1 H2 H4 H8. unfold extract_pixel.
    destruct bpp as [|p|p]; try reflexivity.
    do 4 (try destruct p as [p|p|]); try reflexivity; exfalso; lia.
Qed.

Lemma extract_pixel_field_witness :
  extract_pixel {| base := [xb4]; off := 0 |} 2 2 = Ok 1
  /\ forall v, extract_pixel {| base := [xb4]; off := 0 |} 2 2 = Ok v ->
       0 <= v < 2 ^ 2.
Proof.
  split; [reflexivity|].
  apply (extract_pixel_field {| base := [xb4]; off := 0 |} 2 2); lia.
Defined.

(* ===================================================================== *)
(** ** Koala: memory safety, size-based acceptance, limits *)
(* ===================================================================== *)

Section koala_facts.
Import c64 koala.

Lemma select_layout_cases (data : list byte) :
  (exists r, select_layout data = Ok (inl r)
             /\ (error r = truncated_data \/ error r = invalid_format)
             /\ ok r = false)
  \/ (exists l, select_layout data = Ok (inr l)
                /\ layout_in_bounds l
                /\ background_offset l + 1
                   <= (if len (decompressed l) =? 0 then len data
                       else len (decompressed l))).
Proof.
  unfold select_layout.
  destruct (is_gg_koala data) eqn:Egg.
  - destruct (decompress_gg_bounded data 2 KOALA_SIZE_WITHOUT_ADDR)
      as (okb & out & E & Hout); [lia|discriminate|].
    rewrite E. cbn [cbind]. destruct okb; cbn [negb].
    + right. eexists. split; [reflexivity|].
      apply decompress_gg_success in E.
      unfold layout_in_bounds. cbn [source_data decompressed bitmap_offset
        screen_offset color_offset background_offset].
      rewrite E.
      unfold KOALA_SIZE_WITHOUT_ADDR, BITMAP_SIZE, SCREEN_RAM_SIZE,
        COLOR_RAM_SIZE in *.
      unfold len in *. simpl. lia.
    + left. eexists. split; [reflexivity|]. split; [by left|reflexivity].
  - destruct (len data =? KOALA_SIZE_WITHOUT_ADDR) eqn:E1.
    { right. eexists. split; [reflexivity|].
      unfold layout_in_bounds. cbn [source_data decompressed bitmap_offset
        screen_offset color_offset background_offset].
      unfold KOALA_SIZE_WITHOUT_ADDR, BITMAP_SIZE, SCREEN_RAM_SIZE,
        COLOR_RAM_SIZE in *.
      unfold len in *. simpl. lia. }
    destruct ((len data =? KOALA_SIZE_WITH_ADDR) || (len data =? 10006)) eqn:E2.
    { right. eexists. split; [reflexivity|].
      unfold layout_in_bounds. cbn [source_data decompressed bitmap_offset
        screen_offset color_offset background_offset].
      unfold KOALA_SIZE_WITH_ADDR, BITMAP_SIZE, SCREEN_RAM_SIZE,
        COLOR_RAM_SIZE in *.
      unfold len in *. simpl. lia. }
    destruct (len data =? KOALA_SIZE_OCP) eqn:E3.
    { right. eexists. split; [reflexivity|].
      unfold layout_in_bounds. cbn [source_data decompressed bitmap_offset
        screen_offset color_offset background_offset].
      unfold KOALA_SIZE_OCP, BITMAP_SIZE, SCREEN_RAM_SIZE,
        COLOR_RAM_SIZE in *.
      unfold len in *. simpl. lia. }
    left. eexists. split; [reflexivity|]. split; [by right|reflexivity].
Qed.

Lemma write_rgb_pixel_defined {Surf : Type} `{!surface Surf}
    (s : Surf) (x y rgb : Z) :
  True -> exists s', write_rgb_pixel s x y rgb = Ok s' /\ True.
Proof.
  intros _. destruct (write_rgb_pixel_total s x y rgb) as [s' E]. eauto.
Qed.

Lemma decode_layout_outcome {Surf : Type} `{!surface Surf}
    (P : Surf -> Prop) (available_size : Z) (l : layout) (surf : Surf)
    (options : decode_options) :
  layout_in_bounds l ->
  background_offset l + 1 <= available_size ->
  (forall s x y rgb,
      P s -> exists s', write_rgb_pixel s x y rgb = Ok s' /\ P s') ->
  let limit_w := if max_width options >? 0 then max_width options else 16384 in
  let limit_h := if max_height options >? 0 then max_height options
                 else 16384 in
  if (MULTICOLOR_WIDTH >? limit_w) || (MULTICOLOR_HEIGHT >? limit_h) then
    decode_layout available_size l surf options
    = Ok (failure dimensions_exceeded "Image dimensions exceed limits", surf)
  else
    match set_size MULTICOLOR_WIDTH MULTICOLOR_HEIGHT rgb888 surf with
    | (true, surf1) =>
        P surf1 ->
        exists surf',
          decode_layout available_size l surf options = Ok (success, surf')
          /\ P surf'
    | (false, surf1) =>
        decode_layout available_size l surf options
        = Ok (failure internal_error "Failed to allocate surface", surf1)
    end.
Proof.
  intros (Hb0 & Hb1 & Hs0 & Hs1 & Hc0 & Hc1 & Hbg) Hav Hstep limit_w limit_h.
  unfold decode_layout. fold limit_w limit_h.
  destruct (available_size <? background_offset l + 1) eqn:E0; [lia|].
  destruct ((MULTICOLOR_WIDTH >? limit_w) || (MULTICOLOR_HEIGHT >? limit_h));
    [reflexivity|].
  destruct (set_size MULTICOLOR_WIDTH MULTICOLOR_HEIGHT rgb888 surf)
    as [[|] surf1]; cbn [negb]; [|reflexivity].
  intros Hsurf1.
  destruct (rd_in_range (source_data l) (background_offset l)) as [bg ->];
    [lia|]. cbn [cbind].
  destruct (decode_multicolor_inv P
              {| base := source_data l; off := bitmap_offset l |}
              {| base := source_data l; off := screen_offset l |}
              {| base := source_data l; off := color_offset l |} bg surf1)
    as (surf' & E2 & Hsurf'); try assumption.
  - intros k Hk. apply rd_in_range. cbn [base off]. lia.
  - intros k Hk. apply rd_in_range. cbn [base off]. lia.
  - intros k Hk. apply rd_in_range. cbn [base off]. lia.
  - exists surf'. rewrite E2. by split.
Qed.

(** X8.  [koala_decoder::decode] is memory safe: for every input, surface and
    options it returns a result, never reading outside the input or the
    decompressed buffer.  The result is success or one of
    [truncated_data], [invalid_format], [dimensions_exceeded],
    [internal_error]; unless the surface allocation was attempted, a
    failure returns the surface untouched. *)
Theorem koala_decode_safe {Surf : Type} `{!surface Surf}
    (data : list byte) (surf : Surf) (options : decode_options) :
  exists r surf',
    decode data surf options = Ok (r, surf')
    /\ (ok r = true /\ error r = none
        \/ ok r = false
           /\ (error r = internal_error
               \/ surf' = surf
                  /\ (error r = truncated_data \/ error r = invalid_format
                      \/ error r = dimensions_exceeded))).
Proof.
  rewrite decode_unfold.
  destruct (len data =? 0).
  { eexists _, _. split; [reflexivity|]. right. split; [reflexivity|].
    right. split; [reflexivity|]. by left. }
  destruct (select_layout_cases data) as [(r & -> & Herr & Hok)|(l & -> & Hl & Hav)];
    cbn [cbind].
  { exists r, surf. split; [reflexivity|]. right. split; [exact Hok|].
    right. split; [reflexivity|]. destruct Herr; auto. }
  pose proof (decode_layout_outcome (fun _ => True) _ l surf options Hl Hav
                write_rgb_pixel_defined) as Hout.
  cbv zeta in Hout.
  destruct (_ || _).
  { rewrite Hout. eexists _, _. split; [reflexivity|]. right.
    split; [reflexivity|]. right. split; [reflexivity|]. auto. }
  destruct (set_size _ _ _ surf) as [[|] surf1].
  - destruct (Hout I) as (surf' & -> & _).
    eexists _, _. split; [reflexivity|]. left. by split.
  - rewrite Hout. eexists _, _. split; [reflexivity|]. right.
    split; [reflexivity|]. by left.
Qed.

(** X9.  Acceptance is by size alone: every input of 10001, 10003, 10006 or
    10018 bytes is accepted by [sniff] and, whatever its bytes, decodes
    successfully into a 320x200 rgb888 [memory_surface] when the limits
    admit 320x200. *)
Theorem koala_uncompressed_always_decodes (data : list byte)
    (surf : memory_surface.t) (options : decode_options) :
  is_uncompressed_koala data = true ->
  (max_width options <= 0 \/ 320 <= max_width options) ->
  (max_height options <= 0 \/ 200 <= max_height options) ->
  sniff data = true
  /\ exists surf',
       decode data surf options = Ok (success, surf')
       /\ memory_surface.is_c64_surface surf'.
Proof.
  intros Hunc Hw Hh. split; [unfold sniff; by rewrite Hunc|].
  assert (Hlen : KOALA_SIZE_WITHOUT_ADDR <= len data).
  { unfold is_uncompressed_koala, KOALA_SIZE_WITHOUT_ADDR,
      KOALA_SIZE_WITH_ADDR, KOALA_SIZE_OCP in *. lia. }
  rewrite decode_unfold.
  destruct (len data =? 0) eqn:E0;
    [unfold KOALA_SIZE_WITHOUT_ADDR in Hlen; lia|].
  destruct (select_layout_cases data)
    as [(r & Hsel & _)|(l & Hsel & Hl & Hav)].
  { exfalso. unfold select_layout in Hsel.
    rewrite is_gg_koala_large in Hsel by exact Hlen.
    unfold is_uncompressed_koala in Hunc.
    destruct (len data =? KOALA_SIZE_WITHOUT_ADDR); [discriminate|].
    destruct (len data =? KOALA_SIZE_WITH_ADDR); [discriminate|].
    destruct (len data =? 10006); [discriminate|].
    destruct (len data =? KOALA_SIZE_OCP); [discriminate|].
    discriminate. }
  rewrite Hsel. cbn [cbind].
  pose proof (decode_layout_outcome memory_surface.is_c64_surface _ l surf
                options Hl Hav write_rgb_pixel_koala_surface) as Hout.
  cbv zeta in Hout.
  destruct (_ || _) eqn:E1.
  { unfold MULTICOLOR_WIDTH, MULTICOLOR_HEIGHT in E1.
    destruct (max_width options >? 0) eqn:?, (max_height options >? 0) eqn:?;
      lia. }
  destruct (set_size_koala surf) as (surf1 & Hset & Hsurf1).
  change (@set_size memory_surface.t _)
    with (memory_surface.set_size true) in Hout.
  rewrite Hset in Hout. exact (Hout Hsurf1).
Qed.

Lemma koala_uncompressed_always_decodes_witness :
  sniff (replicate (Z.to_nat 10018) x55) = true
  /\ exists surf',
       decode (replicate (Z.to_nat 10018) x55) memory_surface.empty
         default_options = Ok (success, surf')
       /\ memory_surface.is_c64_surface surf'.
Proof.
  apply (koala_uncompressed_always_decodes (replicate (Z.to_nat 10018) x55)
           memory_surface.empty default_options).
  - vm_compute. reflexivity.
  - right. vm_compute. congruence.
  - right. vm_compute. congruence.
Defined.

(** X10.  What [sniff] rejects, [decode] rejects too: an input that is neither
    of an uncompressed size nor a GG candidate fails with
    [invalid_format] ([truncated_data] when empty) and the surface is
    not touched.  In particular nothing shorter than 100 bytes is ever
    taken for a Koala image. *)
Theorem koala_sniff_rejects_decode_rejects {Surf : Type} `{!surface Surf}
    (data : list byte) (surf : Surf) (options : decode_options) :
  (len data < 100 -> sniff data = false)
  /\ (sniff data = false ->
      exists r,
        decode data surf options = Ok (r, surf)
        /\ ok r = false
        /\ error r = if len data =? 0 then truncated_data else invalid_format).
Proof.
  split.
  - intros Hlen. unfold sniff, is_uncompressed_koala, is_gg_koala,
      KOALA_SIZE_WITHOUT_ADDR, KOALA_SIZE_WITH_ADDR, KOALA_SIZE_OCP.
    destruct (len data <? 100) eqn:E; [|lia]. cbn [orb].
    destruct (_ || _) eqn:E1; [lia|reflexivity].
  - unfold sniff. intros Hsniff.
    destruct (is_uncompressed_koala data) eqn:Hunc; [discriminate|].
    destruct (is_gg_koala data) eqn:Hgg; [discriminate|].
    rewrite decode_unfold. destruct (len data =? 0).
    { eexists. split; [reflexivity|]. by split. }
    unfold select_layout. rewrite Hgg.
    unfold is_uncompressed_koala in Hunc.
    repeat (apply orb_false_iff in Hunc as [Hunc ?]).
    destruct (len data =? KOALA_SIZE_WITHOUT_ADDR); [discriminate|].
    destruct (len data =? KOALA_SIZE_WITH_ADDR); [discriminate|].
    destruct (len data =? 10006); [discriminate|].
    destruct (len data =? KOALA_SIZE_OCP); [discriminate|].
    cbn [orb cbind]. eexists. split; [reflexivity|]. by split.
Qed.

Lemma koala_sniff_rejects_decode_rejects_witness :
  sniff [x89; x50; x4e; x47; x0d; x0a; x1a; x0a] = false
  /\ exists r,
       decode [x89; x50; x4e; x47; x0d; x0a; x1a; x0a] memory_surface.empty
         default_options = Ok (r, memory_surface.empty)
       /\ ok r = false.
Proof.
  destruct (koala_sniff_rejects_decode_rejects
              [x89; x50; x4e; x47; x0d; x0a; x1a; x0a] memory_surface.empty
              default_options) as [Hshort Hrej].
  assert (Hs : sniff [x89; x50; x4e; x47; x0d; x0a; x1a; x0a] = false)
    by (apply Hshort; vm_compute; reflexivity).
  split; [exact Hs|].
  destruct (Hrej Hs) as (r & E & Hok & _).
  exists r. exact (conj E Hok).
Defined.

End koala_facts.

(** X11.  A positive limit below 320x200 makes [koala_decoder::decode] fail
    before any surface call: the surface is returned untouched, and for
    an input that decodes under the default options the error is
    [dimensions_exceeded].  (A non-positive limit stands for 16384.) *)
Theorem koala_decode_respects_limits {Surf : Type} `{!surface Surf}
    (data : list byte) (surf : Surf) (options : decode_options) :
  0 < max_width options < 320 \/ 0 < max_height options < 200 ->
  exists r,
    koala.decode data surf options = Ok (r, surf)
    /\ ok r = false
    /\ ((exists surf', koala.decode data surf default_options
                       = Ok (success, surf')) ->
        r = failure dimensions_exceeded "Image dimensions exceed limits").
Proof.
  intros Hlim. rewrite !decode_unfold.
  destruct (len data =? 0).
  { eexists. split; [reflexivity|]. split; [reflexivity|].
    intros (s' & Hs'). discriminate. }
  destruct (select_layout_cases data)
    as [(r & -> & Herr & Hok)|(l & -> & Hl & Hav)]; cbn [cbind].
  { exists r. split; [reflexivity|]. split; [exact Hok|].
    intros (s' & Hs'). injection Hs' as -> _. discriminate. }
  pose proof (decode_layout_outcome (fun _ => True) _ l surf options Hl Hav
                write_rgb_pixel_defined) as Hout.
  cbv zeta in Hout.
  destruct (_ || _) eqn:E1.
  - rewrite Hout. eexists. split; [reflexivity|]. split; [reflexivity|].
    reflexivity.
  - exfalso. unfold c64.MULTICOLOR_WIDTH, c64.MULTICOLOR_HEIGHT in E1.
    destruct (max_width options >? 0) eqn:?, (max_height options >? 0) eqn:?;
      lia.
Qed.

Lemma koala_decode_respects_limits_witness :
  exists r,
    koala.decode koala.koa_example memory_surface.empty
      {| max_width := 319; max_height := 200 |}
    = Ok (r, memory_surface.empty)
    /\ ok r = false.
Proof.
  destruct (koala_decode_respects_limits koala.koa_example
              memory_surface.empty {| max_width := 319; max_height := 200 |})
    as (r & E & Hok & _).
  - left. simpl. lia.
  - exists r. exact (conj E Hok).
Defined.

(* ===================================================================== *)
(** ** DrazLace: the DRP stream and the decoder *)
(* ===================================================================== *)

Section drazlace_facts.
Import c64 drazlace.

Lemma fill_prefix (n : nat) (output : list byte) (out_pos : Z) (value : byte)
    (output' : list byte) (out_pos' : Z) :
  0 <= out_pos ->
  fill output out_pos n value = Ok (output', out_pos') ->
  forall i : nat, Z.of_nat i < out_pos -> output' !! i = output !! i.
Proof.
  revert output out_pos.
  induction n as [|n IH]; intros output out_pos Hpos; simpl.
  - intros [= <- <-] i Hi. reflexivity.
  - unfold wr at 1.
    destruct ((out_pos <? 0) || (out_pos >=? Z.of_nat (length output)));
      [discriminate|].
    cbn [cbind]. intros Hfill i Hi.
    etrans; [eapply (IH _ (out_pos + 1)); [|exact Hfill|]; lia|].
    apply list_lookup_insert_ne. lia.
Qed.

Lemma decompress_drp_loop_prefix (fuel : nat) (data : list byte)
    (escape : byte) (output_size in_pos out_pos : Z) (output : list byte)
    (okb : bool) (out : list byte) :
  0 <= out_pos ->
  decompress_drp_loop fuel data escape output_size in_pos out_pos output
  = Ok (okb, out) ->
  forall i : nat, Z.of_nat i < out_pos -> out !! i = output !! i.
Proof.
  revert in_pos out_pos output.
  induction fuel as [|fuel IH]; intros in_pos out_pos output Hpos; simpl.
  - destruct ((out_pos <? output_size) && (in_pos <? len data));
      [discriminate|].
    intros [= _ <-] i Hi. reflexivity.
  - destruct ((out_pos <? output_size) && (in_pos <? len data)).
    2: { intros [= _ <-] i Hi. reflexivity. }
    destruct (rd data in_pos) as [byte| |]; cbn [cbind]; try discriminate.
    destruct (u8 byte =? u8 escape).
    + destruct (in_pos + 1 >=? len data).
      { intros [= _ <-] i Hi. reflexivity. }
      destruct (rd data (in_pos + 1)) as [count| |]; cbn [cbind];
        try discriminate.
      destruct (in_pos + 1 + 1 >=? len data).
      { intros [= _ <-] i Hi. reflexivity. }
      destruct (rd data (in_pos + 1 + 1)) as [value| |]; cbn [cbind];
        try discriminate.
      destruct (fill output out_pos _ value) as [[output' out_pos']| |] eqn:Ef;
        cbn [cbind]; try discriminate.
      intros Hloop i Hi.
      assert (Hpos' : out_pos <= out_pos').
      { pose proof (u8_range count).
        destruct (Z.le_gt_cases (len output)
                    (out_pos + Z.of_nat (Z.to_nat (Z.min (u8 count)
                                             (output_size - out_pos)))))
          as [Hbig|Hsmall].
        - clear -Ef Hpos. revert Ef.
          generalize (Z.to_nat (Z.min (u8 count) (output_size - out_pos))).
          intros n. revert output out_pos Hpos.
          induction n as [|n IHn]; intros output out_pos Hpos; simpl.
          + intros [= _ <-]. lia.
          + destruct (wr output out_pos value) as [o| |]; cbn [cbind];
              try discriminate.
            intros Hf. apply IHn in Hf; lia.
        - destruct (fill_in_range _ output out_pos value Hpos
                      ltac:(apply Z.lt_le_incl; exact Hsmall))
            as (o & Eo & _).
          rewrite Eo in Ef. injection Ef as _ <-. lia. }
      etrans; [eapply (IH _ out_pos'); [|exact Hloop|]; lia|].
      exact (fill_prefix _ _ _ _ _ _ Hpos Ef i Hi).
    + unfold wr at 1.
      destruct ((out_pos <? 0) || (out_pos >=? Z.of_nat (length output)));
        [discriminate|].
      cbn [cbind]. intros Hloop i Hi.
      etrans; [eapply (IH _ (out_pos + 1)); [|exact Hloop|]; lia|].
      apply list_lookup_insert_ne. lia.
Qed.

(** X12.  [decompress_drp] always returns when at least the two load-address
    bytes are requested; when it reports success the output has exactly
    the requested length and begins with the first two bytes of the
    input (the load address), which the stream can never overwrite. *)
Theorem decompress_drp_success (data : list byte) (output_size : Z) :
  2 <= output_size ->
  exists okb out,
    decompress_drp data [] output_size = Ok (okb, out)
    /\ (okb = true ->
        len out = output_size
        /\ 17 <= len data
        /\ out !! 0%nat = data !! 0%nat
        /\ out !! 1%nat = data !! 1%nat).
Proof.
  intros Hs. unfold decompress_drp.
  destruct (len data <? 17) eqn:E17.
  { exists false, []. split; [reflexivity|discriminate]. }
  destruct (output_size >? _).
  { exists false, []. split; [reflexivity|discriminate]. }
  destruct (rd_in_range data 15) as [escape ->]; [lia|]. cbn [cbind].
  destruct (rd data 0) as [d0| |] eqn:E0;
    [|destruct (rd_in_range data 0) as [? ?]; [lia|congruence]..].
  cbn [cbind].
  rewrite wr_in_range by (rewrite len_replicate; lia). cbn [cbind].
  destruct (rd data 1) as [d1| |] eqn:E1;
    [|destruct (rd_in_range data 1) as [? ?]; [lia|congruence]..].
  cbn [cbind].
  rewrite wr_in_range by (rewrite len_insert, len_replicate; lia).
  cbn [cbind].
  set (output := <[Z.to_nat 1 := d1]> (<[Z.to_nat 0 := d0]>
                   (replicate (Z.to_nat output_size) x00))).
  destruct (decompress_drp_loop_bounded (length data) data escape output_size
              16 2 output) as (okb & out & E & Hlen);
    [lia|unfold len; lia|lia
    |subst output; rewrite !len_insert, len_replicate; lia|].
  exists okb, out. split; [exact E|]. intros _.
  split; [exact Hlen|]. split; [lia|].
  apply rd_Ok_inv in E0 as [_ E0]. apply rd_Ok_inv in E1 as [_ E1].
  change (Z.to_nat 0) with 0%nat in *. change (Z.to_nat 1) with 1%nat in *.
  rewrite E0, E1.
  assert (Hpre : forall i : nat, Z.of_nat i < 2 -> out !! i = output !! i)
    by (eapply decompress_drp_loop_prefix; [|exact E]; lia).
  rewrite !Hpre by lia.
  subst output. split.
  - rewrite list_lookup_insert_ne by (simpl; lia).
    apply list_lookup_insert_eq. rewrite length_replicate. lia.
  - apply list_lookup_insert_eq.
    rewrite length_insert, length_replicate. lia.
Qed.

Lemma decompress_drp_success_witness :
  exists okb out,
    decompress_drp (replicate 15 x01 ++ [xee; x07; xee; x03; x09]) [] 6
    = Ok (okb, out)
    /\ (okb = true ->
        len out = 6 /\ out !! 0%nat = Some x01 /\ out !! 1%nat = Some x01).
Proof.
  destruct (decompress_drp_success
              (replicate 15 x01 ++ [xee; x07; xee; x03; x09]) 6)
    as (okb & out & E & H); [lia|].
  exists okb, out. split; [exact E|]. intros Hok.
  destruct (H Hok) as (Hl & _ & H0 & H1).
  exact (conj Hl (conj H0 H1)).
Defined.

End drazlace_facts.

Section drazlace_decode_facts.
Import c64 drazlace.

Lemma get_c64_multicolor_total (content : list byte)
    (bitmap_offset video_matrix_offset color_offset : Z) (background : byte)
    (x y left_skip : Z) :
  0 <= bitmap_offset -> bitmap_offset + BITMAP_SIZE <= len content ->
  0 <= video_matrix_offset ->
  video_matrix_offset + SCREEN_RAM_SIZE <= len content ->
  0 <= color_offset -> color_offset + COLOR_RAM_SIZE <= len content ->
  0 <= x < MULTICOLOR_WIDTH -> 0 <= y < MULTICOLOR_HEIGHT ->
  -1 <= left_skip <= 0 ->
  exists v,
    get_c64_multicolor content bitmap_offset video_matrix_offset color_offset
      background x y left_skip = Ok v.
Proof.
  intros Hb0 Hb1 Hv0 Hv1 Hc0 Hc1 Hx Hy Hskip. unfold get_c64_multicolor.
  destruct (x + left_skip <? 0) eqn:E0; [eauto|].
  destruct (multicolor_offsets (x + left_skip) y) as [Hco Hbo];
    [unfold MULTICOLOR_WIDTH in *; lia|exact Hy|].
  unfold BITMAP_SIZE, SCREEN_RAM_SIZE, COLOR_RAM_SIZE in *.
  destruct (rd_in_range content
              (bitmap_offset + (y ÷ 8 * 40 + (x + left_skip) ÷ 8) * 8
               + Z.rem y 8)) as [b ->]; [lia|].
  cbn [cbind].
  destruct (rd_in_range content
              (video_matrix_offset + (y ÷ 8 * 40 + (x + left_skip) ÷ 8)))
    as [v ->]; [lia|].
  destruct (rd_in_range content
              (color_offset + (y ÷ 8 * 40 + (x + left_skip) ÷ 8)))
    as [c ->]; [lia|].
  destruct (Z.land _ 3) as [|[[| |]|[| |]| ]|]; cbn [cbind]; eauto.
Qed.

Lemma decode_c64_multicolor_frame_total (content : list byte)
    (bitmap_offset video_matrix_offset color_offset : Z) (background : byte)
    (left_skip : Z) :
  0 <= bitmap_offset -> bitmap_offset + BITMAP_SIZE <= len content ->
  0 <= video_matrix_offset ->
  video_matrix_offset + SCREEN_RAM_SIZE <= len content ->
  0 <= color_offset -> color_offset + COLOR_RAM_SIZE <= len content ->
  -1 <= left_skip <= 0 ->
  exists frame,
    decode_c64_multicolor_frame content bitmap_offset video_matrix_offset
      color_offset background left_skip = Ok frame.
Proof.
  intros Hb0 Hb1 Hv0 Hv1 Hc0 Hc1 Hskip. unfold decode_c64_multicolor_frame.
  destruct (for_each_inv (fun _ : list Z => True) (seqZ 0 MULTICOLOR_HEIGHT)
              (fun y pixels =>
                 for_each (seqZ 0 MULTICOLOR_WIDTH) (fun x pixels =>
                   let! color_index :=
                     get_c64_multicolor content bitmap_offset
                       video_matrix_offset color_offset background x y
                       left_skip in
                   Ok (pixels ++ [PALETTE (Z.land color_index 0x0f)])) pixels)
              []) as (frame & E & _); [exact I| |eauto].
  intros y px Hy _. apply for_each_inv; [exact I|].
  intros x px' Hx _. apply elem_of_seqZ in Hy, Hx.
  destruct (get_c64_multicolor_total content bitmap_offset video_matrix_offset
              color_offset background x y left_skip) as [v ->];
    try assumption; try lia.
  cbn [cbind]. eauto.
Qed.

Lemma foldl_inv {A B : Type} (P : A -> Prop) (f : A -> B -> A) (l : list B)
    (a : A) :
  P a -> (forall a b, P a -> P (f a b)) -> P (foldl f a l).
Proof.
  intros Ha Hf. revert a Ha. induction l as [|b l IH]; intros a Ha; simpl;
    [exact Ha|]. apply IH. by apply Hf.
Qed.

Lemma apply_blend_inv {Surf : Type} `{!surface Surf} (P : Surf -> Prop)
    (frame1 frame2 : list Z) (surf : Surf) :
  (forall s x y rgb,
      P s -> exists s', write_rgb_pixel s x y rgb = Ok s' /\ P s') ->
  P surf ->
  exists surf', apply_blend frame1 frame2 surf = Ok surf' /\ P surf'.
Proof.
  intros Hstep Hsurf. unfold apply_blend.
  apply for_each_inv; [exact Hsurf|]. intros y s _ Hs.
  apply for_each_inv; [exact Hs|]. intros x s' _ Hs'. by apply Hstep.
Qed.

Lemma decompress_drp_length (data : list byte) (output_size : Z) :
  2 <= output_size ->
  exists okb out,
    decompress_drp data [] output_size = Ok (okb, out)
    /\ (okb = true -> len out = output_size).
Proof.
  intros Hs. unfold decompress_drp.
  destruct (len data <? 17) eqn:E17.
  { exists false, []. split; [reflexivity|discriminate]. }
  destruct (output_size >? _).
  { exists false, []. split; [reflexivity|discriminate]. }
  destruct (rd_in_range data 15) as [escape ->]; [lia|]. cbn [cbind].
  destruct (rd_in_range data 0) as [d0 ->]; [lia|]. cbn [cbind].
  rewrite wr_in_range by (rewrite len_replicate; lia). cbn [cbind].
  destruct (rd_in_range data 1) as [d1 ->]; [lia|]. cbn [cbind].
  rewrite wr_in_range by (rewrite len_insert, len_replicate; lia).
  cbn [cbind].
  destruct (decompress_drp_loop_bounded (length data) data escape output_size
              16 2 (<[Z.to_nat 1 := d1]> (<[Z.to_nat 0 := d0]>
                      (replicate (Z.to_nat output_size) x00))))
    as (okb & out & E & Hlen);
    [lia|unfold len; lia|lia|rewrite !len_insert, len_replicate; lia|].
  exists okb, out. split; [exact E|]. intros _. exact Hlen.
Qed.

Lemma select_source_cases (data : list byte) :
  (exists r, select_source data = Ok (inl r)
             /\ (error r = truncated_data \/ error r = invalid_format)
             /\ ok r = false)
  \/ (exists source, select_source data = Ok (inr source)
                     /\ len source = DRAZLACE_UNPACKED_SIZE).
Proof.
  unfold select_source.
  destruct (has_drazlace_signature data).
  - destruct (decompress_drp_length data DRAZLACE_UNPACKED_SIZE)
      as (okb & out & -> & Hok); [discriminate|].
    cbn [cbind]. destruct okb; cbn [negb].
    + right. eexists. split; [reflexivity|]. by apply Hok.
    + left. eexists. split; [reflexivity|]. split; [by left|reflexivity].
  - destruct (len data =? DRAZLACE_UNPACKED_SIZE) eqn:E.
    + right. eexists. split; [reflexivity|]. lia.
    + left. eexists. split; [reflexivity|]. split; [by right|reflexivity].
Qed.

(** The tail of [drazlace_decoder::decode] on an 18242-byte source. *)
Lemma decode_source_outcome {Surf : Type} `{!surface Surf}
    (P : Surf -> Prop) (data source : list byte) (surf : Surf)
    (options : decode_options) :
  len data <> 0 ->
  select_source data = Ok (inr source) ->
  len source = DRAZLACE_UNPACKED_SIZE ->
  (forall s x y rgb,
      P s -> exists s', write_rgb_pixel s x y rgb = Ok s' /\ P s') ->
  exists shift,
    rd source SHIFT_OFFSET = Ok shift
    /\ if u8 shift >? 1 then
         decode data surf options
         = Ok (failure invalid_format "Invalid DrazLace shift value", surf)
       else
         let limit_w := if max_width options >? 0 then max_width options
                        else 16384 in
         let limit_h := if max_height options >? 0 then max_height options
                        else 16384 in
         if (MULTICOLOR_WIDTH >? limit_w) || (MULTICOLOR_HEIGHT >? limit_h)
         then
           decode data surf options
           = Ok (failure dimensions_exceeded "Image dimensions exceed limits",
                 surf)
         else
           match set_size MULTICOLOR_WIDTH MULTICOLOR_HEIGHT rgb888 surf with
           | (true, surf1) =>
               P surf1 ->
               exists surf',
                 decode data surf options = Ok (success, surf') /\ P surf'
           | (false, surf1) =>
               decode data surf options
               = Ok (failure internal_error "Failed to allocate surface",
                     surf1)
           end.
Proof.
  intros Hne Hsel Hlen Hstep.
  unfold DRAZLACE_UNPACKED_SIZE in Hlen.
  destruct (rd_in_range source SHIFT_OFFSET) as [shift Hshift];
    [unfold SHIFT_OFFSET; lia|].
  exists shift. split; [exact Hshift|].
  unfold decode. destruct (len data =? 0) eqn:E0; [lia|].
  rewrite Hsel. cbn [cbind]. rewrite Hshift. cbn [cbind].
  destruct (u8 shift >? 1) eqn:Es; [reflexivity|].
  cbv zeta.
  destruct (_ || _); [reflexivity|].
  destruct (set_size MULTICOLOR_WIDTH MULTICOLOR_HEIGHT rgb888 surf)
    as [[|] surf1]; cbn [negb]; [|reflexivity].
  intros Hsurf1.
  destruct (rd_in_range source BACKGROUND_OFFSET) as [bg ->];
    [unfold BACKGROUND_OFFSET; lia|]. cbn [cbind].
  pose proof (u8_range shift).
  destruct (decode_c64_multicolor_frame_total source BITMAP1_OFFSET
              VIDEO_MATRIX_OFFSET COLOR_OFFSET bg 0) as [frame1 ->];
    try (unfold BITMAP1_OFFSET, VIDEO_MATRIX_OFFSET, COLOR_OFFSET,
           BITMAP_SIZE, SCREEN_RAM_SIZE, COLOR_RAM_SIZE; lia).
  cbn [cbind].
  destruct (decode_c64_multicolor_frame_total source BITMAP2_OFFSET
              VIDEO_MATRIX_OFFSET COLOR_OFFSET bg (- u8 shift))
    as [frame2 ->];
    try (unfold BITMAP2_OFFSET, VIDEO_MATRIX_OFFSET, COLOR_OFFSET,
           BITMAP_SIZE, SCREEN_RAM_SIZE, COLOR_RAM_SIZE; lia).
  cbn [cbind].
  destruct (apply_blend_inv P frame1 frame2 surf1 Hstep Hsurf1)
    as (surf' & -> & Hsurf').
  cbn [cbind]. eauto.
Qed.

(** X13.  [drazlace_decoder::decode] is memory safe: for every input, surface
    and options it returns a result, never reading outside the input or
    the decompressed buffer; a failure other than [internal_error]
    returns the surface untouched. *)
Theorem drazlace_decode_safe {Surf : Type} `{!surface Surf}
    (data : list byte) (surf : Surf) (options : decode_options) :
  exists r surf',
    decode data surf options = Ok (r, surf')
    /\ (ok r = true /\ error r = none
        \/ ok r = false
           /\ (error r = internal_error
               \/ surf' = surf
                  /\ (error r = truncated_data \/ error r = invalid_format
                      \/ error r = dimensions_exceeded))).
Proof.
  destruct (len data =? 0) eqn:E0.
  { unfold decode. rewrite E0. eexists _, _. split; [reflexivity|]. right.
    split; [reflexivity|]. right. split; [reflexivity|]. by left. }
  destruct (select_source_cases data) as [(r & Hsel & Herr & Hok)|(source & Hsel & Hlen)].
  { unfold decode. rewrite E0, Hsel. cbn [cbind].
    exists r, surf. split; [reflexivity|]. right. split; [exact Hok|].
    right. split; [reflexivity|]. destruct Herr; auto. }
  destruct (decode_source_outcome (fun _ => True) data source surf options)
    as (shift & _ & Hout);
    [lia|exact Hsel|exact Hlen|exact write_rgb_pixel_defined|].
  destruct (u8 shift >? 1).
  { rewrite Hout. eexists _, _. split; [reflexivity|]. right.
    split; [reflexivity|]. right. split; [reflexivity|]. auto. }
  cbv zeta in Hout. destruct (_ || _).
  { rewrite Hout. eexists _, _. split; [reflexivity|]. right.
    split; [reflexivity|]. right. split; [reflexivity|]. auto. }
  destruct (set_size _ _ _ surf) as [[|] surf1].
  - destruct (Hout I) as (surf' & -> & _).
    eexists _, _. split; [reflexivity|]. left. by split.
  - rewrite Hout. eexists _, _. split; [reflexivity|]. right.
    split; [reflexivity|]. by left.
Qed.

(** X14.  An uncompressed DrazLace file (18242 bytes without the signature)
    decodes into a 320x200 rgb888 [memory_surface] exactly when its shift
    byte at offset 0x2744 is 0 or 1; any other shift value is rejected
    with [invalid_format] before the surface is touched. *)
Theorem drazlace_uncompressed_shift (data : list byte)
    (surf : memory_surface.t) (options : decode_options) :
  len data = DRAZLACE_UNPACKED_SIZE ->
  has_drazlace_signature data = false ->
  (max_width options <= 0 \/ 320 <= max_width options) ->
  (max_height options <= 0 \/ 200 <= max_height options) ->
  exists shift,
    rd data SHIFT_OFFSET = Ok shift
    /\ (u8 shift <= 1 ->
        exists surf',
          decode data surf options = Ok (success, surf')
          /\ memory_surface.is_c64_surface surf')
    /\ (1 < u8 shift ->
        decode data surf options
        = Ok (failure invalid_format "Invalid DrazLace shift value", surf)).
Proof.
  intros Hlen Hsig Hw Hh.
  assert (Hsel : select_source data = Ok (inr data)).
  { unfold select_source. rewrite Hsig, Hlen. reflexivity. }
  destruct (decode_source_outcome memory_surface.is_c64_surface data data
              surf options) as (shift & Hshift & Hout);
    [unfold DRAZLACE_UNPACKED_SIZE in Hlen; lia|exact Hsel|exact Hlen
    |apply write_rgb_pixel_koala_surface|].
  exists shift. split; [exact Hshift|].
  destruct (u8 shift >? 1) eqn:Es.
  { split; [lia|]. intros _. exact Hout. }
  split; [|lia]. intros _. cbv zeta in Hout.
  destruct (_ || _) eqn:E1.
  { unfold MULTICOLOR_WIDTH, MULTICOLOR_HEIGHT in E1.
    destruct (max_width options >? 0) eqn:?, (max_height options >? 0) eqn:?;
      lia. }
  destruct (set_size_koala surf) as (surf1 & Hset & Hsurf1).
  change (@set_size memory_surface.t _)
    with (memory_surface.set_size true) in Hout.
  rewrite Hset in Hout. exact (Hout Hsurf1).
Qed.

Lemma drazlace_uncompressed_shift_witness :
  exists shift,
    rd (replicate (Z.to_nat 18242) x00) SHIFT_OFFSET = Ok shift
    /\ (u8 shift <= 1 ->
        exists surf',
          decode (replicate (Z.to_nat 18242) x00) memory_surface.empty
            default_options = Ok (success, surf')
          /\ memory_surface.is_c64_surface surf').
Proof.
  destruct (drazlace_uncompressed_shift (replicate (Z.to_nat 18242) x00)
              memory_surface.empty default_options)
    as (shift & Hs & Hok & _).
  - vm_compute. reflexivity.
  - vm_compute. reflexivity.
  - right. vm_compute. congruence.
  - right. vm_compute. congruence.
  - exists shift. exact (conj Hs Hok).
Defined.

End drazlace_decode_facts.

(* ===================================================================== *)
(** ** QOI *)
(* ===================================================================== *)

Section qoi_facts.
Import qoi.

Lemma qoi_decode_unfold {Surf : Type} `{!surface Surf}
    (data : list byte) (surf : Surf) (options : decode_options) :
  decode data surf options
  = (let! header := parse_header data options in
     match header with
     | inl result => Ok (result, surf)
     | inr (width, height, channels) =>
         decode_body data surf width height channels
     end).
Proof.
  unfold decode, parse_header, decode_body.
  destruct (len data <? _); [reflexivity|].
  destruct (read_be32 _) as [magic| |]; cbn [cbind]; try reflexivity.
  destruct (negb _); [reflexivity|].
  destruct (read_be32 _) as [width| |]; cbn [cbind]; try reflexivity.
  destruct (read_be32 _) as [height| |]; cbn [cbind]; try reflexivity.
  destruct (rd data 12) as [channels| |]; cbn [cbind]; try reflexivity.
  destruct (_ || _); [reflexivity|].
  destruct (_ && _); [reflexivity|].
  destruct (negb _); [reflexivity|].
  destruct (_ >? _); reflexivity.
Qed.

Lemma read_be32_positional (p : ptr) (b0 b1 b2 b3 : byte) :
  deref p 0 = Ok b0 -> deref p 1 = Ok b1 ->
  deref p 2 = Ok b2 -> deref p 3 = Ok b3 ->
  read_be32 p = Ok (16777216 * u8 b0 + 65536 * u8 b1 + 256 * u8 b2 + u8 b3).
Proof.
  intros H0 H1 H2 H3.
  pose proof (u8_range b0). pose proof (u8_range b1).
  pose proof (u8_range b2). pose proof (u8_range b3).
  unfold read_be32. rewrite H0, H1, H2, H3. cbn [cbind]. f_equal.
  rewrite (Z.lor_comm _ (u8 b3)).
  rewrite (Z.lor_comm _ (Z.shiftl (u8 b2) 8)).
  rewrite (Z.lor_comm (Z.shiftl (u8 b0) 24)).
  rewrite !Z.lor_assoc.
  rewrite (lor_shiftl_add (u8 b3) (u8 b2) 8) by lia.
  rewrite (lor_shiftl_add _ (u8 b1) 16) by lia.
  rewrite (lor_shiftl_add _ (u8 b0) 24) by lia.
  change (2 ^ 8) with 256. change (2 ^ 16) with 65536.
  change (2 ^ 24) with 16777216. ring.
Qed.

Lemma read_be32_total (data : list byte) (o : Z) :
  0 <= o -> o + 4 <= len data ->
  exists v, read_be32 {| base := data; off := o |} = Ok v /\ 0 <= v < 2 ^ 32.
Proof.
  intros Ho Hlen.
  destruct (rd_in_range data (o + 0)) as [b0 E0]; [lia|].
  destruct (rd_in_range data (o + 1)) as [b1 E1]; [lia|].
  destruct (rd_in_range data (o + 2)) as [b2 E2]; [lia|].
  destruct (rd_in_range data (o + 3)) as [b3 E3]; [lia|].
  rewrite (read_be32_positional {| base := data; off := o |} b0 b1 b2 b3)
    by assumption.
  eexists. split; [reflexivity|].
  pose proof (u8_range b0). pose proof (u8_range b1).
  pose proof (u8_range b2). pose proof (u8_range b3).
  change (2 ^ 32) with 4294967296. lia.
Qed.

Lemma parse_header_total (data : list byte) (options : decode_options) :
  (exists r, parse_header data options = Ok (inl r)
             /\ ok r = false
             /\ (error r = truncated_data \/ error r = invalid_format
                 \/ error r = dimensions_exceeded))
  \/ (exists width height channels,
        parse_header data options = Ok (inr (width, height, channels))
        /\ 22 <= len data
        /\ 0 < width /\ 0 < height
        /\ width * height <= MAX_PIXELS
        /\ (channels = 3 \/ channels = 4)
        /\ to_int32 width = width /\ to_int32 height = height
        /\ fst (get_dimension_limits options DEFAULT_MAX_DIMENSION) >= width
        /\ snd (get_dimension_limits options DEFAULT_MAX_DIMENSION) >= height).
Proof.
  unfold parse_header.
  destruct (len data <? QOI_HEADER_SIZE + QOI_END_MARKER_SIZE) eqn:E0.
  { left. eexists. split; [reflexivity|]. split; [reflexivity|]. by left. }
  unfold QOI_HEADER_SIZE, QOI_END_MARKER_SIZE in E0.
  destruct (read_be32_total data 0) as (magic & -> & _); [lia..|].
  cbn [cbind]. destruct (negb (magic =? QOI_MAGIC)).
  { left. eexists. split; [reflexivity|]. split; [reflexivity|].
    right. by left. }
  destruct (read_be32_total data 4) as (width & -> & Hw); [lia..|].
  destruct (read_be32_total data 8) as (height & -> & Hh); [lia..|].
  cbn [cbind].
  destruct (rd_in_range data 12) as [cb ->]; [lia|]. cbn [cbind].
  destruct ((width =? 0) || (height =? 0)) eqn:E1.
  { left. eexists. split; [reflexivity|]. split; [reflexivity|].
    right. by left. }
  destruct (negb (u8 cb =? 3) && negb (u8 cb =? 4)) eqn:E2.
  { left. eexists. split; [reflexivity|]. split; [reflexivity|].
    right. by left. }
  unfold validate_dimensions.
  destruct (get_dimension_limits options DEFAULT_MAX_DIMENSION)
    as [max_w max_h] eqn:Elim.
  destruct ((to_int32 width >? max_w) || (to_int32 height >? max_h)) eqn:E3.
  { left. eexists. split; [reflexivity|]. split; [reflexivity|].
    right. by right. }
  cbn [ok success negb].
  destruct (width * height >? MAX_PIXELS) eqn:E4.
  { left. eexists. split; [reflexivity|]. split; [reflexivity|].
    right. by right. }
  right. exists width, height, (u8 cb). split; [reflexivity|].
  assert (Hmp : MAX_PIXELS = 400000000) by reflexivity.
  assert (Hw31 : width < 2 ^ 31) by nia.
  assert (Hh31 : height < 2 ^ 31) by nia.
  rewrite !to_int32_small in * by lia.
  cbn [fst snd]. repeat split; try lia.
Qed.

End qoi_facts.

Section qoi_pixels.
Import qoi.

Lemma read_chunk_total (data : list byte) (src_end : Z) (st : state) :
  0 <= src_pos st < src_end -> src_end <= len data ->
  (exists r, read_chunk data src_end st = Ok (inl r)
             /\ ok r = false /\ error r = truncated_data)
  \/ (exists px' pos' run',
        read_chunk data src_end st = Ok (inr (px', pos', run'))
        /\ src_pos st < pos' <= src_end).
Proof.
  intros Hpos Hend. unfold read_chunk.
  destruct (rd_in_range data (src_pos st)) as [b1 ->]; [lia|]. cbn [cbind].
  destruct (u8 b1 =? QOI_OP_RGB).
  { destruct (src_pos st + 1 + 3 >? src_end) eqn:E.
    - left. eexists. split; [reflexivity|]. by split.
    - destruct (rd_in_range data (src_pos st + 1)) as [r ->]; [lia|].
      destruct (rd_in_range data (src_pos st + 1 + 1)) as [g ->]; [lia|].
      destruct (rd_in_range data (src_pos st + 1 + 2)) as [b ->]; [lia|].
      cbn [cbind]. right. eexists _, _, _. split; [reflexivity|]. lia. }
  destruct (u8 b1 =? QOI_OP_RGBA).
  { destruct (src_pos st + 1 + 4 >? src_end) eqn:E.
    - left. eexists. split; [reflexivity|]. by split.
    - destruct (rd_in_range data (src_pos st + 1)) as [r ->]; [lia|].
      destruct (rd_in_range data (src_pos st + 1 + 1)) as [g ->]; [lia|].
      destruct (rd_in_range data (src_pos st + 1 + 2)) as [b ->]; [lia|].
      destruct (rd_in_range data (src_pos st + 1 + 3)) as [a ->]; [lia|].
      cbn [cbind]. right. eexists _, _, _. split; [reflexivity|]. lia. }
  destruct (Z.land (u8 b1) QOI_MASK_2 =? QOI_OP_INDEX).
  { right. eexists _, _, _. split; [reflexivity|]. lia. }
  destruct (Z.land (u8 b1) QOI_MASK_2 =? QOI_OP_DIFF).
  { right. eexists _, _, _. split; [reflexivity|]. lia. }
  destruct (Z.land (u8 b1) QOI_MASK_2 =? QOI_OP_LUMA).
  { destruct (src_pos st + 1 >=? src_end) eqn:E.
    - left. eexists. split; [reflexivity|]. by split.
    - destruct (rd_in_range data (src_pos st + 1)) as [b2 ->]; [lia|].
      cbn [cbind]. right. eexists _, _, _. split; [reflexivity|]. lia. }
  destruct (Z.land (u8 b1) QOI_MASK_2 =? QOI_OP_RUN).
  { right. eexists _, _, _. split; [reflexivity|]. lia. }
  right. eexists _, _, _. split; [reflexivity|]. lia.
Qed.

Lemma pixel_bytes_length (channels : Z) (p : rgba_t) :
  channels = 3 \/ channels = 4 ->
  Z.of_nat (length (pixel_bytes channels p)) = channels.
Proof. intros [-> | ->]; reflexivity. Qed.

Lemma decode_pixels_total (n : nat) (data : list byte) (src_end channels : Z)
    (st : state) :
  0 <= src_pos st -> src_end <= len data ->
  channels = 3 \/ channels = 4 ->
  (exists r, decode_pixels n data src_end channels st = Ok (inl r)
             /\ ok r = false /\ error r = truncated_data)
  \/ (exists st', decode_pixels n data src_end channels st = Ok (inr st')
                  /\ Z.of_nat (length (pixels st'))
                     = Z.of_nat (length (pixels st)) + Z.of_nat n * channels).
Proof.
  intros Hpos Hend Hch. revert st Hpos.
  induction n as [|n IH]; intros st Hpos.
  { right. exists st. split; [reflexivity|]. lia. }
  cbn [decode_pixels].
  assert (Hstep : forall st1, 0 <= src_pos st1 ->
            Z.of_nat (length (pixels st1)) = Z.of_nat (length (pixels st)) ->
            (exists r, decode_pixels n data src_end channels
                         {| index := index st1; px := px st1;
                            src_pos := src_pos st1; run := run st1;
                            pixels := pixels st1
                                      ++ pixel_bytes channels (px st1) |}
                       = Ok (inl r) /\ ok r = false
                         /\ error r = truncated_data)
            \/ (exists st', decode_pixels n data src_end channels
                              {| index := index st1; px := px st1;
                                 src_pos := src_pos st1; run := run st1;
                                 pixels := pixels st1
                                           ++ pixel_bytes channels (px st1) |}
                            = Ok (inr st')
                            /\ Z.of_nat (length (pixels st'))
                               = Z.of_nat (length (pixels st))
                                 + Z.of_nat (S n) * channels)).
  { intros st1 Hp1 Hl1.
    destruct (IH {| index := index st1; px := px st1; src_pos := src_pos st1;
                    run := run st1;
                    pixels := pixels st1 ++ pixel_bytes channels (px st1) |})
      as [Hfail|(st' & E & Hlen)]; [exact Hp1|by left|].
    right. exists st'. split; [exact E|].
    rewrite Hlen. cbn [pixels]. rewrite length_app.
    pose proof (pixel_bytes_length channels (px st1) Hch). lia. }
  destruct (run st >? 0).
  { cbn [cbind]. apply (Hstep {| index := index st; px := px st;
                                 src_pos := src_pos st; run := run st - 1;
                                 pixels := pixels st |}); [exact Hpos|reflexivity]. }
  destruct (src_pos st <? src_end) eqn:E.
  - destruct (read_chunk_total data src_end st)
      as [(r & -> & Hr)|(px' & pos' & run' & -> & Hpos')]; [lia|lia| |].
    + cbn [cbind]. left. exists r. by split.
    + cbn [cbind].
      apply (Hstep {| index := <[Z.to_nat (qoi_color_hash (r px') (g px')
                                              (b px') (a px')) := px']>
                                 (index st);
                      px := px'; src_pos := pos'; run := run';
                      pixels := pixels st |}); [cbn; lia|reflexivity].
  - cbn [cbind]. apply (Hstep st); [exact Hpos|reflexivity].
Qed.

(** Once the chunk stream is exhausted, every further iteration emits
    the current pixel again. *)
Lemma decode_pixels_exhausted (n : nat) (data : list byte)
    (src_end channels : Z) (st : state) :
  src_end <= src_pos st ->
  exists st',
    decode_pixels n data src_end channels st = Ok (inr st')
    /\ px st' = px st /\ src_pos st' = src_pos st
    /\ pixels st'
       = pixels st ++ mjoin (replicate n (pixel_bytes channels (px st))).
Proof.
  intros Hpos. revert st Hpos. induction n as [|n IH]; intros st Hpos.
  { exists st. cbn. rewrite app_nil_r. by repeat split. }
  cbn [decode_pixels].
  assert (Hstep : forall run1,
            exists st',
              decode_pixels n data src_end channels
                {| index := index st; px := px st; src_pos := src_pos st;
                   run := run1;
                   pixels := pixels st ++ pixel_bytes channels (px st) |}
              = Ok (inr st')
              /\ px st' = px st /\ src_pos st' = src_pos st
              /\ pixels st'
                 = pixels st
                   ++ mjoin (replicate (S n) (pixel_bytes channels (px st)))).
  { intros run1.
    destruct (IH {| index := index st; px := px st; src_pos := src_pos st;
                    run := run1;
                    pixels := pixels st ++ pixel_bytes channels (px st) |})
      as (st' & E & Hpx & Hsp & Hpix); [exact Hpos|].
    exists st'. split; [exact E|]. split; [exact Hpx|]. split; [exact Hsp|].
    rewrite Hpix. cbn [pixels px replicate mjoin].
    rewrite <- app_assoc. reflexivity. }
  destruct (run st >? 0).
  { cbn [cbind]. apply Hstep. }
  destruct (src_pos st <? src_end) eqn:E; [lia|].
  cbn [cbind]. destruct st. apply Hstep.
Qed.

(** The pixel loop can be cut at any iteration. *)
Lemma decode_pixels_split (k m : nat) (data : list byte)
    (src_end channels : Z) (st : state) :
  decode_pixels (k + m) data src_end channels st
  = (let! first := decode_pixels k data src_end channels st in
     match first with
     | inl r => Ok (inl r)
     | inr st' => decode_pixels m data src_end channels st'
     end).
Proof.
  revert st. induction k as [|k IH]; intros st; [reflexivity|].
  cbn [Nat.add decode_pixels].
  destruct (run st >? 0).
  { cbn [cbind]. apply IH. }
  destruct (src_pos st <? src_end).
  - destruct (read_chunk data src_end st) as [[r|[[px' pos'] run']]| |];
      cbn [cbind]; try reflexivity.
    apply IH.
  - cbn [cbind]. apply IH.
Qed.

End qoi_pixels.

Section qoi_safety.
Import qoi.

(** X15.  qoi_decoder::decode never reads outside its input: for every
    byte sequence, every surface and all options it returns a result,
    and a failure it reports is one of truncated_data, invalid_format,
    dimensions_exceeded or internal_error. *)
Theorem qoi_decode_safe {Surf : Type} `{!surface Surf}
    (data : list byte) (surf : Surf) (options : decode_options) :
  exists r s,
    decode data surf options = Ok (r, s)
    /\ (ok r = false ->
        error r = truncated_data \/ error r = invalid_format
        \/ error r = dimensions_exceeded \/ error r = internal_error).
Proof.
  rewrite qoi_decode_unfold.
  destruct (parse_header_total data options)
    as [(r & -> & _ & Herr)
       |(width & height & channels & -> & Hlen & Hw & Hh & _ & Hch & _
         & Hh32 & _)].
  { cbn [cbind]. exists r, surf. split; [reflexivity|]. intros _.
    destruct Herr as [?|[?|?]]; auto. }
  cbn [cbind]. unfold decode_body.
  destruct (set_size _ _ _ surf) as [allocated s].
  destruct allocated; cbn [negb].
  2:{ eexists _, _. split; [reflexivity|]. intros _. cbn. auto. }
  destruct (decode_pixels_total (Z.to_nat (width * height)) data
              (len data - QOI_END_MARKER_SIZE) channels initial_state)
    as [(r & -> & _ & Herr)|(st & -> & Hst)];
    [cbn; unfold QOI_HEADER_SIZE; lia|unfold QOI_END_MARKER_SIZE; lia|exact Hch| |].
  - cbn [cbind]. exists r, s. split; [reflexivity|]. auto.
  - cbn [cbind]. cbn [initial_state pixels length] in Hst.
    destruct (write_rows_total s (pixels st) (width * channels)
                (to_int32 height)) as [s' ->];
      [lia|unfold len; rewrite Hh32; nia|].
    cbn [cbind]. eexists _, _. split; [reflexivity|]. discriminate.
Qed.

End qoi_safety.

Lemma set_size_memory_surface (w h : Z) (f : pixel_format)
    (s : memory_surface.t) :
  set_size w h f s = memory_surface.set_size true w h f s.
Proof. reflexivity. Qed.

Section qoi_surface.
Import memory_surface qoi.

Lemma set_size_true_inv (allocated : bool) (w h : Z) (f : pixel_format)
    (s s' : t) :
  set_size allocated w h f s = (true, s') ->
  0 < w /\ 0 < h /\ w * bytes_per_pixel f * h <= MAX_BUFFER_SIZE
  /\ s' = {| pixels_ := replicate (Z.to_nat (w * bytes_per_pixel f * h)) x00;
             palette_ := []; subrects_ := [];
             width_ := w; height_ := h; pitch_ := w * bytes_per_pixel f;
             format_ := f |}.
Proof.
  unfold set_size.
  destruct ((w <=? 0) || (h <=? 0)) eqn:E0; [discriminate|].
  destruct (w >? SIZE_MAX / bytes_per_pixel f); [discriminate|].
  destruct (w * bytes_per_pixel f >? SIZE_MAX / h); [discriminate|].
  destruct (w * bytes_per_pixel f * h >? MAX_BUFFER_SIZE) eqn:E3;
    [discriminate|].
  destruct (_ && _); [discriminate|].
  intros [= <-]. repeat split; lia.
Qed.

Lemma write_rows_full (s : t) (data : list byte) :
  0 < pitch_ s < 2 ^ 31 -> 0 <= height_ s ->
  Z.of_nat (length (pixels_ s)) = pitch_ s * height_ s ->
  Z.of_nat (length data) = pitch_ s * height_ s ->
  exists s',
    write_rows s data (pitch_ s) (height_ s) = Ok s'
    /\ pixels_ s' = data /\ width_ s' = width_ s
    /\ height_ s' = height_ s /\ format_ s' = format_ s.
Proof.
  intros Hp Hh Hlen Hdata. unfold write_rows.
  destruct (write_rows_prefix s data (Z.to_nat (height_ s)))
    as (s' & E & Epx & Ew & Eh & _ & Ef & _); [lia..|].
  rewrite Z2Nat.id in * by lia.
  exists s'. split; [exact E|].
  split; [|split; [exact Ew|split; [exact Eh|exact Ef]]].
  etrans; [exact Epx|].
  rewrite take_ge by nia.
  rewrite drop_ge; [apply app_nil_r|nia].
Qed.

Lemma parse_header_fields (data : list byte) (options : decode_options)
    (width height channels : Z) :
  parse_header data options = Ok (inr (width, height, channels)) ->
  read_be32 {| base := data; off := 0 |} = Ok QOI_MAGIC
  /\ read_be32 {| base := data; off := 4 |} = Ok width
  /\ read_be32 {| base := data; off := 8 |} = Ok height
  /\ (exists c, rd data 12 = Ok c /\ u8 c = channels).
Proof.
  unfold parse_header.
  destruct (len data <? _); [discriminate|].
  destruct (read_be32 _) as [magic| |]; cbn [cbind]; try discriminate.
  destruct (magic =? QOI_MAGIC) eqn:Em; cbn [negb]; [|discriminate].
  destruct (read_be32 _) as [w| |]; cbn [cbind]; try discriminate.
  destruct (read_be32 _) as [h| |]; cbn [cbind]; try discriminate.
  destruct (rd data 12) as [c| |]; cbn [cbind]; try discriminate.
  destruct ((w =? 0) || (h =? 0)); [discriminate|].
  destruct (negb (u8 c =? 3) && negb (u8 c =? 4)); [discriminate|].
  destruct (negb _); [discriminate|].
  destruct (_ >? _); [discriminate|].
  intros [= <- <- <-]. apply Z.eqb_eq in Em. subst magic.
  repeat split. by exists c.
Qed.

Lemma decode_pixels_length (n : nat) (data : list byte)
    (src_end channels : Z) (st st' : state) :
  channels = 3 \/ channels = 4 ->
  decode_pixels n data src_end channels st = Ok (inr st') ->
  Z.of_nat (length (pixels st'))
  = Z.of_nat (length (pixels st)) + Z.of_nat n * channels.
Proof.
  intros Hch. revert st. induction n as [|n IH]; intros st.
  { cbn. intros [= <-]. lia. }
  cbn [decode_pixels].
  assert (Hstep : forall st1,
            Z.of_nat (length (pixels st1)) = Z.of_nat (length (pixels st)) ->
            decode_pixels n data src_end channels
              {| index := index st1; px := px st1; src_pos := src_pos st1;
                 run := run st1;
                 pixels := pixels st1 ++ pixel_bytes channels (px st1) |}
            = Ok (inr st') ->
            Z.of_nat (length (pixels st'))
            = Z.of_nat (length (pixels st)) + Z.of_nat (S n) * channels).
  { intros st1 Hl E. apply IH in E. rewrite E. cbn [pixels].
    rewrite length_app.
    pose proof (pixel_bytes_length channels (px st1) Hch). lia. }
  destruct (run st >? 0).
  { cbn [cbind]. apply (Hstep {| index := index st; px := px st;
                                 src_pos := src_pos st; run := run st - 1;
                                 pixels := pixels st |}). reflexivity. }
  destruct (src_pos st <? src_end).
  - destruct (read_chunk data src_end st) as [[r|[[px' pos'] run']]| |];
      cbn [cbind]; try discriminate.
    apply (Hstep {| index := <[Z.to_nat (qoi_color_hash (r px') (g px')
                                            (b px') (a px')) := px']>
                               (index st);
                    px := px'; src_pos := pos'; run := run';
                    pixels := pixels st |}). reflexivity.
  - cbn [cbind]. apply (Hstep st). reflexivity.
Qed.

(** X16.  When qoi_decoder::decode reports success on a memory_surface, the
    surface has the width and height of the header, rgba8888 for four
    channels and rgb888 for three, and its pixel buffer is exactly the
    decoded pixel stream, width*height*channels bytes long. *)
Theorem qoi_decode_success_surface (data : list byte) (s0 s : t)
    (options : decode_options) (result : decode_result) :
  decode data s0 options = Ok (result, s) -> ok result = true ->
  exists width height channels st,
    read_be32 {| base := data; off := 4 |} = Ok width
    /\ read_be32 {| base := data; off := 8 |} = Ok height
    /\ (exists c, rd data 12 = Ok c /\ u8 c = channels)
    /\ decode_pixels (Z.to_nat (width * height)) data
         (len data - QOI_END_MARKER_SIZE) channels initial_state
       = Ok (inr st)
    /\ width_ s = width /\ height_ s = height
    /\ format_ s = (if channels =? 4 then rgba8888 else rgb888)
    /\ pixels_ s = pixels st
    /\ Z.of_nat (length (pixels_ s)) = width * height * channels.
Proof.
  rewrite qoi_decode_unfold.
  destruct (parse_header_total data options)
    as [(r & -> & Hr & _)
       |(width & height & channels & Eh & Hlen & Hw & Hh & Hpx & Hch
         & Hw32 & Hh32 & _)].
  { cbn [cbind]. intros [= <- <-] Hok. congruence. }
  rewrite Eh. cbn [cbind]. unfold decode_body.
  rewrite Hw32, Hh32.
  rewrite set_size_memory_surface.
  destruct (memory_surface.set_size true width height _ s0)
    as [allocated s1] eqn:Es.
  destruct allocated; cbn [negb]; [|intros [= <- <-]; discriminate].
  apply set_size_true_inv in Es as (_ & _ & Hsz & Es1).
  destruct (decode_pixels _ data _ channels initial_state)
    as [[r|st]| |] eqn:Ep; cbn [cbind]; try discriminate.
  { destruct (decode_pixels_total (Z.to_nat (width * height)) data
                (len data - QOI_END_MARKER_SIZE) channels initial_state)
      as [(r' & Ep' & Hr' & _)|(st' & Ep' & _)];
      [cbn; unfold QOI_HEADER_SIZE; lia|unfold QOI_END_MARKER_SIZE; lia|exact Hch| |];
      rewrite Ep in Ep'; [|discriminate].
    injection Ep' as <-. intros [= <- <-] Hok. congruence. }
  apply parse_header_fields in Eh as (_ & Ew & Ehh & Ec).
  pose proof (decode_pixels_length _ _ _ _ _ _ Hch Ep) as Hl.
  cbn [initial_state pixels length] in Hl.
  rewrite Z2Nat.id in Hl by nia.
  set (f := if channels =? 4 then rgba8888 else rgb888) in *.
  assert (Hbpp : bytes_per_pixel f = channels)
    by (subst f; destruct Hch as [-> | ->]; reflexivity).
  rewrite Hbpp in *.
  assert (Hmax : MAX_BUFFER_SIZE = 1073741824) by reflexivity.
  destruct (write_rows_full s1 (pixels st))
    as (s' & Ewr & Hpix & Hwd & Hht & Hfm);
    [subst s1; cbn [pitch_ height_ pixels_];
     rewrite ?length_replicate; nia..|].
  assert (Hp1 : pitch_ s1 = width * channels) by (subst s1; reflexivity).
  assert (Hh1 : height_ s1 = height) by (subst s1; reflexivity).
  rewrite Hp1, Hh1 in *.
  rewrite Ewr. cbn [cbind]. intros [= <- <-] _.
  exists width, height, channels, st.
  split; [exact Ew|]. split; [exact Ehh|]. split; [exact Ec|].
  split; [exact Ep|].
  split; [rewrite Hwd; subst s1; reflexivity|].
  split; [exact Hht|].
  split; [rewrite Hfm; subst s1; reflexivity|].
  split; [exact Hpix|].
  rewrite Hpix. lia.
Qed.

Lemma qoi_decode_success_surface_witness :
  exists s,
    decode rgb_example empty default_options = Ok (success, s)
    /\ width_ s = 2 /\ height_ s = 2 /\ format_ s = rgb888
    /\ Z.of_nat (length (pixels_ s)) = 12.
Proof.
  assert (E : exists s, decode rgb_example empty default_options
                        = Ok (success, s))
    by (eexists; vm_compute; reflexivity).
  destruct E as [s E]. exists s. split; [exact E|].
  destruct (qoi_decode_success_surface rgb_example empty s default_options
              success E eq_refl)
    as (w & h & c & st & Ew & Eh & (cb & Ec & Hc) & _ & Hw & Hh & Hf & _ & Hl).
  vm_compute in Ew, Eh, Ec.
  injection Ew as <-. injection Eh as <-. injection Ec as <-.
  subst c. exact (conj Hw (conj Hh (conj Hf Hl))).
Defined.

Lemma decode_body_success (data : list byte) (s0 : t)
    (width height channels : Z) (st : state) :
  0 < width < 2 ^ 31 -> 0 < height < 2 ^ 31 ->
  channels = 3 \/ channels = 4 ->
  width * channels * height <= MAX_BUFFER_SIZE ->
  decode_pixels (Z.to_nat (width * height)) data
    (len data - QOI_END_MARKER_SIZE) channels initial_state
  = Ok (inr st) ->
  exists s,
    decode_body data s0 width height channels = Ok (success, s)
    /\ pixels_ s = pixels st /\ width_ s = width /\ height_ s = height
    /\ format_ s = (if channels =? 4 then rgba8888 else rgb888).
Proof.
  intros Hw Hh Hch Hsz Ep. unfold decode_body.
  rewrite !to_int32_small by lia.
  rewrite set_size_memory_surface.
  set (f := if channels =? 4 then rgba8888 else rgb888) in *.
  assert (Hbpp : bytes_per_pixel f = channels)
    by (subst f; destruct Hch as [-> | ->]; reflexivity).
  assert (Hmax : MAX_BUFFER_SIZE = 1073741824) by reflexivity.
  rewrite (set_size_accepts width height f s0)
    by (unfold INT_MAX; rewrite ?Hbpp; lia).
  cbn [negb]. rewrite Ep. cbn [cbind].
  pose proof (decode_pixels_length _ _ _ _ _ _ Hch Ep) as Hl.
  cbn [initial_state pixels length] in Hl.
  rewrite Z2Nat.id in Hl by nia.
  rewrite Hbpp.
  set (s1 := {| pixels_ := _ |}).
  destruct (write_rows_full s1 (pixels st))
    as (s' & Ewr & Hpix & Hwd & Hht & Hfm);
    [subst s1; cbn [pitch_ height_ pixels_];
     rewrite ?length_replicate; nia..|].
  change (pitch_ s1) with (width * channels) in Ewr.
  change (height_ s1) with height in Ewr.
  rewrite Ewr. cbn [cbind].
  exists s'. split; [reflexivity|].
  exact (conj Hpix (conj Hwd (conj Hht Hfm))).
Qed.

(** X17.  qoi_decoder::decode does not detect a chunk stream that ends
    early.  If the stream is used up after k pixels (at a chunk
    boundary), every remaining pixel repeats the last decoded one and
    decode reports success; in particular the 8-byte end marker is
    never examined. *)
Theorem qoi_short_stream_padded (data : list byte) (options : decode_options)
    (s0 : t) (width height channels : Z) (k : nat) (st : state) :
  parse_header data options = Ok (inr (width, height, channels)) ->
  width * channels * height <= MAX_BUFFER_SIZE ->
  Z.of_nat k <= width * height ->
  decode_pixels k data (len data - QOI_END_MARKER_SIZE) channels initial_state
  = Ok (inr st) ->
  len data - QOI_END_MARKER_SIZE <= src_pos st ->
  exists s,
    decode data s0 options = Ok (success, s)
    /\ width_ s = width /\ height_ s = height
    /\ pixels_ s
       = pixels st
         ++ mjoin (replicate (Z.to_nat (width * height) - k)
                     (pixel_bytes channels (px st))).
Proof.
  intros Eh Hsz Hk Ek Hend. rewrite qoi_decode_unfold.
  destruct (parse_header_total data options)
    as [(r & Eh' & _)
       |(w & h & c & Eh' & Hlen & Hw & Hh & Hpx & Hch & Hw32 & Hh32 & _)];
    rewrite Eh in Eh'; [discriminate|].
  injection Eh' as <- <- <-. rewrite Eh. cbn [cbind].
  assert (Hmp : MAX_PIXELS = 400000000) by reflexivity.
  destruct (decode_pixels_exhausted (Z.to_nat (width * height) - k) data
              (len data - QOI_END_MARKER_SIZE) channels st Hend)
    as (st' & Erest & _ & _ & Hpix).
  assert (Eall : decode_pixels (Z.to_nat (width * height)) data
                   (len data - QOI_END_MARKER_SIZE) channels initial_state
                 = Ok (inr st')).
  { replace (Z.to_nat (width * height))
      with (k + (Z.to_nat (width * height) - k))%nat by lia.
    rewrite decode_pixels_split, Ek. cbn [cbind].
    replace (k + (Z.to_nat (width * height) - k) - k)%nat
      with (Z.to_nat (width * height) - k)%nat by lia.
    exact Erest. }
  destruct (decode_body_success data s0 width height channels st')
    as (s & Es & Hp & Hwd & Hht & _);
    [nia|nia|exact Hch|exact Hsz|exact Eall|].
  exists s. split; [exact Es|]. split; [exact Hwd|]. split; [exact Hht|].
  rewrite Hp. exact Hpix.
Qed.

Lemma qoi_short_stream_padded_witness :
  exists s,
    decode short_example empty default_options = Ok (success, s)
    /\ pixels_ s
       = [x10; x20; x30; x10; x20; x30; x10; x20; x30; x10; x20; x30].
Proof.
  destruct (qoi_short_stream_padded short_example default_options empty
              2 2 3 1
              {| index := <[Z.to_nat (qoi_color_hash x10 x20 x30 xff)
                            := {| r := x10; g := x20; b := x30; a := xff |}]>
                            (replicate 64 zero_px);
                 px := {| r := x10; g := x20; b := x30; a := xff |};
                 src_pos := 18; run := 0; pixels := [x10; x20; x30] |})
    as (s & E & _ & _ & Hp);
    [vm_compute; reflexivity|vm_compute; congruence|lia
    |vm_compute; reflexivity|vm_compute; congruence|].
  exists s. exact (conj E Hp).
Defined.

(** X18.  qoi_decoder::sniff never reads outside its input, and whatever it
    accepts decode does not reject as invalid_format: a failure of
    decode on sniffed data is truncated_data, dimensions_exceeded or
    internal_error.  (The converse fails: decode ignores the colorspace
    byte that sniff checks.) *)
Theorem qoi_sniff_sound (data : list byte) (s0 : t)
    (options : decode_options) :
  exists accepted,
    sniff data = Ok accepted
    /\ (accepted = true ->
        forall result s,
          decode data s0 options = Ok (result, s) ->
          error result <> invalid_format).
Proof.
  unfold sniff.
  destruct (len data <? QOI_HEADER_SIZE) eqn:E0.
  { exists false. split; [reflexivity|discriminate]. }
  unfold QOI_HEADER_SIZE in E0.
  destruct (read_be32_total data 0) as (magic & Em & _); [lia..|].
  destruct (read_be32_total data 4) as (w & Ew & _); [lia..|].
  destruct (read_be32_total data 8) as (h & Eh & _); [lia..|].
  destruct (rd_in_range data 12) as [c Ec]; [lia|].
  destruct (rd_in_range data 13) as [cs Ecs]; [lia|].
  rewrite Em. cbn [cbind].
  destruct (negb (magic =? QOI_MAGIC)) eqn:Hm.
  { exists false. split; [reflexivity|discriminate]. }
  rewrite Ew, Eh. cbn [cbind].
  destruct ((w =? 0) || (h =? 0)) eqn:Hd.
  { exists false. split; [reflexivity|discriminate]. }
  rewrite Ec. cbn [cbind].
  destruct (negb (u8 c =? 3) && negb (u8 c =? 4)) eqn:Hc.
  { exists false. split; [reflexivity|discriminate]. }
  rewrite Ecs. cbn [cbind].
  destruct (u8 cs >? 1).
  { exists false. split; [reflexivity|discriminate]. }
  exists true. split; [reflexivity|]. intros _ result s.
  unfold decode.
  destruct (len data <? QOI_HEADER_SIZE + QOI_END_MARKER_SIZE);
    [intros [= <- <-]; discriminate|].
  rewrite Em. cbn [cbind]. rewrite Hm, Ew, Eh, Ec. cbn [cbind].
  rewrite Hd, Hc.
  unfold validate_dimensions.
  destruct (get_dimension_limits _ _) as [max_w max_h].
  destruct ((to_int32 w >? max_w) || (to_int32 h >? max_h));
    cbn [negb ok failure success];
    [intros [= <- <-]; discriminate|].
  destruct (w * h >? MAX_PIXELS); [intros [= <- <-]; discriminate|].
  rewrite set_size_memory_surface.
  destruct (memory_surface.set_size _ _ _ _ s0) as [allocated s1].
  destruct allocated; cbn [negb]; [|intros [= <- <-]; discriminate].
  destruct (decode_pixels_total (Z.to_nat (w * h)) data
              (len data - QOI_END_MARKER_SIZE) (u8 c) initial_state)
    as [(r' & -> & _ & Herr)|(st' & -> & _)];
    [cbn; unfold QOI_HEADER_SIZE; lia|unfold QOI_END_MARKER_SIZE; lia
    |lia| |]; cbn [cbind]; [intros [= <- <-]; congruence|].
  destruct (write_rows _ _ _ _) as [s'| |]; cbn [cbind];
    [intros [= <- <-]; discriminate|discriminate..].
Qed.

End qoi_surface.

Section qoi_exhausted.
Import memory_surface qoi.



End qoi_exhausted.



(* ===================================================================== *)
(** ** Truncated input *)
(* ===================================================================== *)

Section truncation.
Context {Surf : Type} `{!surface Surf}.








End truncation.


(* ===================================================================== *)
(** ** PNG *)
(* ===================================================================== *)

Lemma wrap32_small (z : Z) : 0 <= z < 2 ^ 32 -> wrap32 z = z.
Proof. intros Hz. unfold wrap32. apply Z.mod_small. exact Hz. Qed.

Lemma rd_lookup (p : list byte) (i : Z) (b : byte) :
  0 <= i -> p !! Z.to_nat i = Some b -> rd p i = Ok b.
Proof.
  intros Hi E. unfold rd. destruct (Z.ltb_spec i 0); [lia|].
  rewrite E. reflexivity.
Qed.

Section png_sniff_facts.
Import png.

Lemma signature_matches_take (signature data : list byte) :
  signature_matches data signature = true
  <-> take (length signature) data = signature.
Proof.
  revert data. induction signature as [|s signature IH]; intros data.
  { destruct data; simpl; split; reflexivity. }
  destruct data as [|d data]; simpl; [split; discriminate|].
  destruct (u8 d =? u8 s) eqn:E; cbn [negb].
  - apply Z.eqb_eq, u8_inj in E. subst d. rewrite IH.
    split; [intros ->; reflexivity|intros [= ?]; done].
  - split; [discriminate|]. intros [= -> _]. lia.
Qed.

(** X19.  png_decoder::sniff accepts exactly the inputs that begin with the
    eight signature bytes 89 50 4E 47 0D 0A 1A 0A. *)
Theorem png_sniff_signature (data : list byte) :
  sniff data = true <-> take 8 data = PNG_SIGNATURE.
Proof.
  unfold sniff, PNG_SIGNATURE_SIZE.
  destruct (len data <? 8) eqn:E.
  - split; [discriminate|]. intros H.
    apply (f_equal length) in H. rewrite length_take in H.
    change (length PNG_SIGNATURE) with 8%nat in H.
    unfold len in E. lia.
  - apply (signature_matches_take PNG_SIGNATURE).
Qed.

End png_sniff_facts.

Section png_decode_facts.
Import png.
Variable lodepng_decode : list byte -> lodepng_image.

Lemma ihdr_precheck_total (data : list byte) (options : decode_options) :
  exists pre, ihdr_precheck data options = Ok pre.
Proof.
  unfold ihdr_precheck.
  destruct (len data >=? PNG_MIN_SIZE_FOR_DIMENSIONS) eqn:E; [|eauto].
  unfold PNG_MIN_SIZE_FOR_DIMENSIONS in E.
  destruct (read_be32_total data PNG_IHDR_LENGTH_OFFSET)
    as (l & -> & _); [unfold PNG_IHDR_LENGTH_OFFSET; lia..|].
  destruct (read_be32_total data PNG_IHDR_TYPE_OFFSET)
    as (t & -> & _); [unfold PNG_IHDR_TYPE_OFFSET; lia..|].
  cbn [cbind]. destruct (_ && _); [|eauto].
  destruct (read_be32_total data PNG_IHDR_WIDTH_OFFSET)
    as (w & -> & _); [unfold PNG_IHDR_WIDTH_OFFSET; lia..|].
  destruct (read_be32_total data PNG_IHDR_HEIGHT_OFFSET)
    as (h & -> & _); [unfold PNG_IHDR_HEIGHT_OFFSET; lia..|].
  cbn [cbind]. destruct (_ || _); [eauto|].
  destruct (negb _); eauto.
Qed.

(** X20.  png_decoder::decode never reads outside its input or outside
    lodepng's pixel vector, provided lodepng keeps its contract: when
    it reports no error, the vector holds width * height * 4 bytes (the
    dimensions being unsigned).  Data without the PNG signature is
    rejected as invalid_format before lodepng is called, leaving the
    surface untouched. *)
Theorem png_decode_safe {Surf : Type} `{!surface Surf}
    (data : list byte) (surf : Surf) (options : decode_options) :
  (let img := lodepng_decode data in
   lodepng_error img = 0 ->
   0 <= lodepng_width img /\ 0 <= lodepng_height img
   /\ len (lodepng_pixels img) = lodepng_width img * lodepng_height img * 4) ->
  exists r s,
    decode lodepng_decode data surf options = Ok (r, s)
    /\ (sniff data = false ->
        r = failure invalid_format "Not a valid PNG file" /\ s = surf).
Proof.
  intros Hcontract. cbv zeta in Hcontract.
  unfold decode. destruct (sniff data); cbn [negb].
  2:{ eexists _, _. split; [reflexivity|]. by intros _. }
  destruct (ihdr_precheck_total data options) as [pre ->]. cbn [cbind].
  destruct pre as [r|].
  { eexists _, _. split; [reflexivity|discriminate]. }
  destruct (lodepng_error (lodepng_decode data) =? 0) eqn:Eerr; cbn [negb].
  2:{ eexists _, _. split; [reflexivity|discriminate]. }
  destruct Hcontract as (Hw & Hh & Hlen); [lia|].
  destruct (_ || _) eqn:Eint.
  { eexists _, _. split; [reflexivity|discriminate]. }
  destruct (negb _).
  { eexists _, _. split; [reflexivity|discriminate]. }
  destruct (set_size _ _ _ surf) as [allocated s].
  destruct allocated; cbn [negb].
  2:{ eexists _, _. split; [reflexivity|discriminate]. }
  unfold INT_MAX in Eint.
  destruct (write_rows_total s (lodepng_pixels (lodepng_decode data))
              (wrap32 (lodepng_width (lodepng_decode data) * 4))
              (to_int32 (lodepng_height (lodepng_decode data))))
    as [s' ->].
  - unfold wrap32. apply Z.mod_pos_bound. lia.
  - rewrite to_int32_small by lia. rewrite Hlen.
    assert (wrap32 (lodepng_width (lodepng_decode data) * 4)
            <= lodepng_width (lodepng_decode data) * 4)
      by (unfold wrap32; apply Z.mod_le; lia).
    nia.
  - cbn [cbind]. eexists _, _. split; [reflexivity|discriminate].
Qed.

End png_decode_facts.

Lemma png_decode_safe_witness :
  exists r s,
    png.decode
      (fun _ => {| png.lodepng_error := 0; png.lodepng_error_text := "";
                   png.lodepng_width := 1; png.lodepng_height := 2;
                   png.lodepng_pixels :=
                     [x01; x02; x03; x04; x05; x06; x07; x08] |})
      png.PNG_SIGNATURE memory_surface.empty default_options
    = Ok (r, s).
Proof.
  destruct (png_decode_safe
              (fun _ => {| png.lodepng_error := 0;
                           png.lodepng_error_text := "";
                           png.lodepng_width := 1; png.lodepng_height := 2;
                           png.lodepng_pixels :=
                             [x01; x02; x03; x04; x05; x06; x07; x08] |})
              png.PNG_SIGNATURE memory_surface.empty default_options)
    as (r & s & E & _).
  - cbv zeta. intros _. vm_compute. repeat split; congruence.
  - exists r, s. exact E.
Defined.

Section png_limit.
Import png.

(** X21.  When the input carries a well-formed IHDR chunk whose width or
    height exceeds the limits in force, png_decoder::decode fails with
    dimensions_exceeded from the header alone: the result is the same
    for every behaviour of lodepng, and the surface is untouched. *)
Theorem png_ihdr_limit_precedes_lodepng {Surf : Type} `{!surface Surf}
    (data : list byte) (surf : Surf) (options : decode_options)
    (width height : Z) :
  sniff data = true -> 24 <= len data ->
  read_be32 {| base := data; off := 8 |} = Ok 13 ->
  read_be32 {| base := data; off := 12 |} = Ok PNG_IHDR_TYPE ->
  read_be32 {| base := data; off := 16 |} = Ok width ->
  read_be32 {| base := data; off := 20 |} = Ok height ->
  width > fst (get_dimension_limits options DEFAULT_MAX_DIMENSION)
  \/ height > snd (get_dimension_limits options DEFAULT_MAX_DIMENSION) ->
  exists r,
    ok r = false /\ error r = dimensions_exceeded
    /\ forall lodepng_decode,
         decode lodepng_decode data surf options = Ok (r, surf).
Proof.
  intros Hs Hlen El Et Ew Eh Hlim.
  assert (Hpre : exists r,
            ok r = false /\ error r = dimensions_exceeded
            /\ ihdr_precheck data options = Ok (Some r)).
  { unfold ihdr_precheck, PNG_MIN_SIZE_FOR_DIMENSIONS, PNG_IHDR_LENGTH_OFFSET,
      PNG_IHDR_TYPE_OFFSET, PNG_IHDR_WIDTH_OFFSET, PNG_IHDR_HEIGHT_OFFSET.
    destruct (len data >=? 24) eqn:E; [|lia].
    rewrite El, Et. cbn [cbind].
    unfold PNG_IHDR_LENGTH. rewrite !Z.eqb_refl. cbn [andb].
    rewrite Ew, Eh. cbn [cbind].
    destruct ((width >? INT_MAX) || (height >? INT_MAX)) eqn:Ei.
    { eexists. split; [|split; [|reflexivity]]; reflexivity. }
    unfold INT_MAX in Ei.
    destruct (read_be32_total data 16) as (w' & Ew' & Hw'); [lia..|].
    destruct (read_be32_total data 20) as (h' & Eh' & Hh'); [lia..|].
    rewrite Ew in Ew'. rewrite Eh in Eh'.
    injection Ew' as <-. injection Eh' as <-.
    rewrite !to_int32_small by lia.
    unfold validate_dimensions.
    destruct (get_dimension_limits options DEFAULT_MAX_DIMENSION)
      as [max_w max_h]. cbn [fst snd] in Hlim.
    destruct ((width >? max_w) || (height >? max_h)) eqn:Ev; [|lia].
    cbn [negb ok failure].
    eexists. split; [|split; [|reflexivity]]; reflexivity. }
  destruct Hpre as (r & Hok & Herr & Epre).
  exists r. split; [exact Hok|]. split; [exact Herr|].
  intros lodepng_decode. unfold decode. rewrite Hs, Epre. reflexivity.
Qed.

Lemma png_ihdr_limit_precedes_lodepng_witness :
  exists r,
    ok r = false /\ error r = dimensions_exceeded
    /\ forall lodepng_decode,
         decode lodepng_decode
           (PNG_SIGNATURE
              ++ [x00; x00; x00; x0d; x49; x48; x44; x52;
                  x00; x00; x4e; x20; x00; x00; x00; x01])
           memory_surface.empty default_options
         = Ok (r, memory_surface.empty).
Proof.
  apply (png_ihdr_limit_precedes_lodepng
           (PNG_SIGNATURE
              ++ [x00; x00; x00; x0d; x49; x48; x44; x52;
                  x00; x00; x4e; x20; x00; x00; x00; x01])
           memory_surface.empty default_options 20000 1);
    try reflexivity.
  left. vm_compute. reflexivity.
Defined.

End png_limit.

Section png_store.
Import memory_surface png.
Variable lodepng_decode : list byte -> lodepng_image.

(** X22.  When lodepng decodes the input without error to a width x height
    RGBA image that is within the limits and needs at most 1 GiB,
    png_decoder::decode reports success and leaves a width x height
    rgba8888 memory_surface whose pixel buffer is lodepng's output,
    byte for byte. *)
Theorem png_decode_stores_pixels (data : list byte) (s0 : t)
    (options : decode_options) :
  let img := lodepng_decode data in
  let width := lodepng_width img in
  let height := lodepng_height img in
  sniff data = true -> ihdr_precheck data options = Ok None ->
  lodepng_error img = 0 ->
  0 < width <= fst (get_dimension_limits options DEFAULT_MAX_DIMENSION) ->
  0 < height <= snd (get_dimension_limits options DEFAULT_MAX_DIMENSION) ->
  width * 4 * height <= MAX_BUFFER_SIZE ->
  len (lodepng_pixels img) = width * 4 * height ->
  exists s,
    decode lodepng_decode data s0 options = Ok (success, s)
    /\ pixels_ s = lodepng_pixels img
    /\ width_ s = width /\ height_ s = height /\ format_ s = rgba8888.
Proof.
  intros img width height Hs Hpre Herr Hw Hh Hsz Hlen.
  assert (Hmax : MAX_BUFFER_SIZE = 1073741824) by reflexivity.
  unfold decode. rewrite Hs, Hpre. cbn [negb cbind].
  fold img. rewrite Herr. cbn [Z.eqb negb]. fold width height.
  unfold INT_MAX.
  destruct ((width >? 2 ^ 31 - 1) || (height >? 2 ^ 31 - 1)) eqn:Ei; [nia|].
  rewrite !to_int32_small by nia.
  unfold validate_dimensions.
  destruct (get_dimension_limits options DEFAULT_MAX_DIMENSION)
    as [max_w max_h]. cbn [fst snd] in Hw, Hh.
  destruct ((width >? max_w) || (height >? max_h)) eqn:Ev; [lia|].
  cbn [negb ok success].
  rewrite set_size_memory_surface.
  rewrite (set_size_accepts width height rgba8888 s0)
    by (unfold INT_MAX; cbn [bytes_per_pixel]; nia).
  cbn [negb bytes_per_pixel]. rewrite wrap32_small by nia.
  set (s1 := {| pixels_ := _ |}).
  destruct (write_rows_full s1 (lodepng_pixels img))
    as (s' & Ewr & Hpix & Hwd & Hht & Hfm);
    [subst s1; cbn [pitch_ height_ pixels_]; unfold len in Hlen;
     rewrite ?length_replicate; nia..|].
  change (pitch_ s1) with (width * 4) in Ewr.
  change (height_ s1) with height in Ewr.
  rewrite Ewr. cbn [cbind].
  exists s'. split; [reflexivity|].
  exact (conj Hpix (conj Hwd (conj Hht Hfm))).
Qed.

End png_store.

Lemma png_decode_stores_pixels_witness :
  exists s,
    png.decode
      (fun _ => {| png.lodepng_error := 0; png.lodepng_error_text := "";
                   png.lodepng_width := 1; png.lodepng_height := 2;
                   png.lodepng_pixels :=
                     [x01; x02; x03; x04; x05; x06; x07; x08] |})
      png.PNG_SIGNATURE memory_surface.empty default_options
    = Ok (success, s)
    /\ memory_surface.pixels_ s = [x01; x02; x03; x04; x05; x06; x07; x08].
Proof.
  destruct (png_decode_stores_pixels
              (fun _ => {| png.lodepng_error := 0;
                           png.lodepng_error_text := "";
                           png.lodepng_width := 1; png.lodepng_height := 2;
                           png.lodepng_pixels :=
                             [x01; x02; x03; x04; x05; x06; x07; x08] |})
              png.PNG_SIGNATURE memory_surface.empty default_options)
    as (s & E & Hp & _); try reflexivity;
    try (vm_compute; split; congruence); try (vm_compute; congruence).
  exists s. exact (conj E Hp).
Defined.

Section png_encode.
Import memory_surface png.
Variable lodepng_encode : list byte -> Z -> Z -> Z * list byte.

Lemma rgba_loop (n : Z) (body : Z -> list byte -> checked (list byte))
    (f0 f1 f2 : Z -> byte) (dst0 : list byte) :
  len dst0 = n * 4 ->
  (forall i dst, 0 <= i < n -> len dst = n * 4 ->
     body i dst
     = Ok (<[Z.to_nat (i * 4 + 3) := xff]>
             (<[Z.to_nat (i * 4 + 2) := f2 i]>
                (<[Z.to_nat (i * 4 + 1) := f1 i]>
                   (<[Z.to_nat (i * 4 + 0) := f0 i]> dst))))) ->
  forall k : nat, Z.of_nat k <= n ->
  exists out,
    for_each (seqZ 0 (Z.of_nat k)) body dst0 = Ok out
    /\ len out = n * 4
    /\ forall i, 0 <= i < Z.of_nat k ->
         out !! Z.to_nat (i * 4 + 0) = Some (f0 i)
         /\ out !! Z.to_nat (i * 4 + 1) = Some (f1 i)
         /\ out !! Z.to_nat (i * 4 + 2) = Some (f2 i)
         /\ out !! Z.to_nat (i * 4 + 3) = Some xff.
Proof.
  intros Hlen0 Hbody. induction k as [|k IH]; intros Hk.
  { exists dst0. split; [reflexivity|]. split; [exact Hlen0|]. lia. }
  destruct IH as (out & E & Hlen & Hout); [lia|].
  rewrite seqZ_snoc, for_each_app, E. cbn [cbind for_each].
  rewrite Hbody by (first [lia | exact Hlen]). cbn [cbind].
  eexists. split; [reflexivity|].
  split; [rewrite !len_insert; exact Hlen|].
  unfold len in Hlen. intros i Hi.
  destruct (Z.eq_dec i (0 + Z.of_nat k)) as [->|Hne].
  - repeat split.
    + rewrite !list_lookup_insert_ne by lia.
      apply list_lookup_insert_eq. lia.
    + rewrite !list_lookup_insert_ne by lia.
      apply list_lookup_insert_eq. rewrite !length_insert. lia.
    + rewrite !list_lookup_insert_ne by lia.
      apply list_lookup_insert_eq. rewrite !length_insert. lia.
    + apply list_lookup_insert_eq. rewrite !length_insert. lia.
  - destruct (Hout i) as (H0 & H1 & H2 & H3); [lia|].
    rewrite !list_lookup_insert_ne by lia. by repeat split.
Qed.

Lemma rgb_body (src dst : list byte) (n i : Z) :
  0 <= i < n -> n * 4 < 2 ^ 32 -> len src = n * 3 -> len dst = n * 4 ->
  (let! s0 := rd src (wrap32 (wrap32 (i * 3) + 0)) in
   let! dst := wr dst (wrap32 (wrap32 (i * 4) + 0)) s0 in
   let! s1 := rd src (wrap32 (wrap32 (i * 3) + 1)) in
   let! dst := wr dst (wrap32 (wrap32 (i * 4) + 1)) s1 in
   let! s2 := rd src (wrap32 (wrap32 (i * 3) + 2)) in
   let! dst := wr dst (wrap32 (wrap32 (i * 4) + 2)) s2 in
   wr dst (wrap32 (wrap32 (i * 4) + 3)) xff)
  = Ok (<[Z.to_nat (i * 4 + 3) := xff]>
          (<[Z.to_nat (i * 4 + 2)
             := default x00 (src !! Z.to_nat (i * 3 + 2))]>
             (<[Z.to_nat (i * 4 + 1)
                := default x00 (src !! Z.to_nat (i * 3 + 1))]>
                (<[Z.to_nat (i * 4 + 0)
                   := default x00 (src !! Z.to_nat (i * 3 + 0))]> dst)))).
Proof.
  intros Hi Hn Hsrc Hdst.
  rewrite !(wrap32_small (i * 3)), !(wrap32_small (i * 4)) by lia.
  rewrite !wrap32_small by lia.
  destruct (rd_in_range src (i * 3 + 0)) as [b0 E0]; [lia|].
  destruct (rd_in_range src (i * 3 + 1)) as [b1 E1]; [lia|].
  destruct (rd_in_range src (i * 3 + 2)) as [b2 E2]; [lia|].
  rewrite E0. cbn [cbind]. rewrite wr_in_range by lia. cbn [cbind].
  rewrite E1. cbn [cbind].
  rewrite wr_in_range by (rewrite !len_insert; lia). cbn [cbind].
  rewrite E2. cbn [cbind].
  rewrite wr_in_range by (rewrite !len_insert; lia). cbn [cbind].
  rewrite wr_in_range by (rewrite !len_insert; lia).
  apply rd_Ok_inv in E0 as [_ ->]. apply rd_Ok_inv in E1 as [_ ->].
  apply rd_Ok_inv in E2 as [_ ->]. reflexivity.
Qed.

(** X23.  encode_png on an rgb888 surface of at most 1 GiB hands lodepng a
    width*height*4-byte buffer in which every pixel keeps its three
    colour bytes and gains alpha 255, and returns lodepng's output, or
    the empty vector when lodepng reports an error. *)
Theorem encode_png_rgb888 (surf : t) :
  format_ surf = rgb888 -> 0 < width_ surf -> 0 < height_ surf ->
  len (pixels_ surf) = width_ surf * height_ surf * 3 ->
  width_ surf * height_ surf * 3 <= MAX_BUFFER_SIZE ->
  exists rgba,
    to_rgba surf = Ok rgba
    /\ len rgba = width_ surf * height_ surf * 4
    /\ (forall i, 0 <= i < width_ surf * height_ surf ->
          rgba !! Z.to_nat (i * 4 + 3) = Some xff
          /\ forall k, 0 <= k < 3 ->
               rgba !! Z.to_nat (i * 4 + k)
               = pixels_ surf !! Z.to_nat (i * 3 + k))
    /\ encode_png lodepng_encode surf
       = Ok (if fst (lodepng_encode rgba (width_ surf) (height_ surf)) =? 0
             then snd (lodepng_encode rgba (width_ surf) (height_ surf))
             else []).
Proof.
  intros Hf Hw Hh Hlen Hsz.
  assert (Hmax : MAX_BUFFER_SIZE = 1073741824) by reflexivity.
  set (n := width_ surf * height_ surf) in *.
  assert (Hn : 0 < n /\ n * 4 < 2 ^ 32) by (subst n; nia).
  assert (Hww : wrap32 (width_ surf) = width_ surf)
    by (apply wrap32_small; nia).
  assert (Hhh : wrap32 (height_ surf) = height_ surf)
    by (apply wrap32_small; nia).
  assert (Hr : exists rgba,
            to_rgba surf = Ok rgba /\ len rgba = n * 4
            /\ forall i, 0 <= i < n ->
                 rgba !! Z.to_nat (i * 4 + 3) = Some xff
                 /\ forall k, 0 <= k < 3 ->
                      rgba !! Z.to_nat (i * 4 + k)
                      = pixels_ surf !! Z.to_nat (i * 3 + k)).
  { unfold to_rgba, rgb_to_rgba. rewrite Hf, Hww, Hhh. fold n.
    rewrite (wrap32_small n), (wrap32_small (n * 4)) by lia.
    destruct (rgba_loop n
                (fun i dst =>
                   let! s0 := rd (pixels_ surf) (wrap32 (wrap32 (i * 3) + 0)) in
                   let! dst := wr dst (wrap32 (wrap32 (i * 4) + 0)) s0 in
                   let! s1 := rd (pixels_ surf) (wrap32 (wrap32 (i * 3) + 1)) in
                   let! dst := wr dst (wrap32 (wrap32 (i * 4) + 1)) s1 in
                   let! s2 := rd (pixels_ surf) (wrap32 (wrap32 (i * 3) + 2)) in
                   let! dst := wr dst (wrap32 (wrap32 (i * 4) + 2)) s2 in
                   wr dst (wrap32 (wrap32 (i * 4) + 3)) xff)
                (fun i => default x00 (pixels_ surf !! Z.to_nat (i * 3 + 0)))
                (fun i => default x00 (pixels_ surf !! Z.to_nat (i * 3 + 1)))
                (fun i => default x00 (pixels_ surf !! Z.to_nat (i * 3 + 2)))
                (replicate (Z.to_nat (n * 4)) x00))
      with (k := Z.to_nat n) as (out & E & Hout & Hpx).
    - rewrite len_replicate. lia.
    - intros i dst Hi Hd. apply (rgb_body _ _ n); [lia|lia|exact Hlen|exact Hd].
    - lia.
    - rewrite Z2Nat.id in E, Hpx by lia.
      exists out. split; [exact E|]. split; [exact Hout|].
      intros i Hi. destruct (Hpx i Hi) as (H0 & H1 & H2 & H3).
      split; [exact H3|]. intros k Hk.
      assert (Hsome : forall j, 0 <= j < 3 ->
                Some (default x00 (pixels_ surf !! Z.to_nat (i * 3 + j)))
                = pixels_ surf !! Z.to_nat (i * 3 + j)).
      { intros j Hj.
        destruct (pixels_ surf !! Z.to_nat (i * 3 + j)) eqn:El;
          [reflexivity|].
        apply lookup_ge_None in El. unfold len in Hlen. lia. }
      assert (Hc : k = 0 \/ k = 1 \/ k = 2) by lia.
      destruct Hc as [->|[->| ->]];
        [rewrite H0|rewrite H1|rewrite H2]; apply Hsome; lia. }
  destruct Hr as (rgba & E & Hl & Hpx).
  exists rgba. split; [exact E|]. split; [exact Hl|]. split; [exact Hpx|].
  unfold encode_png.
  destruct ((width_ surf <=? 0) || (height_ surf <=? 0)) eqn:E0; [lia|].
  rewrite E, Hww, Hhh. cbn [cbind].
  destruct (lodepng_encode rgba (width_ surf) (height_ surf)) as [error png].
  cbn [fst snd]. destruct (error =? 0); reflexivity.
Qed.

Lemma indexed_body (indices palette dst : list byte) (n i : Z) :
  0 <= i < n -> n * 4 < 2 ^ 32 -> len indices = n -> len dst = n * 4 ->
  (let! index := rd indices i in
   let idx := u8 index in
   let pal_offset := idx * 3 in
   let! dst :=
     if pal_offset + 2 <? len palette then
       let! p0 := rd palette (pal_offset + 0) in
       let! dst := wr dst (wrap32 (wrap32 (i * 4) + 0)) p0 in
       let! p1 := rd palette (pal_offset + 1) in
       let! dst := wr dst (wrap32 (wrap32 (i * 4) + 1)) p1 in
       let! p2 := rd palette (pal_offset + 2) in
       wr dst (wrap32 (wrap32 (i * 4) + 2)) p2
     else
       let! dst := wr dst (wrap32 (wrap32 (i * 4) + 0)) x00 in
       let! dst := wr dst (wrap32 (wrap32 (i * 4) + 1)) x00 in
       wr dst (wrap32 (wrap32 (i * 4) + 2)) x00 in
   wr dst (wrap32 (wrap32 (i * 4) + 3)) xff)
  = Ok (let entry k :=
          match indices !! Z.to_nat i with
          | Some index =>
              if u8 index * 3 + 2 <? len palette
              then default x00 (palette !! Z.to_nat (u8 index * 3 + k))
              else x00
          | None => x00
          end in
        <[Z.to_nat (i * 4 + 3) := xff]>
          (<[Z.to_nat (i * 4 + 2) := entry 2]>
             (<[Z.to_nat (i * 4 + 1) := entry 1]>
                (<[Z.to_nat (i * 4 + 0) := entry 0]> dst)))).
Proof.
  intros Hi Hn Hind Hdst.
  rewrite !(wrap32_small (i * 4)) by lia.
  rewrite !wrap32_small by lia.
  destruct (rd_in_range indices i) as [index Ei]; [lia|].
  rewrite Ei. cbn [cbind]. cbv zeta.
  apply rd_Ok_inv in Ei as [_ ->].
  pose proof (u8_range index) as Hidx.
  destruct (u8 index * 3 + 2 <? len palette) eqn:Ep.
  - destruct (rd_in_range palette (u8 index * 3 + 0)) as [p0 E0]; [lia|].
    destruct (rd_in_range palette (u8 index * 3 + 1)) as [p1 E1]; [lia|].
    destruct (rd_in_range palette (u8 index * 3 + 2)) as [p2 E2]; [lia|].
    rewrite E0. cbn [cbind]. rewrite wr_in_range by lia. cbn [cbind].
    rewrite E1. cbn [cbind].
    rewrite wr_in_range by (rewrite !len_insert; lia). cbn [cbind].
    rewrite E2. cbn [cbind].
    rewrite wr_in_range by (rewrite !len_insert; lia). cbn [cbind].
    rewrite wr_in_range by (rewrite !len_insert; lia).
    apply rd_Ok_inv in E0 as [_ ->]. apply rd_Ok_inv in E1 as [_ ->].
    apply rd_Ok_inv in E2 as [_ ->]. reflexivity.
  - rewrite wr_in_range by lia. cbn [cbind].
    rewrite wr_in_range by (rewrite !len_insert; lia). cbn [cbind].
    rewrite wr_in_range by (rewrite !len_insert; lia). cbn [cbind].
    rewrite wr_in_range by (rewrite !len_insert; lia).
    reflexivity.
Qed.


(** X25.  An indexed8 surface of exactly 2^30 pixels (for example
    32768 x 32768) is accepted by set_size, but encode_png computes its
    buffer size width*height*4 in 32-bit unsigned arithmetic, where it is
    0: the RGBA buffer is empty and the first pixel is written outside
    it. *)
Theorem encode_png_indexed8_overflow (w h : Z) (s0 : t) :
  0 < w -> 0 < h -> w * h = 2 ^ 30 ->
  exists surf,
    set_size true w h indexed8 s0 = (true, surf)
    /\ encode_png lodepng_encode surf = OutOfBounds.
Proof.
  intros Hw Hh Hwh.
  assert (Hmax : MAX_BUFFER_SIZE = 1073741824) by reflexivity.
  rewrite (set_size_accepts w h indexed8 s0)
    by (unfold INT_MAX; cbn [bytes_per_pixel]; nia).
  eexists. split; [reflexivity|].
  unfold encode_png, to_rgba, indexed_to_rgba.
  cbn [width_ height_ format_ pixels_ palette_ bytes_per_pixel].
  destruct ((w <=? 0) || (h <=? 0)) eqn:E0; [lia|].
  rewrite (wrap32_small w), (wrap32_small h) by nia.
  rewrite Hwh. rewrite (wrap32_small (2 ^ 30)) by lia.
  change (wrap32 (2 ^ 30 * 4)) with 0.
  change (Z.to_nat 0) with 0%nat. cbn [replicate].
  rewrite (seqZ_cons 0 (2 ^ 30)) by lia. cbn [for_each].
  destruct (rd_in_range (replicate (Z.to_nat (w * 1 * h)) x00) 0)
    as [index ->]; [rewrite len_replicate; nia|].
  cbn [cbind]. cbv zeta.
  pose proof (u8_range index) as Hidx.
  destruct (u8 index * 3 + 2 <? len []) eqn:Ep; [unfold len in Ep; simpl in Ep; lia|].
  reflexivity.
Qed.

End png_encode.

Lemma encode_png_rgb888_witness :
  png.encode_png (fun rgba _ _ => (0, rgba))
    {| memory_surface.pixels_ := [x01; x02; x03];
       memory_surface.palette_ := []; memory_surface.subrects_ := [];
       memory_surface.width_ := 1; memory_surface.height_ := 1;
       memory_surface.pitch_ := 3; memory_surface.format_ := rgb888 |}
  = Ok [x01; x02; x03; xff].
Proof.
  destruct (encode_png_rgb888 (fun rgba _ _ => (0, rgba))
              {| memory_surface.pixels_ := [x01; x02; x03];
                 memory_surface.palette_ := [];
                 memory_surface.subrects_ := [];
                 memory_surface.width_ := 1; memory_surface.height_ := 1;
                 memory_surface.pitch_ := 3;
                 memory_surface.format_ := rgb888 |})
    as (rgba & E & _ & _ & Henc);
    [reflexivity|reflexivity|reflexivity|reflexivity|vm_compute; congruence|].
  vm_compute in E. injection E as <-. exact Henc.
Defined.


Lemma encode_png_indexed8_overflow_witness :
  exists surf,
    memory_surface.set_size true 32768 32768 indexed8 memory_surface.empty
    = (true, surf)
    /\ png.encode_png (fun rgba _ _ => (0, rgba)) surf = OutOfBounds.
Proof.
  apply (encode_png_indexed8_overflow (fun rgba _ _ => (0, rgba))
           32768 32768 memory_surface.empty); reflexivity.
Defined.

Lemma join_length_uniform {A : Type} (m : nat) (ls : list (list A)) :
  Forall (fun l => length l = m) ls ->
  length (mjoin ls) = (length ls * m)%nat.
Proof.
  induction 1 as [|l ls Hl _ IH]; [reflexivity|].
  change (mjoin (l :: ls)) with (l ++ mjoin ls).
  rewrite length_app, IH, Hl. cbn [length]. lia.
Qed.

(** Three consecutive elements of a list. *)
Lemma take_3_drop {A : Type} (d : A) (l : list A) (k : nat) :
  (k + 3 <= length l)%nat ->
  take 3 (drop k l)
  = [default d (l !! k); default d (l !! (k + 1)%nat);
     default d (l !! (k + 2)%nat)].
Proof.
  intros Hk.
  rewrite <- (Nat.add_0_r k) at 2.
  rewrite <- !lookup_drop.
  pose proof (length_drop l k) as Hl.
  destruct (drop k l) as [|a [|b [|c rest]]]; cbn [length] in Hl; try lia.
  reflexivity.
Qed.

Lemma rd_cases (p : list byte) (i : Z) :
  rd p i = OutOfBounds \/ exists b, rd p i = Ok b.
Proof.
  unfold rd. destruct (i <? 0); [by left|].
  destruct (p !! Z.to_nat i) as [b|]; [right; by exists b|by left].
Qed.

Section png_encode_spec.
Import memory_surface png.
Variable lodepng_encode : list byte -> Z -> Z -> Z * list byte.

(** The conversion loop, read off as one four-byte block per pixel. *)
Lemma rgba_loop_blocks (n : Z) (body : Z -> list byte -> checked (list byte))
    (f0 f1 f2 : Z -> byte) :
  0 <= n ->
  (forall i dst, 0 <= i < n -> len dst = n * 4 ->
     body i dst
     = Ok (<[Z.to_nat (i * 4 + 3) := xff]>
             (<[Z.to_nat (i * 4 + 2) := f2 i]>
                (<[Z.to_nat (i * 4 + 1) := f1 i]>
                   (<[Z.to_nat (i * 4 + 0) := f0 i]> dst))))) ->
  for_each (seqZ 0 n) body (replicate (Z.to_nat (n * 4)) x00)
  = Ok (mjoin ((fun i => [f0 i; f1 i; f2 i; xff]) <$> seqZ 0 n)).
Proof.
  intros Hn Hbody.
  destruct (rgba_loop n body f0 f1 f2 (replicate (Z.to_nat (n * 4)) x00))
    with (k := Z.to_nat n) as (out & E & Hlen & Hpx);
    [rewrite len_replicate; lia|exact Hbody|lia|].
  rewrite Z2Nat.id in E, Hpx by lia. rewrite E. f_equal.
  set (blocks := (fun i => [f0 i; f1 i; f2 i; xff]) <$> seqZ 0 n).
  assert (Hblocks : Forall (fun l => length l = 4%nat) blocks).
  { subst blocks. apply Forall_fmap, Forall_forall. intros i _. reflexivity. }
  apply (list_eq_same_length _ _ (Z.to_nat (n * 4))).
  { rewrite (join_length_uniform 4 blocks Hblocks). subst blocks.
    rewrite length_fmap, length_seqZ. lia. }
  { unfold len in Hlen. lia. }
  intros j x y Hj Hx Hy.
  pose proof (Z.div_mod (Z.of_nat j) 4 ltac:(lia)) as Hdm.
  pose proof (Z.mod_pos_bound (Z.of_nat j) 4 ltac:(lia)) as Hmod.
  set (i := Z.of_nat j / 4) in *. set (k := Z.of_nat j mod 4) in *.
  assert (Hi : 0 <= i < n) by lia.
  assert (Hk : 0 <= k < 4) by lia.
  assert (Hjk : j = (Z.to_nat i * 4 + Z.to_nat k)%nat) by lia.
  destruct (Hpx i Hi) as (H0 & H1 & H2 & H3).
  assert (Hl : blocks !! Z.to_nat i = Some [f0 i; f1 i; f2 i; xff]).
  { subst blocks. rewrite list_lookup_fmap, lookup_seqZ_lt by lia.
    cbn [fmap option_fmap option_map]. rewrite Z.add_0_l, Z2Nat.id by lia.
    reflexivity. }
  rewrite Hjk in Hy.
  apply (join_lookup_Some_same_length' 4) in Hy; [|exact Hblocks|lia].
  destruct Hy as (l & Hl' & Hy). rewrite Hl in Hl'. injection Hl' as <-.
  assert (Hj4 : j = Z.to_nat (i * 4 + k)) by lia.
  rewrite Hj4 in Hx.
  assert (Hc : k = 0 \/ k = 1 \/ k = 2 \/ k = 3) by lia.
  destruct Hc as [Hc|[Hc|[Hc|Hc]]]; rewrite Hc in Hx, Hy;
    [change (Z.to_nat 0) with 0%nat in Hy
    |change (Z.to_nat 1) with 1%nat in Hy
    |change (Z.to_nat 2) with 2%nat in Hy
    |change (Z.to_nat 3) with 3%nat in Hy];
    cbn [lookup list_lookup] in Hy; congruence.
Qed.

Lemma to_rgba_rgb888 (surf : t) :
  format_ surf = rgb888 -> 0 < width_ surf -> 0 < height_ surf ->
  len (pixels_ surf) = width_ surf * height_ surf * 3 ->
  len (pixels_ surf) <= MAX_BUFFER_SIZE ->
  to_rgba surf = Ok (spec_rgba surf).
Proof.
  intros Hf Hw Hh Hlen Hsz.
  assert (Hmax : MAX_BUFFER_SIZE = 1073741824) by reflexivity.
  unfold to_rgba, rgb_to_rgba, spec_rgba. rewrite Hf.
  rewrite (wrap32_small (width_ surf)), (wrap32_small (height_ surf)) by nia.
  set (n := width_ surf * height_ surf) in *.
  rewrite (wrap32_small n), (wrap32_small (n * 4)) by lia.
  rewrite (rgba_loop_blocks n _
             (fun i => default x00 (pixels_ surf !! Z.to_nat (i * 3 + 0)))
             (fun i => default x00 (pixels_ surf !! Z.to_nat (i * 3 + 1)))
             (fun i => default x00 (pixels_ surf !! Z.to_nat (i * 3 + 2))));
    [|lia|intros i dst Hi Hd;
          apply (rgb_body _ _ n); [lia|lia|exact Hlen|exact Hd]].
  f_equal. f_equal. apply list_fmap_ext. intros j i Hji.
  apply lookup_seqZ in Hji as [-> Hj].
  unfold spec_rgba_pixel. rewrite Hf.
  rewrite (take_3_drop x00) by (unfold len in Hlen; lia).
  cbn [app]. repeat f_equal; lia.
Qed.

Lemma to_rgba_indexed8 (surf : t) :
  format_ surf = indexed8 -> 0 < width_ surf -> 0 < height_ surf ->
  len (pixels_ surf) = width_ surf * height_ surf ->
  width_ surf * height_ surf < 2 ^ 30 ->
  to_rgba surf = Ok (spec_rgba surf).
Proof.
  intros Hf Hw Hh Hlen Hsz.
  unfold to_rgba, indexed_to_rgba, spec_rgba. rewrite Hf.
  rewrite (wrap32_small (width_ surf)), (wrap32_small (height_ surf)) by nia.
  set (n := width_ surf * height_ surf) in *.
  rewrite (wrap32_small n), (wrap32_small (n * 4)) by lia.
  set (entry := fun (k i : Z) =>
         match pixels_ surf !! Z.to_nat i with
         | Some index =>
             if u8 index * 3 + 2 <? len (palette_ surf)
             then default x00 (palette_ surf !! Z.to_nat (u8 index * 3 + k))
             else x00
         | None => x00
         end).
  rewrite (rgba_loop_blocks n _ (entry 0) (entry 1) (entry 2));
    [|lia|intros i dst Hi Hd; cbv beta;
          rewrite (indexed_body _ _ _ n) by (first [lia | assumption]);
          reflexivity].
  f_equal. f_equal. apply list_fmap_ext. intros j i Hji.
  apply lookup_seqZ in Hji as [-> Hj].
  unfold spec_rgba_pixel. rewrite Hf. subst entry. cbv beta zeta.
  destruct (pixels_ surf !! Z.to_nat (0 + Z.of_nat j)) as [index|] eqn:El.
  2:{ apply lookup_ge_None in El. unfold len in Hlen. lia. }
  change (default x00 (Some index)) with index.
  pose proof (u8_range index) as Hidx.
  destruct (u8 index * 3 + 2 <? len (palette_ surf)) eqn:Ep.
  - rewrite (take_3_drop x00) by (unfold len in Ep; lia).
    cbn [length Nat.eqb app]. repeat f_equal; lia.
  - assert (Hshort : (length (take 3 (drop (Z.to_nat (u8 index * 3))
                                        (palette_ surf))) < 3)%nat).
    { rewrite length_take, length_drop. unfold len in Ep. lia. }
    destruct (Nat.eqb_spec
                (length (take 3 (drop (Z.to_nat (u8 index * 3))
                                   (palette_ surf)))) 3) as [Heq|_];
      [lia|reflexivity].
Qed.

(** C9.  What [encode_png] hands to lodepng, against the buffer the
    specification describes ([spec_rgba]): on a surface with positive
    dimensions whose pixel buffer has the size [set_size] gave it, the
    two are the same for rgba8888 (verbatim copy), for rgb888 (alpha 255
    added) and for indexed8 with fewer than 2^30 pixels (palette entry or
    opaque black), and the encoder returns lodepng's output, or the empty
    vector when lodepng reports an error; with a non-positive dimension
    it returns the empty vector.  For an indexed8 surface of exactly
    2^30 pixels, which [set_size] admits, the 32-bit product
    width*height*4 is 0 and the first pixel is written outside the empty
    buffer. *)
Theorem encode_png_builds_rgba (surf : t) :
  (width_ surf <= 0 \/ height_ surf <= 0 ->
   encode_png lodepng_encode surf = Ok [])
  /\ (0 < width_ surf -> 0 < height_ surf ->
      len (pixels_ surf)
      = width_ surf * height_ surf * bytes_per_pixel (format_ surf) ->
      len (pixels_ surf) <= MAX_BUFFER_SIZE ->
      (format_ surf = indexed8 -> width_ surf * height_ surf < 2 ^ 30) ->
      to_rgba surf = Ok (spec_rgba surf)
      /\ encode_png lodepng_encode surf
         = Ok (if fst (lodepng_encode (spec_rgba surf) (width_ surf)
                         (height_ surf)) =? 0
               then snd (lodepng_encode (spec_rgba surf) (width_ surf)
                           (height_ surf))
               else []))
  /\ (format_ surf = indexed8 -> 0 < width_ surf -> 0 < height_ surf ->
      width_ surf * height_ surf = 2 ^ 30 ->
      encode_png lodepng_encode surf = OutOfBounds).
Proof.
  assert (Hmax : MAX_BUFFER_SIZE = 1073741824) by reflexivity.
  split; [|split].
  - intros Hdim. unfold encode_png.
    destruct ((width_ surf <=? 0) || (height_ surf <=? 0)) eqn:E0;
      [reflexivity|lia].
  - intros Hw Hh Hlen Hsz Hidx.
    assert (Hbpp : 1 <= bytes_per_pixel (format_ surf) <= 4)
      by (destruct (format_ surf); simpl; lia).
    assert (E : to_rgba surf = Ok (spec_rgba surf)).
    { destruct (format_ surf) eqn:Hf; cbn [bytes_per_pixel] in Hlen.
      - apply to_rgba_indexed8; try assumption; [lia|by apply Hidx].
      - by apply to_rgba_rgb888.
      - unfold to_rgba, spec_rgba. rewrite Hf. reflexivity. }
    split; [exact E|]. unfold encode_png.
    destruct ((width_ surf <=? 0) || (height_ surf <=? 0)) eqn:E0; [lia|].
    rewrite E. cbn [cbind].
    rewrite (wrap32_small (width_ surf)), (wrap32_small (height_ surf))
      by nia.
    destruct (lodepng_encode (spec_rgba surf) (width_ surf) (height_ surf))
      as [error png].
    cbn [fst snd]. destruct (error =? 0); reflexivity.
  - intros Hf Hw Hh Hwh. unfold encode_png, to_rgba, indexed_to_rgba.
    destruct ((width_ surf <=? 0) || (height_ surf <=? 0)) eqn:E0; [lia|].
    rewrite Hf.
    rewrite (wrap32_small (width_ surf)), (wrap32_small (height_ surf))
      by nia.
    rewrite Hwh. rewrite (wrap32_small (2 ^ 30)) by lia.
    change (wrap32 (2 ^ 30 * 4)) with 0.
    change (Z.to_nat 0) with 0%nat. cbn [replicate].
    rewrite (seqZ_cons 0 (2 ^ 30)) by lia. cbn [for_each].
    destruct (rd_cases (pixels_ surf) 0) as [->|[index ->]]; cbn [cbind];
      [reflexivity|].
    cbv zeta.
    destruct (u8 index * 3 + 2 <? len (palette_ surf)); [|reflexivity].
    destruct (rd_cases (palette_ surf) (u8 index * 3 + 0)) as [->|[p0 ->]];
      cbn [cbind]; reflexivity.
Qed.

End png_encode_spec.

Lemma encode_png_builds_rgba_witness :
  png.encode_png (fun rgba _ _ => (0, rgba))
    {| memory_surface.pixels_ := [x01; x00];
       memory_surface.palette_ := [x0a; x0b; x0c];
       memory_surface.subrects_ := [];
       memory_surface.width_ := 2; memory_surface.height_ := 1;
       memory_surface.pitch_ := 2; memory_surface.format_ := indexed8 |}
  = Ok [x00; x00; x00; xff; x0a; x0b; x0c; xff]
  /\ png.encode_png (fun rgba _ _ => (0, rgba))
       {| memory_surface.pixels_ := replicate (Z.to_nat (2 ^ 30)) x00;
          memory_surface.palette_ := []; memory_surface.subrects_ := [];
          memory_surface.width_ := 32768; memory_surface.height_ := 32768;
          memory_surface.pitch_ := 32768;
          memory_surface.format_ := indexed8 |}
     = OutOfBounds.
Proof.
  split.
  - destruct (encode_png_builds_rgba (fun rgba _ _ => (0, rgba))
                {| memory_surface.pixels_ := [x01; x00];
                   memory_surface.palette_ := [x0a; x0b; x0c];
                   memory_surface.subrects_ := [];
                   memory_surface.width_ := 2; memory_surface.height_ := 1;
                   memory_surface.pitch_ := 2;
                   memory_surface.format_ := indexed8 |})
      as (_ & Hconv & _).
    destruct Hconv as [_ Henc];
      [reflexivity|reflexivity|reflexivity|vm_compute; congruence
      |intros _; reflexivity|].
    exact Henc.
  - destruct (encode_png_builds_rgba (fun rgba _ _ => (0, rgba))
                {| memory_surface.pixels_ :=
                     replicate (Z.to_nat (2 ^ 30)) x00;
                   memory_surface.palette_ := [];
                   memory_surface.subrects_ := [];
                   memory_surface.width_ := 32768;
                   memory_surface.height_ := 32768;
                   memory_surface.pitch_ := 32768;
                   memory_surface.format_ := indexed8 |})
      as (_ & _ & Hover).
    apply Hover; reflexivity.
Defined.

(* ===================================================================== *)
(** ** ICO: the icon atlas *)
(* ===================================================================== *)

Section atlas_rows.
Import memory_surface.

(** One [write_pixels] call at the start of row [y], seen through
    (row, column) coordinates. *)
Lemma write_row_lookup (s : t) (y n : Z) (src : list byte) :
  0 < pitch_ s ->
  Z.of_nat (length (pixels_ s)) = pitch_ s * height_ s ->
  0 <= y < height_ s -> 0 < n <= pitch_ s -> n <= Z.of_nat (length src) ->
  exists s',
    write_pixels 0 y n src s = Ok s'
    /\ width_ s' = width_ s /\ height_ s' = height_ s
    /\ pitch_ s' = pitch_ s
    /\ format_ s' = format_ s /\ palette_ s' = palette_ s
    /\ subrects_ s' = subrects_ s
    /\ length (pixels_ s') = length (pixels_ s)
    /\ forall r k, 0 <= r < height_ s -> 0 <= k < pitch_ s ->
         pixels_ s' !! Z.to_nat (r * pitch_ s + k)
         = if (r =? y) && (k <? n) then src !! Z.to_nat k
           else pixels_ s !! Z.to_nat (r * pitch_ s + k).
Proof.
  intros Hp Hlen Hy Hn Hsrc. unfold write_pixels.
  destruct ((y <? 0) || (y >=? height_ s) || (0 <? 0) || (n <=? 0)) eqn:E0;
    [lia|].
  destruct (0 >=? pitch_ s) eqn:E1; [lia|].
  rewrite Z.min_l by lia.
  destruct (y * pitch_ s + 0 + n <=? Z.of_nat (length (pixels_ s))) eqn:E2;
    [|nia].
  destruct (memcpy (pixels_ s) (y * pitch_ s + 0) src n) as [out| |] eqn:Em;
    try (rewrite memcpy_in_range in Em by (unfold len; lia); discriminate).
  cbn [cbind]. eexists. split; [reflexivity|].
  cbn [width_ height_ pitch_ format_ palette_ subrects_ pixels_].
  do 6 (split; [reflexivity|]).
  split; [apply (memcpy_length (pixels_ s) src out (y * pitch_ s + 0) n);
          [nia|nia|exact Em]|].
  intros r k Hr Hk.
  destruct ((r =? y) && (k <? n)) eqn:E.
  - assert (r = y) by lia. subst r.
    replace (Z.to_nat (y * pitch_ s + k))
      with (Z.to_nat (y * pitch_ s + 0) + Z.to_nat k)%nat by nia.
    apply (memcpy_lookup_inside (pixels_ s) src out (y * pitch_ s + 0) n);
      [nia|nia|exact Em|nia].
  - apply (memcpy_lookup_outside (pixels_ s) src out (y * pitch_ s + 0) n);
      [nia|nia|exact Em|].
    destruct (Z.eq_dec r y) as [->|Hne]; [right; lia|].
    destruct (Z_lt_le_dec r y); [left|right]; nia.
Qed.

(** The row loop of [create_icon_atlas] for one icon of [w] x [h] pixels
    placed at row [y0]. *)
Lemma copy_rows_lookup (s : t) (w h y0 : Z) (pix : list byte) (rows : nat) :
  0 < pitch_ s ->
  Z.of_nat (length (pixels_ s)) = pitch_ s * height_ s ->
  0 < w -> w * 4 <= pitch_ s ->
  0 <= y0 -> y0 + h <= height_ s ->
  Z.of_nat (length pix) = w * h * 4 ->
  Z.of_nat rows <= h ->
  exists s',
    for_each (seqZ 0 (Z.of_nat rows))
      (fun y surf =>
         write_pixels 0 (y0 + y) (w * 4)
           (drop (Z.to_nat (y * w * 4)) pix) surf)
      s = Ok s'
    /\ width_ s' = width_ s /\ height_ s' = height_ s
    /\ pitch_ s' = pitch_ s
    /\ format_ s' = format_ s /\ palette_ s' = palette_ s
    /\ subrects_ s' = subrects_ s
    /\ length (pixels_ s') = length (pixels_ s)
    /\ forall r k, 0 <= r < height_ s -> 0 <= k < pitch_ s ->
         pixels_ s' !! Z.to_nat (r * pitch_ s + k)
         = if (y0 <=? r) && (r <? y0 + Z.of_nat rows) && (k <? w * 4)
           then pix !! Z.to_nat ((r - y0) * w * 4 + k)
           else pixels_ s !! Z.to_nat (r * pitch_ s + k).
Proof.
  intros Hp Hlen Hw Hwp Hy0 Hh Hpix.
  induction rows as [|rows IH]; intros Hrows.
  { exists s. split; [reflexivity|]. do 7 (split; [reflexivity|]).
    intros r k Hr Hk.
    destruct ((y0 <=? r) && (r <? y0 + Z.of_nat 0) && (k <? w * 4)) eqn:E;
      [lia|reflexivity]. }
  destruct IH as (s1 & Es1 & Ew & Eh & Ep & Ef & Epal & Esub & El & Epx);
    [lia|].
  rewrite seqZ_snoc, for_each_app, Es1. cbn [cbind for_each].
  destruct (write_row_lookup s1 (y0 + (0 + Z.of_nat rows)) (w * 4)
              (drop (Z.to_nat ((0 + Z.of_nat rows) * w * 4)) pix))
    as (s2 & Es2 & Ew' & Eh' & Ep' & Ef' & Epal' & Esub' & El' & Epx').
  - lia.
  - rewrite El, Ep, Eh. exact Hlen.
  - lia.
  - lia.
  - rewrite length_drop. nia.
  - rewrite Es2. exists s2. split; [reflexivity|].
    split; [congruence|]. split; [congruence|]. split; [congruence|].
    split; [congruence|]. split; [congruence|]. split; [congruence|].
    split; [congruence|].
    intros r k Hr Hk. rewrite Ep, Eh in Epx'.
    rewrite Epx' by lia. rewrite Epx by lia.
    destruct ((r =? y0 + (0 + Z.of_nat rows)) && (k <? w * 4)) eqn:E1.
    + destruct ((y0 <=? r) && (r <? y0 + Z.of_nat (S rows)) && (k <? w * 4))
        eqn:E2; [|lia].
      rewrite lookup_drop. f_equal.
      assert (r = y0 + Z.of_nat rows) by lia. subst r.
      replace (y0 + Z.of_nat rows - y0) with (Z.of_nat rows) by lia.
      replace (0 + Z.of_nat rows) with (Z.of_nat rows) by lia.
      nia.
    + destruct ((y0 <=? r) && (r <? y0 + Z.of_nat rows) && (k <? w * 4))
        eqn:E2;
        destruct ((y0 <=? r) && (r <? y0 + Z.of_nat (S rows))
                  && (k <? w * 4)) eqn:E3; try reflexivity; lia.
Qed.

End atlas_rows.

Lemma copy_icons_cons (icon : ico.decoded_icon) (icons : list ico.decoded_icon)
    (i y_offset : Z) (s : memory_surface.t) :
  ico.copy_icons (icon :: icons) i y_offset s
  = (let! surf :=
       for_each (seqZ 0 (ico.height icon))
         (fun y surf =>
            memory_surface.write_pixels 0 (y_offset + y)
              (ico.width icon * 4)
              (drop (Z.to_nat (y * ico.width icon * 4)) (ico.pixels icon))
              surf)
         s in
     ico.copy_icons icons (i + 1) (y_offset + ico.height icon)
       (memory_surface.set_subrect i
          {| rect := {| rect_x := 0; rect_y := y_offset;
                        rect_w := ico.width icon;
                        rect_h := ico.height icon |};
             kind := sprite; user_tag := i |} surf)).
Proof. reflexivity. Qed.

Section atlas_copy.
Import memory_surface ico.

Local Notation "'sumh' l" := (foldr Z.add 0 (height <$> l))
  (at level 10, l at level 9, only parsing).
Local Notation "'maxw' l" := (foldr Z.max 0 (width <$> l))
  (at level 10, l at level 9, only parsing).

Lemma sumh_nonneg (icons : list decoded_icon) :
  Forall (fun icon => 0 <= height icon) icons -> 0 <= sumh icons.
Proof.
  induction 1 as [|icon icons Hh _ IH]; [reflexivity|].
  cbn [fmap list_fmap foldr] in *. lia.
Qed.

Lemma maxw_nonneg (icons : list decoded_icon) : 0 <= maxw icons.
Proof.
  induction icons as [|icon icons IH]; [reflexivity|].
  cbn [fmap list_fmap foldr] in *. lia.
Qed.

Lemma wrap64_small (z : Z) : 0 <= z < 2 ^ 64 -> wrap64 z = z.
Proof. intros Hz. unfold wrap64. apply Z.mod_small. exact Hz. Qed.

Lemma size_t_of_int_nonneg (z : Z) : 0 <= z -> size_t_of_int z = z.
Proof. intros Hz. unfold size_t_of_int. destruct (z <? 0) eqn:E; lia. Qed.

(** The size loop on icons that fit: no cast changes a value and the
    running height never wraps. *)
Lemma atlas_size_fits (icons : list decoded_icon) (max_h aw ah : Z) :
  Forall (fun icon => 0 <= width icon /\ 0 <= height icon) icons ->
  0 <= aw -> 0 <= ah ->
  ah + sumh icons <= max_h -> ah + sumh icons < 2 ^ 64 ->
  atlas_size icons max_h aw ah
  = Some (Z.max aw (maxw icons), ah + sumh icons).
Proof.
  intros Hall. revert aw ah.
  induction Hall as [|icon icons [Hw Hh] Hall IH]; intros aw ah Haw Hah Hfit Hsz.
  { cbn [atlas_size fmap list_fmap foldr]. f_equal. f_equal; lia. }
  assert (Hnn : Forall (fun icon => 0 <= height icon) icons)
    by (eapply Forall_impl; [exact Hall|]; cbv beta; intros; lia).
  pose proof (sumh_nonneg icons Hnn) as Hs.
  cbn [atlas_size fmap list_fmap foldr] in *.
  rewrite !size_t_of_int_nonneg by lia.
  rewrite wrap64_small by lia.
  destruct (ah + height icon >? max_h) eqn:E; [lia|].
  rewrite IH by lia. f_equal. f_equal; lia.
Qed.

(** The size loop on [int] dimensions whose heights sum up to more than
    [max_h]: the running height passes [max_h] before it can wrap. *)
Lemma atlas_size_rejects (icons : list decoded_icon) (max_h aw ah : Z) :
  Forall (fun icon => 0 <= height icon <= INT_MAX) icons ->
  0 <= ah <= max_h -> max_h <= INT_MAX ->
  ah + sumh icons > max_h ->
  atlas_size icons max_h aw ah = None.
Proof.
  intros Hall. revert aw ah.
  induction Hall as [|icon icons Hh Hall IH]; intros aw ah Hah Hmax Hover.
  { cbn [fmap list_fmap foldr] in Hover. lia. }
  cbn [atlas_size fmap list_fmap foldr] in *. unfold INT_MAX in *.
  rewrite (size_t_of_int_nonneg (height icon)) by lia.
  rewrite (size_t_of_int_nonneg max_h) by lia.
  rewrite wrap64_small by lia.
  destruct (ah + height icon >? max_h) eqn:E; [reflexivity|].
  apply IH; lia.
Qed.

Lemma sumh_take_lookup (icons : list decoded_icon) (j : nat)
    (icon : decoded_icon) :
  Forall (fun icon => 0 <= height icon) icons ->
  icons !! j = Some icon ->
  0 <= sumh (take j icons)
  /\ sumh (take j icons) + height icon <= sumh icons.
Proof.
  intros Hall. revert j.
  induction Hall as [|icon0 icons Hh Hall IH]; intros j Hj; [done|].
  destruct j as [|j].
  - injection Hj as ->. pose proof (sumh_nonneg icons Hall) as Hs.
    cbn [take fmap list_fmap foldr] in *. lia.
  - destruct (IH j Hj) as [H0 H1].
    cbn [take fmap list_fmap foldr] in *. lia.
Qed.

Lemma set_subrect_append (i : Z) (sr : subrect) (s : t) :
  0 <= i -> length (subrects_ s) = Z.to_nat i ->
  set_subrect i sr s
  = {| pixels_ := pixels_ s; palette_ := palette_ s;
       subrects_ := subrects_ s ++ [sr];
       width_ := width_ s; height_ := height_ s; pitch_ := pitch_ s;
       format_ := format_ s |}.
Proof.
  intros Hi Hl. unfold set_subrect.
  destruct (i <? 0) eqn:E0; [lia|].
  destruct (i >=? Z.of_nat (length (subrects_ s))) eqn:E1; [|lia].
  f_equal. unfold resize_subrects.
  rewrite take_ge by lia.
  replace (Z.to_nat (i + 1) - length (subrects_ s))%nat with 1%nat by lia.
  cbn [replicate].
  rewrite insert_app_r_alt by lia.
  replace (Z.to_nat i - length (subrects_ s))%nat with 0%nat by lia.
  reflexivity.
Qed.

(** The copy loop of [create_icon_atlas] from icon number [i] and row
    [y0] on, on a surface laid out row by row. *)
Lemma copy_icons_spec (icons : list decoded_icon) :
  forall (i y0 : Z) (s : t),
  0 < pitch_ s ->
  Z.of_nat (length (pixels_ s)) = pitch_ s * height_ s ->
  0 <= y0 -> y0 + sumh icons <= height_ s ->
  0 <= i -> length (subrects_ s) = Z.to_nat i ->
  Forall (fun icon =>
            0 < width icon /\ width icon * 4 <= pitch_ s
            /\ 0 < height icon
            /\ Z.of_nat (length (pixels icon))
               = width icon * height icon * 4) icons ->
  exists s',
  copy_icons icons i y0 s = Ok s' /\
  width_ s' = width_ s /\ height_ s' = height_ s /\ pitch_ s' = pitch_ s
  /\ format_ s' = format_ s /\ palette_ s' = palette_ s
  /\ subrects_ s'
     = subrects_ s
       ++ imap (fun j icon =>
                  {| rect := {| rect_x := 0;
                                rect_y := y0 + sumh (take j icons);
                                rect_w := width icon;
                                rect_h := height icon |};
                     kind := sprite;
                     user_tag := i + Z.of_nat j |}) icons
  /\ length (pixels_ s') = length (pixels_ s)
  /\ (forall j icon y k,
        icons !! j = Some icon -> 0 <= y < height icon ->
        0 <= k < pitch_ s ->
        pixels_ s'
          !! Z.to_nat ((y0 + sumh (take j icons) + y) * pitch_ s + k)
        = if k <? width icon * 4
          then pixels icon !! Z.to_nat (y * width icon * 4 + k)
          else pixels_ s
                 !! Z.to_nat ((y0 + sumh (take j icons) + y) * pitch_ s + k))
  /\ (forall r k,
        0 <= r < height_ s -> 0 <= k < pitch_ s ->
        r < y0 \/ y0 + sumh icons <= r ->
        pixels_ s' !! Z.to_nat (r * pitch_ s + k)
        = pixels_ s !! Z.to_nat (r * pitch_ s + k)).
Proof.
  induction icons as [|icon rest IH];
    intros i y0 s Hp Hlen Hy0 Hfit Hi Hsub Hall.
  { exists s. cbn [copy_icons imap]. rewrite app_nil_r.
    split; [reflexivity|].
    do 7 (split; [reflexivity|]). split; [|reflexivity].
    intros j icon y k Hj. discriminate. }
  rewrite copy_icons_cons.
  apply Forall_cons in Hall as [(Hw & Hwp & Hh & Hpix) Hall].
  assert (Hnn : Forall (fun icon => 0 <= height icon) rest)
    by (eapply Forall_impl; [exact Hall|]; cbv beta; intros; lia).
  pose proof (sumh_nonneg rest Hnn) as Hsum.
  cbn [fmap list_fmap foldr] in Hfit, Hsum.
  (* the rows of the first icon *)
  pose proof (copy_rows_lookup s (width icon) (height icon) y0 (pixels icon)
                (Z.to_nat (height icon)) Hp Hlen Hw Hwp Hy0) as Hrows.
  rewrite Z2Nat.id in Hrows by lia.
  specialize (Hrows ltac:(lia) Hpix ltac:(lia)).
  destruct Hrows
    as (s1 & Erows & Ew1 & Eh1 & Ep1 & Ef1 & Epal1 & Esub1 & El1 & Epx1).
  rewrite Erows. cbn [cbind].
  (* its sub-rectangle *)
  rewrite (set_subrect_append i _ s1) by (first [lia | congruence]).
  set (s2 := {| pixels_ := pixels_ s1 |}).
  assert (Epx2 : pixels_ s2 = pixels_ s1) by reflexivity.
  assert (Ew2 : width_ s2 = width_ s) by (subst s2; exact Ew1).
  assert (Eh2 : height_ s2 = height_ s) by (subst s2; exact Eh1).
  assert (Ep2 : pitch_ s2 = pitch_ s) by (subst s2; exact Ep1).
  assert (Ef2 : format_ s2 = format_ s) by (subst s2; exact Ef1).
  assert (Epal2 : palette_ s2 = palette_ s) by (subst s2; exact Epal1).
  assert (Esub2 : subrects_ s2
                  = subrects_ s
                    ++ [{| rect := {| rect_x := 0; rect_y := y0;
                                      rect_w := width icon;
                                      rect_h := height icon |};
                           kind := sprite; user_tag := i |}])
    by (subst s2; cbn [subrects_]; rewrite Esub1; reflexivity).
  clearbody s2.
  (* the remaining icons *)
  destruct (IH (i + 1) (y0 + height icon) s2)
    as (s3 & Erest & Ew & Eh & Ep & Ef & Epal & Esub & El & Ea & Eb).
  { lia. } { rewrite Epx2, El1, Ep2, Eh2. exact Hlen. } { lia. }
  { rewrite Eh2. lia. } { lia. }
  { rewrite Esub2, length_app, Hsub. cbn [length]. lia. }
  { rewrite Ep2. exact Hall. }
  rewrite Ep2, Eh2, Epx2 in *.
  exists s3. split; [exact Erest|].
  split; [congruence|]. split; [congruence|]. split; [congruence|].
  split; [congruence|]. split; [congruence|].
  split.
  { rewrite Esub, Esub2, <- app_assoc. f_equal. cbn [app imap].
    f_equal.
    - cbn [take fmap list_fmap foldr]. change (Z.of_nat 0) with 0.
      rewrite !Z.add_0_r. reflexivity.
    - apply imap_ext. intros j icon' Hj. unfold compose.
      cbn [take fmap list_fmap foldr]. rewrite Z.add_assoc.
      replace (i + Z.of_nat (S j)) with (i + 1 + Z.of_nat j) by lia.
      reflexivity. }
  split; [congruence|].
  split.
  - intros j icon' y k Hj Hy Hk. destruct j as [|j].
    + injection Hj as <-. cbn [take fmap list_fmap foldr].
      rewrite Eb by lia. rewrite Epx1 by lia.
      assert (Hc : (y0 <=? y0 + 0 + y) && (y0 + 0 + y <? y0 + height icon)
                   = true) by lia.
      rewrite Hc. cbn [andb].
      replace (y0 + 0 + y - y0) with y by lia. reflexivity.
    + cbn [lookup list_lookup] in Hj.
      destruct (sumh_take_lookup rest j icon' Hnn Hj) as [Ht0 Ht1].
      cbn [take fmap list_fmap foldr].
      cbn [fmap list_fmap foldr] in Ht0, Ht1.
      rewrite !(Z.add_assoc y0 (height icon)).
      rewrite (Ea j icon' y k Hj Hy Hk).
      destruct (k <? width icon' * 4); [reflexivity|].
      rewrite Epx1 by lia.
      match goal with
      | |- (if ?c then _ else _) = _ => destruct c eqn:E; [lia|reflexivity]
      end.
  - intros r k Hr Hk Hout. cbn [fmap list_fmap foldr] in Hout.
    rewrite Eb by lia. rewrite Epx1 by lia.
    match goal with
    | |- (if ?c then _ else _) = _ => destruct c eqn:E; [lia|reflexivity]
    end.
Qed.

Lemma maxw_bound (icons : list decoded_icon) :
  Forall (fun icon => width icon <= maxw icons) icons.
Proof.
  induction icons as [|icon rest IH]; [constructor|].
  cbn [fmap list_fmap foldr] in *. constructor; [lia|].
  eapply Forall_impl; [exact IH|]. cbv beta. intros. lia.
Qed.

(** X26.  create_icon_atlas stacks the icons vertically.  For icons that
    fit the limits it succeeds with an rgba8888 surface whose width is
    the largest icon width and whose height is the sum of the icon
    heights; icon j gets the sub-rectangle (0, sum of the heights before
    it, its width, its height) with kind sprite and tag j, its pixel
    rows are copied to that rectangle, and the bytes to the right of a
    narrower icon stay zero. *)
Theorem ico_atlas_layout (icons : list decoded_icon) (s0 : t)
    (max_w max_h : Z) :
  icons <> [] ->
  Forall (fun icon =>
            0 < width icon /\ 0 < height icon
            /\ Z.of_nat (length (pixels icon))
               = width icon * height icon * 4) icons ->
  sumh icons <= max_h -> maxw icons <= max_w ->
  maxw icons * 4 * sumh icons <= MAX_BUFFER_SIZE ->
  exists s,
    create_icon_atlas icons s0 max_w max_h = Ok (success, s)
    /\ width_ s = maxw icons /\ height_ s = sumh icons
    /\ format_ s = rgba8888
    /\ length (subrects_ s) = length icons
    /\ forall j icon,
         icons !! j = Some icon ->
         subrects_ s !! j
         = Some {| rect := {| rect_x := 0; rect_y := sumh (take j icons);
                              rect_w := width icon; rect_h := height icon |};
                   kind := sprite; user_tag := Z.of_nat j |}
         /\ forall y k,
              0 <= y < height icon -> 0 <= k < maxw icons * 4 ->
              pixels_ s
                !! Z.to_nat ((sumh (take j icons) + y) * (maxw icons * 4) + k)
              = if k <? width icon * 4
                then pixels icon !! Z.to_nat (y * width icon * 4 + k)
                else Some x00.
Proof.
  intros Hne Hall Hsum Hmaxw Hsz.
  assert (Hmax : MAX_BUFFER_SIZE = 1073741824) by reflexivity.
  assert (Hnn : Forall (fun icon => 0 <= height icon) icons)
    by (eapply Forall_impl; [exact Hall|]; cbv beta; intros; lia).
  pose proof (maxw_bound icons) as Hbound.
  assert (Hpos : 0 < maxw icons /\ 0 < sumh icons).
  { destruct icons as [|icon rest]; [congruence|].
    apply Forall_cons in Hall as [(Hw & Hh & _) Hall].
    apply Forall_cons in Hnn as [_ Hnn].
    apply Forall_cons in Hbound as [Hb _].
    pose proof (sumh_nonneg rest Hnn).
    cbn [fmap list_fmap foldr] in *. lia. }
  assert (Hdims : Forall (fun icon => 0 <= width icon /\ 0 <= height icon)
                    icons)
    by (eapply Forall_impl; [exact Hall|]; cbv beta; intros; lia).
  unfold create_icon_atlas.
  destruct icons as [|icon0 rest] eqn:Eicons; [congruence|].
  rewrite <- Eicons in *. clear Hne.
  rewrite (atlas_size_fits icons max_h 0 0) by (first [exact Hdims | nia]).
  rewrite Z.max_r by lia. rewrite Z.add_0_l.
  rewrite (size_t_of_int_nonneg max_w) by lia.
  destruct (maxw icons >? max_w) eqn:Ew; [lia|].
  rewrite !to_int32_small by nia.
  rewrite set_size_memory_surface.
  rewrite (set_size_accepts (maxw icons) (sumh icons) rgba8888 s0)
    by (unfold INT_MAX; cbn [bytes_per_pixel]; nia).
  cbn [negb bytes_per_pixel].
  set (s1 := {| pixels_ := _ |}).
  destruct (copy_icons_spec icons 0 0 s1)
    as (s2 & Ecopy & Ewd & Eht & Ep & Ef & _ & Esub & El & Ea & _).
  { subst s1. cbn [pitch_]. lia. }
  { subst s1. cbn [pixels_ pitch_ height_]. rewrite length_replicate. nia. }
  { lia. } { subst s1. cbn [height_]. lia. } { lia. } { reflexivity. }
  { subst s1. cbn [pitch_].
    apply Forall_forall. intros icon Hin.
    rewrite Forall_forall in Hall. rewrite Forall_forall in Hbound.
    destruct (Hall icon Hin) as (Hw & Hh & Hl).
    pose proof (Hbound icon Hin). repeat split; lia. }
  change (subrects_ s1) with (@nil subrect) in Esub. cbn [app] in Esub.
  rewrite Ecopy. cbn [cbind].
  exists s2. split; [reflexivity|].
  split; [rewrite Ewd; reflexivity|]. split; [rewrite Eht; reflexivity|].
  split; [rewrite Ef; reflexivity|].
  split; [rewrite Esub; apply length_imap|].
  intros j icon Hj. split.
  - rewrite Esub. rewrite list_lookup_imap, Hj.
    cbn [fmap option_fmap option_map]. rewrite !Z.add_0_l. reflexivity.
  - intros y k Hy Hk.
    destruct (sumh_take_lookup icons j icon Hnn Hj) as [Ht0 Ht1].
    assert (Hp1 : pitch_ s1 = maxw icons * 4) by reflexivity.
    rewrite Hp1 in Ea.
    specialize (Ea j icon y k Hj Hy Hk). rewrite !Z.add_0_l in Ea.
    rewrite Ea. destruct (k <? width icon * 4); [reflexivity|].
    subst s1. cbn [pixels_]. apply lookup_replicate_2. nia.
Qed.


(** X27.  create_icon_atlas, called with positive limits as decode calls
    it, refuses a non-empty list of icons (of non-negative int
    dimensions) whose summed height exceeds max_h or whose largest
    width exceeds max_w: it reports dimensions_exceeded and does not
    touch the surface. *)
Theorem ico_atlas_rejects_oversize {Surf : Type} `{!surface Surf}
    (icons : list decoded_icon) (surf : Surf) (max_w max_h : Z) :
  icons <> [] ->
  Forall (fun icon => 0 <= width icon /\ 0 <= height icon <= INT_MAX) icons ->
  0 < max_w -> 0 < max_h <= INT_MAX ->
  sumh icons > max_h \/ maxw icons > max_w ->
  exists r,
    create_icon_atlas icons surf max_w max_h = Ok (r, surf)
    /\ ok r = false /\ error r = dimensions_exceeded.
Proof.
  intros Hne Hall Hmw Hmh Hover.
  pose proof (maxw_nonneg icons) as Hm.
  assert (Hh : Forall (fun icon => 0 <= height icon <= INT_MAX) icons)
    by (eapply Forall_impl; [exact Hall|]; cbv beta; intros; lia).
  assert (Hdims : Forall (fun icon => 0 <= width icon /\ 0 <= height icon)
                    icons)
    by (eapply Forall_impl; [exact Hall|]; cbv beta; intros; lia).
  unfold create_icon_atlas.
  destruct icons as [|icon0 rest] eqn:Eicons; [congruence|].
  rewrite <- Eicons in *. clear Hne.
  destruct (Z_le_gt_dec (sumh icons) max_h) as [Hfit|Hhigh].
  - rewrite (atlas_size_fits icons max_h 0 0)
      by (first [exact Hdims | unfold INT_MAX in *; lia]).
    rewrite Z.max_r by lia.
    rewrite (size_t_of_int_nonneg max_w) by lia.
    destruct (maxw icons >? max_w) eqn:Ew; [|lia].
    eexists. split; [reflexivity|]. by split.
  - rewrite (atlas_size_rejects icons max_h 0 0) by (first [exact Hh | lia]).
    eexists. split; [reflexivity|]. by split.
Qed.

End atlas_copy.

Lemma ico_atlas_layout_witness :
  let small := {| ico.width := 1; ico.height := 1;
                  ico.pixels := [x01; x02; x03; x04] |} in
  let wide := {| ico.width := 2; ico.height := 1;
                 ico.pixels := [x11; x12; x13; x14; x21; x22; x23; x24] |} in
  exists s,
    ico.create_icon_atlas [small; wide] memory_surface.empty 256 256
    = Ok (success, s)
    /\ memory_surface.width_ s = 2 /\ memory_surface.height_ s = 2
    /\ length (memory_surface.subrects_ s) = 2%nat.
Proof.
  intros small wide.
  destruct (ico_atlas_layout [small; wide] memory_surface.empty 256 256)
    as (s & E & Hw & Hh & _ & Hl & _).
  - discriminate.
  - repeat constructor.
  - vm_compute. congruence.
  - vm_compute. congruence.
  - vm_compute. congruence.
  - exists s. exact (conj E (conj Hw (conj Hh Hl))).
Defined.

Lemma ico_atlas_rejects_oversize_witness :
  exists r,
    ico.create_icon_atlas
      [{| ico.width := 1; ico.height := 200; ico.pixels := [] |};
       {| ico.width := 1; ico.height := 100; ico.pixels := [] |}]
      memory_surface.empty 256 256
    = Ok (r, memory_surface.empty)
    /\ ok r = false /\ error r = dimensions_exceeded.
Proof.
  apply (ico_atlas_rejects_oversize
           [{| ico.width := 1; ico.height := 200; ico.pixels := [] |};
            {| ico.width := 1; ico.height := 100; ico.pixels := [] |}]
           memory_surface.empty 256 256).
  - discriminate.
  - repeat constructor; vm_compute; congruence.
  - reflexivity.
  - split; [reflexivity|]. vm_compute. congruence.
  - left. vm_compute. reflexivity.
Defined.

(* ===================================================================== *)
(** ** ICO: from the file to the atlas *)
(* ===================================================================== *)




Section ico_decode_facts.
Import ico.
Variable lodepng_decode : list byte -> png.lodepng_image.

Local Notation "'sumh' l" := (foldr Z.add 0 (height <$> l))
  (at level 10, l at level 9, only parsing).
Local Notation "'maxw' l" := (foldr Z.max 0 (width <$> l))
  (at level 10, l at level 9, only parsing).












End ico_decode_facts.



(* ===================================================================== *)
(** ** Dimension limits *)
(* ===================================================================== *)

Section dimension_limits.








Context {Surf : Type} `{!surface Surf}.


End dimension_limits.




(* ===================================================================== *)
(** ** The registry: registration and lookup by name *)
(* ===================================================================== *)

Section registry_facts.
Import codec.
Context {Surf : Type} `{!surface Surf}.

Lemma find_decoder_app (pre post : @codec_registry Surf) (data : list byte) :
  find_decoder (pre ++ post) data
  = (let! found := find_decoder pre data in
     match found with
     | Some d => Ok (Some d)
     | None => find_decoder post data
     end).
Proof.
  induction pre as [|d pre IH]; [reflexivity|].
  cbn [app find_decoder].
  destruct (sniff d data) as [accepted| |]; cbn [cbind]; try reflexivity.
  destruct accepted; [reflexivity|exact IH].
Qed.

Lemma find_decoder_by_name_app (pre post : @codec_registry Surf)
    (n : string) :
  find_decoder_by_name (pre ++ post) n
  = match find_decoder_by_name pre n with
    | Some d => Some d
    | None => find_decoder_by_name post n
    end.
Proof.
  induction pre as [|d pre IH]; [reflexivity|].
  cbn [app find_decoder_by_name].
  destruct (String.eqb (name d) n); [reflexivity|exact IH].
Qed.

(** X28.  register_decoder appends: a decoder registered later never
    pre-empts an earlier one.  Whatever the registry already finds for
    some data or for some name it still finds afterwards; the new
    decoder is consulted only when no earlier decoder claims the data
    (or carries the name).  Registering a null decoder changes
    nothing. *)
Theorem register_decoder_appends (registry : @codec_registry Surf)
    (dec : @decoder Surf) (data : list byte) (n : string) :
  find_decoder (register_decoder (Some dec) registry) data
  = (let! found := find_decoder registry data in
     match found with
     | Some d => Ok (Some d)
     | None =>
         let! accepted := sniff dec data in
         Ok (if accepted then Some dec else None)
     end)
  /\ find_decoder_by_name (register_decoder (Some dec) registry) n
     = match find_decoder_by_name registry n with
       | Some d => Some d
       | None => if String.eqb (name dec) n then Some dec else None
       end
  /\ register_decoder None registry = registry.
Proof.
  cbn [register_decoder]. split; [|split; [|reflexivity]].
  - rewrite find_decoder_app.
    destruct (find_decoder registry data) as [[d|]| |]; cbn [cbind];
      try reflexivity.
    cbn [find_decoder].
    destruct (sniff dec data) as [accepted| |]; cbn [cbind]; try reflexivity.
    destruct accepted; reflexivity.
  - rewrite find_decoder_by_name_app. reflexivity.
Qed.

Lemma find_decoder_by_name_first (pre post : @codec_registry Surf)
    (dec : @decoder Surf) (n : string) :
  Forall (fun d => name d <> n) pre -> name dec = n ->
  find_decoder_by_name (pre ++ dec :: post) n = Some dec.
Proof.
  intros Hpre Hdec. induction Hpre as [|d pre Hd _ IH]; cbn.
  - apply String.eqb_eq in Hdec. rewrite Hdec. reflexivity.
  - apply String.eqb_neq in Hd. rewrite Hd. exact IH.
Qed.

Lemma find_decoder_by_name_none (registry : @codec_registry Surf)
    (n : string) :
  Forall (fun d => name d <> n) registry ->
  find_decoder_by_name registry n = None.
Proof.
  intros H. induction H as [|d registry Hd _ IH]; cbn; [reflexivity|].
  apply String.eqb_neq in Hd. rewrite Hd. exact IH.
Qed.

(** X29.  Decode by codec name runs the first registered decoder with that
    name, without consulting any sniff; when no decoder has the name it
    fails with invalid_format and the message "Unknown codec: <name>",
    leaving the surface untouched. *)
Theorem decode_named_dispatch (registry : @codec_registry Surf)
    (data : list byte) (surf : Surf) (codec_name : string)
    (options : decode_options) :
  (forall pre dec post,
      registry = pre ++ dec :: post ->
      Forall (fun d => name d <> codec_name) pre ->
      name dec = codec_name ->
      decode_named registry data surf codec_name options
      = decode dec data surf options)
  /\ (Forall (fun d => name d <> codec_name) registry ->
      decode_named registry data surf codec_name options
      = Ok (failure invalid_format
              (String.append "Unknown codec: " codec_name), surf)).
Proof.
  split.
  - intros pre dec post -> Hpre Hdec. unfold decode_named.
    rewrite (find_decoder_by_name_first pre post dec codec_name Hpre Hdec).
    reflexivity.
  - intros Hall. unfold decode_named.
    rewrite (find_decoder_by_name_none registry codec_name Hall).
    reflexivity.
Qed.

End registry_facts.

Lemma decode_named_dispatch_witness :
  let registry :=
    @codec.modelled_codecs memory_surface.t _ codec.lodepng_rejects in
  codec.decode_named registry qoi.rgb_example memory_surface.empty "qoi"
    default_options
  = qoi.decode qoi.rgb_example memory_surface.empty default_options
  /\ codec.decode_named registry qoi.rgb_example memory_surface.empty "bmp"
       default_options
     = Ok (failure invalid_format "Unknown codec: bmp", memory_surface.empty).
Proof.
  intros registry.
  destruct (decode_named_dispatch registry qoi.rgb_example
              memory_surface.empty "qoi" default_options) as [Hfirst _].
  destruct (decode_named_dispatch registry qoi.rgb_example
              memory_surface.empty "bmp" default_options) as [_ Hnone].
  set (pre := [@codec.png_decoder_impl memory_surface.t _
                  codec.lodepng_rejects]).
  pose proof (Hfirst pre (@codec.qoi_decoder_impl memory_surface.t _)
                [@codec.ico_decoder_impl memory_surface.t _
                   codec.lodepng_rejects;
                 @codec.koala_decoder_impl memory_surface.t _;
                 @codec.drazlace_decoder_impl memory_surface.t _]
                eq_refl ltac:(repeat constructor; discriminate) eq_refl)
    as H1.
  pose proof (Hnone ltac:(repeat constructor; discriminate)) as H2.
  exact (conj H1 H2).
Defined.

(* ===================================================================== *)
(** ** ICO: directory entries beyond the limits *)
(* ===================================================================== *)

Section ico_directory.
Import ico.
Variable lodepng_decode : list byte -> png.lodepng_image.

Ltac read_in_range data :=
  repeat match goal with
         | |- context [rd data ?i] =>
             destruct (rd_in_range data i) as [? ->]; [lia|]; cbn [cbind]
         end.

Lemma parse_ico_header_total (data : list byte) :
  exists valid header, parse_ico_header data = Ok (valid, header).
Proof.
  unfold parse_ico_header. destruct (len data <? 6) eqn:E; [eauto|].
  unfold read_le16, deref. cbn [base off].
  read_in_range data. eauto.
Qed.

Lemma parse_ico_dir_entry_total (data : list byte) (o : Z) :
  0 <= o -> o + 16 <= len data ->
  exists entry, parse_ico_dir_entry {| base := data; off := o |} = Ok entry.
Proof.
  intros Ho Hlen.
  unfold parse_ico_dir_entry, read_le16, read_le32, ptr_add, deref.
  cbn [base off]. read_in_range data. eauto.
Qed.

Lemma parse_entries_all_rejected (n : nat) (data : list byte)
    (max_w max_h : Z) :
  forall k, 0 <= k ->
    (forall j entry,
        k <= j < k + Z.of_nat n -> 6 + 16 * j + 16 <= len data ->
        parse_ico_dir_entry {| base := data; off := 6 + 16 * j |} = Ok entry ->
        (if entry_width entry =? 0 then 256 else entry_width entry) > max_w
        \/ (if entry_height entry =? 0 then 256 else entry_height entry)
           > max_h) ->
    parse_entries n data max_w max_h (6 + 16 * k) [] = Ok [].
Proof.
  induction n as [|n IH]; intros k Hk Hrej; [reflexivity|].
  cbn [parse_entries].
  destruct (6 + 16 * k + 16 >? len data) eqn:E; [reflexivity|].
  destruct (parse_ico_dir_entry_total data (6 + 16 * k)) as [entry Ee];
    [lia|lia|].
  rewrite Ee. cbn [cbind].
  pose proof (Hrej k entry ltac:(lia) ltac:(lia) Ee) as Hover.
  destruct ((_ <=? max_w) && (_ <=? max_h) && _ && _) eqn:Ef; [lia|].
  replace (6 + 16 * k + 16) with (6 + 16 * (k + 1)) by lia.
  apply IH; [lia|]. intros j entry' Hj. apply Hrej. lia.
Qed.

(** X30.  ico_decoder::decode does not report dimensions_exceeded for
    images beyond the limits: directory entries whose width or height
    exceeds max_width / max_height (256 when the option is not
    positive) are skipped, so a file in which every one of the [count]
    directory entries is too large fails with invalid_format, and the
    surface is untouched.  Only the entries of the directory matter:
    whatever follows them in the file is not looked at. *)
Theorem ico_oversized_entries_invalid_format {Surf : Type} `{!surface Surf}
    (data : list byte) (surf : Surf) (options : decode_options) :
  (forall header k entry,
      parse_ico_header data = Ok (true, Some header) ->
      0 <= k < count header -> 6 + 16 * k + 16 <= len data ->
      parse_ico_dir_entry {| base := data; off := 6 + 16 * k |} = Ok entry ->
      (if entry_width entry =? 0 then 256 else entry_width entry)
      > (if max_width options >? 0 then max_width options else 256)
      \/ (if entry_height entry =? 0 then 256 else entry_height entry)
         > (if max_height options >? 0 then max_height options else 256)) ->
  exists r,
    decode lodepng_decode data surf options = Ok (r, surf)
    /\ ok r = false /\ error r = invalid_format.
Proof.
  intros Hrej. unfold decode.
  destruct (parse_ico_header_total data) as (valid & header & Eh).
  rewrite Eh. cbn [cbind].
  destruct valid, header as [header|];
    try (eexists; split; [reflexivity|]; by split).
  destruct (count header =? 0).
  { eexists. split; [reflexivity|]. by split. }
  rewrite (parse_entries_all_rejected _ data _ _ 0) by
    (first [lia | intros j entry Hj; apply (Hrej header); [exact Eh|lia]]).
  cbn [cbind]. eexists. split; [reflexivity|]. by split.
Qed.

End ico_directory.

Lemma ico_oversized_entries_invalid_format_witness :
  exists r,
    ico.decode codec.lodepng_rejects ico.oversized_example
      memory_surface.empty {| max_width := 16; max_height := 16 |}
    = Ok (r, memory_surface.empty)
    /\ ok r = false /\ error r = invalid_format.
Proof.
  apply (ico_oversized_entries_invalid_format codec.lodepng_rejects
           ico.oversized_example
           memory_surface.empty {| max_width := 16; max_height := 16 |}).
  intros header k entry Hh Hk Hlen He.
  vm_compute in Hh. injection Hh as <-. cbn [ico.count] in Hk.
  assert (k = 0) by lia. subst k.
  vm_compute in He. injection He as <-. left. reflexivity.
Defined.

Lemma qoi_sniff_sound_witness :
  qoi.sniff qoi.rgb_example = Ok true
  /\ forall result s,
       qoi.decode qoi.rgb_example memory_surface.empty default_options
       = Ok (result, s) ->
       error result <> invalid_format.
Proof.
  destruct (qoi_sniff_sound qoi.rgb_example memory_surface.empty
              default_options) as (accepted & E & H).
  vm_compute in E. injection E as <-.
  split; [reflexivity|]. exact (H eq_refl).
Defined.

Lemma png_sniff_signature_witness :
  png.sniff (png.PNG_SIGNATURE ++ [x00; x00; x00; x0d]) = true.
Proof.
  apply (png_sniff_signature (png.PNG_SIGNATURE ++ [x00; x00; x00; x0d])).
  reflexivity.
Defined.
